(** * yt-transcribe: caption resolution and rendering pipeline

    A shallow embedding of [yt-transcribe.py], the properties its
    specification states about it, and further properties of the
    code.

    Python strings are sequences of Unicode code points: a character is
    an [N], a string a [list N].  The functions of CPython and of the
    third-party packages the script calls are modelled where their
    behaviour is fixed by their documentation (whitespace, ASCII case
    mapping, URL splitting); the Unicode tables themselves
    (normalisation, general categories, transliteration) are a record
    of functions, [Tables], consulted only outside ASCII.  Calls into
    the captions service are a parameter of [fetch_transcript] that
    says how each call ends, and what [main] asks of the operating
    system and of [pathlib] is a record of functions as well,
    [World].

    The first part holds the model, one module per component of the
    script, then the vocabulary and the example inputs of the
    properties; the second part holds the properties, one module per
    component, those of the specification first. *)

From Stdlib Require Import String Ascii DecimalString.
From Stdlib Require Import NArith ZArith QArith Qminmax Bool Lia List.
From Stdlib Require DecimalFacts DecimalPos DecimalN.
Import ListNotations.

Set Implicit Arguments.
Close Scope Q_scope.

(** ** Python strings *)

Module Str.

Abbreviation char := N (only parsing).
Abbreviation str := (list N) (only parsing).

(** An ASCII literal as a Python string. *)
Definition lit (s : string) : str :=
  map N_of_ascii (list_ascii_of_string s).

Definition eqb (a b : str) : bool :=
  if list_eq_dec N.eq_dec a b then true else false.

(** Truthiness of a string: non-empty. *)
Definition truthy (s : str) : bool :=
  match s with [] => false | _ => true end.

Definition is_ascii (c : char) : bool := (c <? 128)%N.
Definition all_ascii (s : str) : bool := forallb is_ascii s.

(** [c in chars] for a one-character string [c]. *)
Definition mem (c : char) (chars : str) : bool := existsb (N.eqb c) chars.

(** [str.isspace] for one character, which is also what [\s] matches
    in a [str] pattern: the code points that CPython's
    [_PyUnicode_IsWhitespace] accepts. *)
Definition is_space (c : char) : bool :=
  ((9 <=? c) && (c <=? 13) || (28 <=? c) && (c <=? 32)
   || (c =? 133) || (c =? 160) || (c =? 5760)
   || (8192 <=? c) && (c <=? 8202)
   || (c =? 8232) || (c =? 8233) || (c =? 8239) || (c =? 8287)
   || (c =? 12288))%N.

Fixpoint lstrip_by (p : char -> bool) (s : str) : str :=
  match s with
  | c :: r => if p c then lstrip_by p r else s
  | [] => []
  end.

Definition rstrip_by (p : char -> bool) (s : str) : str :=
  rev (lstrip_by p (rev s)).

Definition strip_by (p : char -> bool) (s : str) : str :=
  rstrip_by p (lstrip_by p s).

(** [s.strip()], [s.rstrip()] and [s.strip(chars)]. *)
Definition strip (s : str) : str := strip_by is_space s.
Definition rstrip (s : str) : str := rstrip_by is_space s.
Definition strip_chars (chars : str) (s : str) : str :=
  strip_by (fun c => mem c chars) s.

Fixpoint startswith (prefix s : str) : bool :=
  match prefix, s with
  | [], _ => true
  | p :: ps, c :: r => (p =? c)%N && startswith ps r
  | _ :: _, [] => false
  end.

Definition endswith (suffix s : str) : bool :=
  startswith (rev suffix) (rev s).

(** [needle in s]. *)
Fixpoint contains (needle s : str) : bool :=
  startswith needle s
  || match s with
     | [] => false
     | _ :: r => contains needle r
     end.

(** [sep.join(parts)]. *)
Fixpoint join (sep : str) (parts : list str) : str :=
  match parts with
  | [] => []
  | [p] => p
  | p :: rest => p ++ sep ++ join sep rest
  end.

(** [s.split(sep)] for a one-character separator, as a fold that keeps
    the piece being read in [cur]. *)
Fixpoint split_on (sep : char) (cur : str) (s : str) : list str :=
  match s with
  | [] => [rev cur]
  | c :: r =>
      if (c =? sep)%N then rev cur :: split_on sep [] r
      else split_on sep (c :: cur) r
  end.

Definition split (sep : char) (s : str) : list str := split_on sep [] s.

(** [s.split(sep, 1)]: the text before the first [sep] and, when there
    is one, the text after it. *)
Fixpoint split1 (sep : char) (s : str) : str * option str :=
  match s with
  | [] => ([], None)
  | c :: r =>
      if (c =? sep)%N then ([], Some r)
      else let (a, b) := split1 sep r in (c :: a, b)
  end.

(** [str.lower] and [str.upper] on the ASCII letters. *)
Definition ascii_lower (c : char) : char :=
  if ((65 <=? c) && (c <=? 90))%N then (c + 32)%N else c.
Definition ascii_upper (c : char) : char :=
  if ((97 <=? c) && (c <=? 122))%N then (c - 32)%N else c.

(** Decimal digits of a natural number, as [str(n)] prints them. *)
Definition decimal (n : N) : str :=
  lit (NilZero.string_of_uint (N.to_uint n)).

End Str.

Import Str.

Arguments lit s%_string.
Open Scope list_scope.

(** ** Timestamps *)

Module Timestamp.

(** [f"{n:02d}"]: decimal, zero-padded to width two, the sign counted
    in the width. *)
Definition fmt_02d (n : Z) : str :=
  if (n <? 0)%Z then lit "-" ++ decimal (Z.to_N (- n))
  else
    let d := decimal (Z.to_N n) in
    if (length d <? 2)%nat then lit "0" ++ d else d.

(** [int(x)] for a finite float [x], read as the rational it denotes:
    truncation toward zero. *)
Definition int_of (x : Q) : Z := Z.quot (Qnum x) (Zpos (Qden x)).

(** [x < 0] for a finite float. *)
Definition is_negative (x : Q) : bool := (Qnum x <? 0)%Z.

Definition format_timestamp (seconds : Q) : str :=
  let seconds := if is_negative seconds then 0%Q else seconds in
  let total_seconds := int_of seconds in
  let hours := (total_seconds / 3600)%Z in
  let remainder := (total_seconds mod 3600)%Z in
  let minutes := (remainder / 60)%Z in
  let secs := (remainder mod 60)%Z in
  if (hours =? 0)%Z
  then fmt_02d minutes ++ lit ":" ++ fmt_02d secs
  else fmt_02d hours ++ lit ":" ++ fmt_02d minutes ++ lit ":" ++ fmt_02d secs.

(** The two decimal digits of a number below one hundred. *)
Definition two_digits (n : Z) : str :=
  [ (48 + Z.to_N (n / 10))%N; (48 + Z.to_N (n mod 10))%N ].

End Timestamp.

(** ** Library behaviour outside ASCII *)

Module Unicode.

(** Unicode general categories, as [unicodedata.category] names them. *)
Inductive category :=
| Lu | Ll | Lt | Lm | Lo
| Mn | Mc | Me
| Nd | Nl | No
| Pc | Pd | Ps | Pe | Pi | Pf | Po
| Sm | Sc | Sk | So
| Zs | Zl | Zp
| Cc | Cf | Cs | Co | Cn.

(** What the script obtains from tables that are not part of the
    repository.  Each field is consulted only where the answer is not
    already fixed for ASCII text (see [nfc], [category_of], [lower],
    [unidecode], [unquote] below):
    - [nfc_table]: [unicodedata.normalize("NFC", s)];
    - [category_table]: [unicodedata.category(c)];
    - [lower_table]: [str.lower];
    - [unidecode_table]: the [unidecode] function of the Unidecode
      package, [None] when the package is not installed (the import
      raises [ImportError]);
    - [unquote_table]: [urllib.parse.unquote] on text with a percent
      escape;
    - [netloc_accepted]: whether [urllib.parse.urlsplit] accepts an
      authority that is bracketed (an IP literal) or not ASCII, rather
      than raising [ValueError]. *)
Record Tables := {
  nfc_table : str -> str;
  category_table : char -> category;
  lower_table : str -> str;
  unidecode_table : option (str -> str);
  unquote_table : str -> str;
  netloc_accepted : str -> bool
}.

(** The general category of the ASCII code points: controls are [Cc],
    the space [Zs], the dollar [Sc], brackets [Ps] and [Pe], the
    mathematical signs (plus, less, equals, greater, bar, tilde) [Sm],
    the hyphen [Pd], digits [Nd], letters [Lu] and [Ll], circumflex
    and grave [Sk], the underscore [Pc], and the remaining punctuation
    [Po]. *)
Definition ascii_category (c : char) : category :=
  if (c <? 32)%N then Cc
  else if (c =? 32)%N then Zs
  else if (c =? 36)%N then Sc
  else if (c =? 40)%N || (c =? 91)%N || (c =? 123)%N then Ps
  else if (c =? 41)%N || (c =? 93)%N || (c =? 125)%N then Pe
  else if (c =? 43)%N || (c =? 60)%N || (c =? 61)%N || (c =? 62)%N
          || (c =? 124)%N || (c =? 126)%N then Sm
  else if (c =? 45)%N then Pd
  else if (c <? 48)%N then Po
  else if (c <? 58)%N then Nd
  else if (c <? 65)%N then Po
  else if (c <? 91)%N then Lu
  else if (c =? 92)%N then Po
  else if (c =? 94)%N || (c =? 96)%N then Sk
  else if (c =? 95)%N then Pc
  else if (c <? 123)%N then Ll
  else Cc.

Section WithTables.
Variable T : Tables.

(** ASCII text is in every normal form. *)
Definition nfc (s : str) : str :=
  if all_ascii s then s else nfc_table T s.

Definition category_of (c : char) : category :=
  if is_ascii c then ascii_category c else category_table T c.

Definition lower (s : str) : str :=
  if all_ascii s then map ascii_lower s else lower_table T s.

(** [unidecode] returns ASCII text as it is and transliterates
    anything else from its table. *)
Definition unidecode : option (str -> str) :=
  match unidecode_table T with
  | None => None
  | Some u => Some (fun s => if all_ascii s then s else u s)
  end.

(** [unquote] returns text without a percent sign as it is. *)
Definition unquote (s : str) : str :=
  if mem 37%N s then unquote_table T s else s.

End WithTables.

(** [s.encode("ascii", "ignore").decode("ascii")] *)
Definition ascii_ignore (s : str) : str := filter is_ascii s.

(** [s.upper()] for ASCII text. *)
Definition upper (s : str) : str := map ascii_upper s.

End Unicode.

Import Unicode.

(** ** The regular expressions of the script *)

Module Regex.

(** [re.sub(r"\s+", " ", s)]: every maximal run of whitespace becomes
    one space; [in_run] says that the previous character was
    whitespace. *)
Fixpoint sub_spaces (in_run : bool) (s : str) : str :=
  match s with
  | [] => []
  | c :: r =>
      if is_space c
      then if in_run then sub_spaces true r else 32%N :: sub_spaces true r
      else c :: sub_spaces false r
  end.

Definition collapse_whitespace (s : str) : str := sub_spaces false s.

Definition is_punct (c : char) : bool := mem c (lit ",.!?;:").

(** [re.sub(r"\s+([,.!?;:])", r"\1", s)]: a run of whitespace that a
    punctuation mark follows is deleted; [pending] is the run read so
    far, emitted when something else follows it. *)
Fixpoint sub_space_punct (pending : str) (s : str) : str :=
  match s with
  | [] => pending
  | c :: r =>
      if is_space c then sub_space_punct (pending ++ [c]) r
      else if is_punct c then c :: sub_space_punct [] r
      else pending ++ c :: sub_space_punct [] r
  end.

Definition unspace_punctuation (s : str) : str := sub_space_punct [] s.

Definition STAGE_DIRECTIONS : list str :=
  [lit "music"; lit "applause"; lit "laughter"; lit "silence"; lit "inaudible"].

(** Whether the pattern character [p] (lower case in the pattern)
    matches [c] under [re.IGNORECASE] for a [str] pattern: [c]
    lower-cases to [p], or is one of the other-case forms the [re]
    module adds (dotted and dotless i for [i], long s for [s], the
    Kelvin sign for [k]). *)
Definition ci_match (p c : char) : bool :=
  (ascii_lower c =? p)%N
  || (p =? 105)%N && ((c =? 304)%N || (c =? 305)%N)
  || (p =? 115)%N && (c =? 383)%N
  || (p =? 107)%N && (c =? 8490)%N.

(** Matching the literal [p] at the start of [s] ignoring case: the
    text after the match. *)
Fixpoint ci_prefix (p s : str) : option str :=
  match p, s with
  | [], _ => Some s
  | a :: p', c :: s' => if ci_match a c then ci_prefix p' s' else None
  | _ :: _, [] => None
  end.

Fixpoint first_match (words : list str) (s : str) : option str :=
  match words with
  | [] => None
  | w :: ws =>
      match ci_prefix (lit "[" ++ w ++ lit "]") s with
      | Some rest => Some rest
      | None => first_match ws s
      end
  end.

(** [STAGE_DIRECTION_PATTERN.match(s)]: the text after the marker that
    [s] starts with. *)
Definition match_stage_direction (s : str) : option str :=
  first_match STAGE_DIRECTIONS s.

(** [STAGE_DIRECTION_PATTERN.fullmatch(s)] *)
Definition fullmatch_stage_direction (s : str) : bool :=
  match match_stage_direction s with
  | Some [] => true
  | _ => false
  end.

(** [STAGE_DIRECTION_PATTERN.sub("", s)], left to right; [skip] counts
    the characters of the current match still to be dropped. *)
Fixpoint sub_markers (skip : nat) (s : str) : str :=
  match s with
  | [] => []
  | c :: r =>
      match skip with
      | S k => sub_markers k r
      | O =>
          match match_stage_direction s with
          | Some rest => sub_markers (length r - length rest) r
          | None => c :: sub_markers 0 r
          end
      end
  end.

Definition remove_stage_directions (s : str) : str := sub_markers 0 s.

(** One character of [[A-Za-z0-9_-]]. *)
Definition is_id_char (c : char) : bool :=
  ((65 <=? c) && (c <=? 90) || (97 <=? c) && (c <=? 122)
   || (48 <=? c) && (c <=? 57) || (c =? 95) || (c =? 45))%N.

(** [VIDEO_ID_PATTERN.fullmatch(s)] *)
Definition fullmatch_video_id (s : str) : bool :=
  (length s =? 11)%nat && forallb is_id_char s.

End Regex.

Import Regex.

(** ** Results of operations that may raise *)

Inductive outcome (E A : Type) : Type :=
| Returns (a : A)
| Raises (e : E).

Arguments Returns {E A} a.
Arguments Raises {E A} e.

(** ** Filename sanitizer *)

Module Sanitizer.

Section WithTables.
Variable T : Tables.

Definition ILLEGAL : str := [92; 47; 58; 42; 63; 34; 60; 62; 124]%N.

(** The body of the filtering loop: whether [char] is appended to
    [filtered_chars]. *)
Definition kept (char : char) : bool :=
  match category_of T char with
  | Cc | Cf => false
  | Cs | Co => false
  | So => false
  | _ => negb (mem char ILLEGAL)
  end.

Definition windows_reserved : list str :=
  [lit "CON"; lit "PRN"; lit "AUX"; lit "NUL"]
  ++ map (fun i => lit "COM" ++ decimal i) [1; 2; 3; 4; 5; 6; 7; 8; 9]%N
  ++ map (fun i => lit "LPT" ++ decimal i) [1; 2; 3; 4; 5; 6; 7; 8; 9]%N.

Definition is_reserved (s : str) : bool :=
  existsb (Str.eqb (upper s)) windows_reserved.

(** The text before transliteration: normalized, filtered, with
    whitespace and punctuation tidied and the ends trimmed. *)
Definition cleaned (base : str) : str :=
  let text := nfc T base in
  let sanitized := filter kept text in
  let sanitized := collapse_whitespace sanitized in
  let sanitized := unspace_punctuation sanitized in
  strip_chars (lit " .") sanitized.

(** The text before the length limit is applied. *)
Definition untruncated (base : str) : str :=
  let sanitized := cleaned base in
  let sanitized :=
    match unidecode T with
    | None => ascii_ignore sanitized
    | Some unidecode => unidecode sanitized
    end in
  let sanitized := ascii_ignore sanitized in
  strip_chars (lit " .") (collapse_whitespace sanitized).

Definition sanitize_filename (base : str) : str :=
  if negb (truthy base) then []
  else
    let sanitized := untruncated base in
    let sanitized :=
      if (200 <? length sanitized)%nat
      then rstrip (firstn 200 sanitized)
      else sanitized in
    if is_reserved sanitized then sanitized ++ lit "_" else sanitized.

End WithTables.

End Sanitizer.

(** ** Caption normalizer *)

Module Normalizer.

Section WithTables.
Variable T : Tables.

(** [cleaned.replace("\n", " ")] *)
Definition newlines_to_spaces (s : str) : str :=
  map (fun c => if (c =? 10)%N then 32%N else c) s.

(** [text] is [None] when the entry carries Python's [None]. *)
Definition clean_caption_text (text : option str) (keep_tags : bool) : str :=
  match text with
  | None => []
  | Some text =>
      let cleaned := nfc T text in
      let cleaned :=
        if negb keep_tags then remove_stage_directions cleaned else cleaned in
      let cleaned := newlines_to_spaces cleaned in
      let cleaned := collapse_whitespace cleaned in
      let cleaned := unspace_punctuation cleaned in
      strip cleaned
  end.

End WithTables.

End Normalizer.

(** ** Video reference resolver *)

Module Resolver.

(** The messages of the [CliError]s the script raises. *)
Inductive cli_error :=
| MissingInput                    (* You must provide a YouTube URL or 11-character video ID. *)
| NoVideoId (input : str)         (* Unable to locate a valid video ID in input: ... *)
| InvalidVideoId (video_id : str) (* Invalid video ID extracted: ... *).

Inductive error :=
| CliError (e : cli_error)
| ValueError.                     (* raised by [urlparse] *)

(** The result of [urllib.parse.urlparse]. *)
Record ParseResult := {
  scheme : str;
  netloc : str;
  path : str;
  params : str;
  query : str;
  fragment : str
}.

(** [s.find(c, start) >= 0]: the text up to the first [c] and the text
    from that [c] on. *)
Fixpoint break_at (stop : char -> bool) (s : str) : str * str :=
  match s with
  | [] => ([], [])
  | c :: r =>
      if stop c then ([], s)
      else let (a, b) := break_at stop r in (c :: a, b)
  end.

(** The first two steps of [urlsplit]: leading control characters and
    spaces are stripped, then tabs and line breaks are removed
    everywhere. *)
Definition remove_unsafe (url : str) : str :=
  filter (fun c => negb ((c =? 9)%N || (c =? 10)%N || (c =? 13)%N))
    (lstrip_by (fun c => (c <=? 32)%N) url).

Definition is_scheme_char (c : char) : bool :=
  ((65 <=? c) && (c <=? 90) || (97 <=? c) && (c <=? 122)
   || (48 <=? c) && (c <=? 57) || (c =? 43) || (c =? 45) || (c =? 46))%N.

Definition is_ascii_alpha (c : char) : bool :=
  ((65 <=? c) && (c <=? 90) || (97 <=? c) && (c <=? 122))%N.

(** The scheme and the rest of [url]: the text before the first colon
    is a scheme when it is not empty, starts with an ASCII letter and
    holds scheme characters only. *)
Definition split_scheme (url : str) : str * str :=
  match split1 58%N url with
  | (before, Some rest) =>
      match before with
      | c :: _ =>
          if is_ascii_alpha c && forallb is_scheme_char before
          then (map ascii_lower before, rest)
          else ([], url)
      | [] => ([], url)
      end
  | (_, None) => ([], url)
  end.

(** The authority and the rest of a URL that starts with two
    slashes. *)
Definition split_netloc (url : str) : str * str :=
  match url with
  | a :: b :: after =>
      if (a =? 47)%N && (b =? 47)%N
      then break_at (fun c => (c =? 47)%N || (c =? 63)%N || (c =? 35)%N) after
      else ([], url)
  | _ => ([], url)
  end.

Section WithTables.
Variable T : Tables.

(** The checks of [urlsplit] on the authority: a bracket without its
    partner is refused, a bracketed or non-ASCII authority is looked
    up in [netloc_accepted]. *)
Definition netloc_ok (netloc : str) : bool :=
  let opening := mem 91%N netloc in
  let closing := mem 93%N netloc in
  if xorb opening closing then false
  else if opening || negb (all_ascii netloc) then netloc_accepted T netloc
  else true.

(** The schemes whose paths may carry parameters ([uses_params]). *)
Definition uses_params : list str :=
  [[]; lit "ftp"; lit "hdl"; lit "prospero"; lit "http"; lit "imap";
   lit "https"; lit "shttp"; lit "rtsp"; lit "rtspu"; lit "sip"; lit "sips";
   lit "mms"; lit "sftp"; lit "tel"].

(** [_splitparams]: the parameters of the last path segment. *)
Definition split_params (url : str) : str * str :=
  let (last_rev, before_rev) := break_at (fun c => (c =? 47)%N) (rev url) in
  match split1 59%N (rev last_rev) with
  | (seg, Some p) => (rev before_rev ++ seg, p)
  | (_, None) => (url, [])
  end.

(** [urllib.parse.urlparse(url)]: leading control characters and
    spaces are dropped, tabs and line breaks removed, then the scheme,
    the authority, the fragment, the query and the parameters are
    split off in this order. *)
Definition urlparse (url : str) : outcome error ParseResult :=
  let url := remove_unsafe url in
  let (scheme, url) := split_scheme url in
  let (netloc, url) := split_netloc url in
  if negb (netloc_ok netloc) then Raises ValueError
  else
    let (url, fragment) := split1 35%N url in
    let (url, query) := split1 63%N url in
    let (url, params) :=
      if existsb (Str.eqb scheme) uses_params then split_params url
      else (url, []) in
    Returns {| scheme := scheme; netloc := netloc; path := url;
               params := params;
               query := match query with Some q => q | None => [] end;
               fragment := match fragment with Some f => f | None => [] end |}.

(** [urllib.parse.parse_qsl(qs)]: the fields are separated by
    ampersands; a field without an equals sign or with an empty value
    is dropped; plus signs are spaces and percent escapes are
    decoded. *)
Definition parse_field (field : str) : list (str * str) :=
  match split1 61%N field with
  | (name, Some value) =>
      if truthy value
      then
        let plus_to_space := map (fun c => if (c =? 43)%N then 32%N else c) in
        [(unquote T (plus_to_space name), unquote T (plus_to_space value))]
      else []
  | (_, None) => []
  end.

Definition parse_qsl (qs : str) : list (str * str) :=
  if truthy qs then flat_map parse_field (split 38%N qs) else [].

(** [parse_qs(qs).get(name, [None])[0]]: the first value given for
    [name]. *)
Fixpoint first_value (name : str) (pairs : list (str * str)) : option str :=
  match pairs with
  | [] => None
  | (n, v) :: rest => if Str.eqb n name then Some v else first_value name rest
  end.

Definition normalize_url (url_or_id : str) : str :=
  if startswith (lit "www.") url_or_id
  then lit "https://" ++ url_or_id
  else url_or_id.

Definition canonical_url (video_id : str) : str :=
  lit "https://www.youtube.com/watch?v=" ++ video_id.

(** The identifier the host and path of a parsed URL designate, before
    it is validated. *)
Definition locate_video_id (parsed : ParseResult) : option str :=
  let host := lower T (netloc parsed) in
  let path_segments := filter truthy (split 47%N (path parsed)) in
  if endswith (lit "youtu.be") host then
    match path_segments with
    | first :: _ => Some first
    | [] => None
    end
  else if contains (lit "youtube.com") host then
    if startswith (lit "/watch") (path parsed) then
      first_value (lit "v") (parse_qsl (query parsed))
    else
      match path_segments with
      | first_segment :: second :: _ =>
          if existsb (Str.eqb first_segment) [lit "shorts"; lit "embed"; lit "live"]
          then Some second
          else None
      | _ => None
      end
  else None.

Definition extract_video_id (url_or_id : str) : outcome error (str * str) :=
  let candidate := strip url_or_id in
  if negb (truthy candidate) then Raises (CliError MissingInput)
  else if fullmatch_video_id candidate
  then Returns (candidate, canonical_url candidate)
  else
    let normalized := normalize_url candidate in
    match urlparse normalized with
    | Raises e => Raises e
    | Returns parsed =>
        match locate_video_id parsed with
        | None => Raises (CliError (NoVideoId url_or_id))
        | Some video_id =>
            if negb (truthy video_id)
            then Raises (CliError (NoVideoId url_or_id))
            else if negb (fullmatch_video_id video_id)
            then Raises (CliError (InvalidVideoId video_id))
            else Returns (video_id, canonical_url video_id)
        end
    end.

End WithTables.

End Resolver.

(** ** Transcript resolver *)

Module Transcript.

(** The exceptions a call into [youtube_transcript_api] may end with.
    The first six are classes of the library, all below its
    [YouTubeTranscriptApiException]; [OtherException] is any
    [Exception] outside that hierarchy (an error of the HTTP client,
    say). *)
Inductive exn :=
| VideoUnavailable
| TranscriptsDisabled
| NoTranscriptFound
| NotTranslatable
| TranslationLanguageNotAvailable
| OtherApiException (what : str)
| OtherException (what : str).

(** [isinstance(err, YouTubeTranscriptApiException)] *)
Definition is_api_exception (e : exn) : bool :=
  match e with
  | OtherException _ => false
  | _ => true
  end.

(** An entry as the library hands it over, a mapping or an object: a
    field is [None] when the key or attribute is missing.  The text of
    an entry may be Python's [None], which is the inner [None]. *)
Inductive raw_entry :=
| DictEntry (text : option (option str)) (start duration : option Q)
| ObjectEntry (text : option (option str)) (start duration : option Q).

Record Entry := {
  text : option str;
  start : Q;
  duration : Q
}.

(** A track of the library: its language code, what [fetch()] does and
    what [translate(language)] does. *)
#[local] Unset Elimination Schemes.
Inductive track :=
| Track (language_code : str)
        (fetch : outcome exn (list raw_entry))
        (translate : str -> outcome exn track).

#[local] Set Elimination Schemes.

Definition language_code (t : track) : str :=
  match t with Track l _ _ => l end.
Definition fetch (t : track) : outcome exn (list raw_entry) :=
  match t with Track _ f _ => f end.
Definition translate (t : track) : str -> outcome exn track :=
  match t with Track _ _ tr => tr end.

(** The transcript list of a video: its tracks by language code, the
    manually created ones and the generated ones. *)
Record TranscriptList := {
  manually_created : list (str * track);
  generated_tracks : list (str * track)
}.

Fixpoint lookup (code : str) (tracks : list (str * track)) : option track :=
  match tracks with
  | [] => None
  | (c, t) :: rest => if Str.eqb c code then Some t else lookup code rest
  end.

(** The library's finders: the track of the first language code of
    [language_codes] that the category has; [None] stands for the
    [NoTranscriptFound] they raise otherwise. *)
Fixpoint find_transcript (tracks : list (str * track)) (language_codes : list str)
  : option track :=
  match language_codes with
  | [] => None
  | code :: rest =>
      match lookup code tracks with
      | Some t => Some t
      | None => find_transcript tracks rest
      end
  end.

Definition find_generated_transcript (l : TranscriptList) :=
  find_transcript (generated_tracks l).
Definition find_manually_created_transcript (l : TranscriptList) :=
  find_transcript (manually_created l).

(** The captions service: what the [n]-th call of [api.list(video_id)]
    does, counting from zero. *)
Definition Api := str -> nat -> outcome exn TranscriptList.

(** The values of the [kind] and [source_kind] fields. *)
Inductive caption_kind := manual | generated | translated.

Record TranscriptSelection := {
  kind : caption_kind;
  source_kind : option caption_kind;
  language : str;
  translated_to : option str;
  entries : list Entry
}.

Inductive cli_error :=
| VideoUnavailableError     (* The video is unavailable or restricted in this region. *)
| CaptionsDisabledError     (* Captions are disabled for this video. *)
| ListFailed (err : exn)    (* Failed to fetch transcript list: ... *)
| NoMetadata                (* Unable to fetch transcript metadata after multiple attempts. *)
| NoCaptions                (* No manual or auto captions available for this video. *)
| FetchFailed (err : exn)   (* Failed to download transcript entries: ... *).

(** How [fetch_transcript] may fail: with a [CliError], or with an
    exception of a call that no handler of the function catches. *)
Inductive failure :=
| CliError (e : cli_error)
| Uncaught (e : exn).

(** What the function does besides returning: the calls of
    [time.sleep] and the warnings it logs. *)
Inductive event :=
| Sleep (delay : Q)
| WarnListRetry (attempt : Z) (err : exn)
| WarnTranslationUnavailable (target : str)
| WarnTranslationFailed (target : str) (err : exn).

Definition DEFAULT_LANG_PREF : str := lit "en,en-US,en-GB".

Definition expand_language_list (lang_option : str) : list str :=
  if negb (truthy lang_option) then []
  else filter truthy (map strip (split 44%N lang_option)).

(** [list(dict.fromkeys(languages))]: the first occurrence of each
    code, in order. *)
Fixpoint dedupe (seen : list str) (languages : list str) : list str :=
  match languages with
  | [] => []
  | l :: rest =>
      if existsb (Str.eqb l) seen then dedupe seen rest
      else l :: dedupe (l :: seen) rest
  end.

Definition preferences_of (languages : list str) : list str :=
  match languages with
  | [] => expand_language_list DEFAULT_LANG_PREF
  | _ => dedupe [] languages
  end.

Definition field {A} (default : A) (value : option A) : A :=
  match value with Some v => v | None => default end.

Definition normalize_entry (item : raw_entry) : Entry :=
  match item with
  | DictEntry t s d | ObjectEntry t s d =>
      {| text := field (Some []) t; start := field 0%Q s; duration := field 0%Q d |}
  end.

Definition normalize_entries (raw_entries : list raw_entry) : list Entry :=
  map normalize_entry raw_entries.

(** [min(5.0, 1.5 * (attempt + 1))], exact in floating point for every
    attempt number the loop can reach. *)
Definition retry_delay (attempt : Z) : Q :=
  Qmin 5 ((3 # 2) * inject_Z (attempt + 1)).

(** The default of the [retries] parameter, which [main] relies on. *)
Definition default_retries : Z := 2.

(** [fetch_transcript], its parameters first.  The import of the
    captions library at the head of the function is taken to succeed
    (it raises a [CliError] otherwise, before anything else
    happens). *)
Section FetchTranscript.
Variable api : Api.
Variable video_id : str.
Variable prefer_generated : bool.
Variable languages : list str.
Variable translate_to : option str.
Variable retries : Z.

(** The listing loop from iteration [attempt] on, with [remaining]
    iterations of [range(retries + 1)] left; [None] when the loop ends
    without [transcripts] being set. *)
Fixpoint list_loop (remaining : nat) (attempt : nat)
  : list event * outcome failure (option TranscriptList) :=
  match remaining with
  | O => ([], Returns None)
  | S remaining' =>
      match api video_id attempt with
      | Returns transcripts => ([], Returns (Some transcripts))
      | Raises VideoUnavailable => ([], Raises (CliError VideoUnavailableError))
      | Raises TranscriptsDisabled => ([], Raises (CliError CaptionsDisabledError))
      | Raises err =>
          if is_api_exception err then
            if (Z.of_nat attempt =? retries)%Z
            then ([], Raises (CliError (ListFailed err)))
            else
              let delay := retry_delay (Z.of_nat attempt) in
              let (events, result) := list_loop remaining' (S attempt) in
              (WarnListRetry (Z.of_nat attempt + 1) err :: Sleep delay :: events,
               result)
          else ([], Raises (Uncaught err))
      end
  end.

Definition list_transcripts : list event * outcome failure TranscriptList :=
  let (events, result) := list_loop (Z.to_nat (retries + 1)) 0 in
  (events,
   match result with
   | Returns (Some transcripts) => Returns transcripts
   | Returns None => Raises (CliError NoMetadata)
   | Raises e => Raises e
   end).

Definition search_order (transcripts : TranscriptList)
  : list (caption_kind * (list str -> option track)) :=
  let order :=
    [(generated, find_generated_transcript transcripts);
     (manual, find_manually_created_transcript transcripts)] in
  if negb prefer_generated then rev order else order.

(** The selection loop: the first finder of [order] that finds a
    track, with its kind. *)
Fixpoint choose (order : list (caption_kind * (list str -> option track)))
  (preferences : list str) : option (caption_kind * track) :=
  match order with
  | [] => None
  | (kind, finder) :: rest =>
      match finder preferences with
      | Some chosen => Some (kind, chosen)
      | None => choose rest preferences
      end
  end.

(** The function from the fetch of the chosen track on. *)
Definition fetch_chosen (chosen_kind : caption_kind) (chosen : track)
  : list event * outcome failure TranscriptSelection :=
  let translation_target :=
    match translate_to with
    | Some t => if truthy t then Some (strip t) else None
    | None => None
    end in
  match fetch chosen with
  | Raises err => ([], Raises (CliError (FetchFailed err)))
  | Returns base_entries =>
      let original events :=
        (events,
         Returns {| kind := chosen_kind;
                    source_kind := Some chosen_kind;
                    language := language_code chosen;
                    translated_to := None;
                    entries := normalize_entries base_entries |}) in
      let fallback target err :=
        match err with
        | NoTranscriptFound | NotTranslatable | TranslationLanguageNotAvailable =>
            original [WarnTranslationUnavailable target]
        | _ =>
            if is_api_exception err
            then original [WarnTranslationFailed target err]
            else ([], Raises (Uncaught err))
        end in
      match translation_target with
      | Some target =>
          if truthy target then
            match translate chosen target with
            | Raises err => fallback target err
            | Returns translated_track =>
                match fetch translated_track with
                | Raises err => fallback target err
                | Returns translated_entries =>
                    ([],
                     Returns {| kind := translated;
                                source_kind := Some chosen_kind;
                                language := language_code translated_track;
                                translated_to := Some target;
                                entries := normalize_entries translated_entries |})
                end
            end
          else original []
      | None => original []
      end
  end.

Definition fetch_transcript : list event * outcome failure TranscriptSelection :=
  let language_preferences := preferences_of languages in
  match list_transcripts with
  | (events, Raises e) => (events, Raises e)
  | (events, Returns transcripts) =>
      match choose (search_order transcripts) language_preferences with
      | None => (events, Raises (CliError NoCaptions))
      | Some (chosen_kind, chosen) =>
          let (more, result) := fetch_chosen chosen_kind chosen in
          (events ++ more, result)
      end
  end.

End FetchTranscript.

End Transcript.

(** ** Renderer *)

Module Renderer.

Import Timestamp Normalizer Transcript.

(** What [write_docx] adds to the document, in order: a run of text
    (bold or not) or a hyperlink inside a paragraph, and paragraphs
    that are headings or body paragraphs.  A paragraph without runs is
    a blank line. *)
Inductive run :=
| Run (text : str) (bold : bool)
| Hyperlink (text url : str).

Inductive paragraph :=
| Heading (level : nat) (runs : list run)
| Paragraph (runs : list run).

Section WithTables.
Variable T : Tables.

Section Writers.
Variable transcript : TranscriptSelection.
Variable canonical_url : str.
Variable title : str.
Variable include_timestamps : bool.
Variable keep_tags : bool.

(** [raw_text and STAGE_DIRECTION_PATTERN.fullmatch(raw_text.strip())] *)
Definition is_marker (raw_text : option str) : bool :=
  match raw_text with
  | Some s => truthy s && fullmatch_stage_direction (strip s)
  | None => false
  end.

(** [lines and lines[-1] != ""] *)
Definition ends_with_text (lines : list str) : bool :=
  match rev lines with
  | last :: _ => truthy last
  | [] => false
  end.

Definition txt_header : list str :=
  (if truthy title then [lit "Title: " ++ title] else [])
  ++ [lit "Source: " ++ canonical_url; []].

(** The body of the loop of [write_txt]: the list [lines] after the
    entry. *)
Definition txt_entry (lines : list str) (entry : Entry) : list str :=
  let raw_text := text entry in
  let is_stage_direction := keep_tags && is_marker raw_text in
  let text := clean_caption_text T raw_text keep_tags in
  if negb keep_tags && is_marker raw_text then
    if ends_with_text lines then lines ++ [[]] else lines
  else if negb (truthy text) then lines
  else
    let lines :=
      if is_stage_direction && ends_with_text lines
      then lines ++ [[]] else lines in
    if include_timestamps
    then lines ++ [format_timestamp (start entry) ++ lit " - " ++ text]
    else lines ++ [text].

(** The list [lines] when the loop of [write_txt] ends. *)
Definition txt_lines : list str :=
  fold_left txt_entry (entries transcript) txt_header.

(** The text [write_txt] writes to the file. *)
Definition write_txt : str :=
  rstrip (join [10%N] txt_lines) ++ [10%N].

Definition docx_header : list paragraph :=
  let heading_text := if truthy title then title else lit "YouTube Transcript" in
  [ Heading 1 (if truthy canonical_url
               then [Hyperlink heading_text canonical_url]
               else [Run heading_text false]);
    Paragraph [Run (lit "Source: ") true; Run canonical_url false];
    Paragraph [] ].

(** The body of the loop of [write_docx]: the paragraphs of the
    document and [previous_blank] after the entry. *)
Definition docx_entry (state : list paragraph * bool) (entry : Entry)
  : list paragraph * bool :=
  let (document, previous_blank) := state in
  let raw_text := text entry in
  let is_stage_direction := keep_tags && is_marker raw_text in
  let text := clean_caption_text T raw_text keep_tags in
  if negb keep_tags && is_marker raw_text then
    if negb previous_blank then (document ++ [Paragraph []], true) else state
  else if negb (truthy text) then state
  else
    let document :=
      if is_stage_direction && negb previous_blank
      then document ++ [Paragraph []] else document in
    let runs :=
      (if include_timestamps
       then [Run (format_timestamp (start entry) ++ lit " - ") true]
       else [])
      ++ [Run text false] in
    (document ++ [Paragraph runs], false).

(** The paragraphs of the document [write_docx] saves.  The import of
    the document library is taken to succeed; the page margins, the
    font and the paragraph spacing the function sets are no part of
    the paragraphs and are left out. *)
Definition write_docx : list paragraph :=
  fst (fold_left docx_entry (entries transcript) (docx_header, true)).

End Writers.
End WithTables.

(** *** Reading the two outputs as lines *)

Definition run_text (r : run) : str :=
  match r with
  | Run t _ => t
  | Hyperlink t _ => t
  end.

(** The text of a paragraph, styling and links set aside. *)
Definition paragraph_text (p : paragraph) : str :=
  match p with
  | Heading _ runs | Paragraph runs => concat (map run_text runs)
  end.

(** The lines of a text file that ends with a newline. *)
Definition file_lines (content : str) : list str :=
  removelast (split 10%N content).

(** The structure of an output: for each line or paragraph, whether it
    carries text ([true]) or is a blank separator ([false]). *)
Definition file_structure (content : str) : list bool :=
  map truthy (file_lines content).
Definition document_structure (document : list paragraph) : list bool :=
  map (fun p => truthy (paragraph_text p)) document.

End Renderer.

(** ** Command line *)

Module Cli.

Import Transcript Renderer.

(** The attributes of the namespace that [parse_args] returns; the
    options [--out] and [--translate] are [None] when not given. *)
Record Namespace := {
  url_or_id : str;
  docx : bool;
  out : option str;
  nostamp : bool;
  gencaps : bool;
  lang : str;
  translate : option str;
  keep_tags : bool;
  no_yt_dlp : bool;
  verbose : bool
}.

(** How [subprocess.run] of the title command ends: the process exits
    with status zero and this standard output, or the call raises one
    of the three exceptions [get_video_title] handles, or another
    exception (a [PermissionError], say). *)
Inductive process_result :=
| Completed (stdout : str)
| FileNotFoundError
| TimeoutExpired
| CalledProcessError
| OtherProcessError (what : str).

(** What a writer hands over to be saved. *)
Inductive file :=
| TextFile (content : str)
| Document (paragraphs : list paragraph).

(** What the script asks of the operating system, of [pathlib] and of
    the captions service, for a type [path] of [Path] objects:
    - [which]: [shutil.which(cmd)];
    - [Path], [joinpath], [suffix], [with_suffix]: the constructor,
      the [/] operator, the [suffix] property and the [with_suffix]
      method ([None] when it raises [ValueError]);
    - [is_file], [executable], [path_exists], [is_dir]: the queries
      [p.is_file()], [os.access(p, os.X_OK)], [p.exists()] and
      [p.is_dir()];
    - [sep]: [os.sep];
    - [mkdir]: whether [p.mkdir(parents=True, exist_ok=True)] returns
      rather than raises;
    - [run]: [subprocess.run] of the title command for a binary and a
      URL;
    - [store]: whether creating the parent directory of a path and
      saving the file there returns rather than raises;
    - [api]: the captions service. *)
Record World (path : Type) := {
  which : str -> option str;
  Path : str -> path;
  joinpath : path -> str -> path;
  suffix : path -> str;
  with_suffix : path -> str -> option path;
  is_file : path -> bool;
  executable : path -> bool;
  path_exists : path -> bool;
  is_dir : path -> bool;
  sep : str;
  mkdir : path -> bool;
  run : path -> str -> process_result;
  store : path -> file -> bool;
  api : Api
}.

(** What a run of [main] amounts to: the exit status, the sleeps and
    warnings of [fetch_transcript], and the file saved, if any. *)
Record Result (path : Type) := {
  exit_code : Z;
  log : list event;
  saved : option (path * file)
}.

(** One character of a line boundary of [str.splitlines]. *)
Definition is_linebreak (c : char) : bool :=
  ((10 <=? c) && (c <=? 13) || (28 <=? c) && (c <=? 30)
   || (c =? 133) || (c =? 8232) || (c =? 8233))%N.

(** [s.splitlines()]: the lines of [s] without their boundaries, a
    carriage return followed by a line feed being one boundary; [cur]
    is the line being read. *)
Fixpoint splitlines_from (cur : str) (s : str) : list str :=
  match s with
  | [] =>
      match cur with
      | [] => []
      | _ => [rev cur]
      end
  | c :: r =>
      if is_linebreak c then
        rev cur ::
        match r with
        | d :: r' =>
            if (c =? 13)%N && (d =? 10)%N
            then splitlines_from [] r'
            else splitlines_from [] r
        | [] => splitlines_from [] r
        end
      else splitlines_from (c :: cur) r
  end.

Definition splitlines (s : str) : list str := splitlines_from [] s.

(** The exceptions that leave [get_video_title]. *)
Inductive title_error :=
| IndexError
| Unhandled (what : str).

Section WithWorld.
Variable T : Tables.
Variable path : Type.
Variable W : World path.

Definition probe_ytdlp (skip_probe : bool) : option path :=
  if skip_probe then None
  else
    let fallback :=
      find (fun candidate => is_file W candidate && executable W candidate)
        [Path W (lit "/opt/homebrew/bin/yt-dlp");
         Path W (lit "/usr/local/bin/yt-dlp")] in
    match which W (lit "yt-dlp") with
    | Some which_result =>
        if truthy which_result then Some (Path W which_result) else fallback
    | None => fallback
    end.

(** The warnings the function logs are left out. *)
Definition get_video_title (yt_dlp_path : path) (canonical_url : str)
  : outcome title_error (option str) :=
  match run W yt_dlp_path canonical_url with
  | FileNotFoundError => Returns None
  | TimeoutExpired => Returns None
  | CalledProcessError => Returns None
  | OtherProcessError what => Raises (Unhandled what)
  | Completed stdout =>
      let raw_title := strip stdout in
      if negb (truthy raw_title) then Returns None
      else
        match splitlines raw_title with
        | [] => Raises IndexError
        | line :: _ =>
            let first_line := strip line in
            Returns (if truthy first_line then Some first_line else None)
        end
  end.

(** The path [main] writes to; [None] when computing it raises (the
    directory cannot be created, or [with_suffix] refuses the path). *)
Definition output_path (args : Namespace) (sanitized_base extension : str)
  : option path :=
  match out args with
  | Some given =>
      if truthy given then
        let raw_out := Path W given in
        let treat_as_directory :=
          if path_exists W raw_out && is_dir W raw_out then true
          else endswith (sep W) given in
        if treat_as_directory then
          if mkdir W raw_out
          then Some (joinpath W raw_out (sanitized_base ++ extension))
          else None
        else if Str.eqb (lower T (suffix W raw_out)) extension
        then Some raw_out
        else with_suffix W raw_out extension
      else Some (Path W (sanitized_base ++ extension))
  | None => Some (Path W (sanitized_base ++ extension))
  end.

Definition failed (events : list event) : Result path :=
  {| exit_code := 1; log := events; saved := None |}.

(** [main] from the parsed arguments on.  Every exception that the
    model raises is an [Exception], so that each failure ends in exit
    status 1, through the handler of [CliError] or the last one; the
    messages logged on the way are left out. *)
Definition main (args : Namespace) : Result path :=
  let languages := expand_language_list (lang args) in
  match Resolver.extract_video_id T (url_or_id args) with
  | Raises _ => failed []
  | Returns (video_id, canonical_url) =>
      let yt_dlp_path := probe_ytdlp (no_yt_dlp args) in
      let fetched :=
        match yt_dlp_path with
        | Some yt_dlp_path =>
            match get_video_title yt_dlp_path canonical_url with
            | Returns (Some fetched_title) =>
                Returns (if truthy fetched_title then fetched_title else video_id)
            | Returns None => Returns video_id
            | Raises e => Raises e
            end
        | None => Returns video_id
        end in
      match fetched with
      | Raises _ => failed []
      | Returns title =>
          match fetch_transcript (api W) video_id (gencaps args) languages
                  (translate args) default_retries with
          | (events, Raises _) => failed events
          | (events, Returns transcript) =>
              let include_timestamps := negb (nostamp args) in
              let sanitized_base :=
                let sanitized_base := Sanitizer.sanitize_filename T title in
                if truthy sanitized_base then sanitized_base else video_id in
              let extension := if docx args then lit ".docx" else lit ".txt" in
              match output_path args sanitized_base extension with
              | None => failed events
              | Some output_path =>
                  let written :=
                    if docx args
                    then Document (write_docx T transcript canonical_url title
                                     include_timestamps (keep_tags args))
                    else TextFile (write_txt T transcript canonical_url title
                                     include_timestamps (keep_tags args)) in
                  if store W output_path written
                  then {| exit_code := 0; log := events;
                          saved := Some (output_path, written) |}
                  else failed events
              end
          end
      end
  end.

End WithWorld.

End Cli.

(** ** The vocabulary of the properties *)

Module Terms.

Import Timestamp Normalizer Transcript Renderer Sanitizer.

(** *** Characters and strings *)

(** Characters that no step of URL splitting treats specially: above
    the space, and none of the delimiters. *)
Definition is_plain (c : char) : bool :=
  (32 <? c)%N && negb (is_space c)
  && negb (mem c (lit "#%&+/:;=?[]")) && is_ascii c.

Definition is_visible (c : char) : bool := (32 <? c)%N && negb (is_space c).

Definition is_word (c : char) : bool :=
  ((65 <=? c) && (c <=? 90) || (97 <=? c) && (c <=? 122)
   || (48 <=? c) && (c <=? 57))%N.

Definition wordish (c : char) : bool := is_word c || (c =? 95)%N.

Definition trimmed (c : char) : bool := mem c (lit " .").

Definition legal (c : char) : bool := negb (mem c ILLEGAL).

(** Text that does not start with a character of the set. *)
Definition starts_clean (q : char -> bool) (s : str) : bool :=
  match s with
  | c :: _ => negb (q c)
  | [] => true
  end.

(** Every two neighbours of [s] are related by [R]. *)
Fixpoint chain (R : char -> char -> bool) (s : str) : bool :=
  match s with
  | a :: r =>
      match r with
      | b :: _ => R a b
      | [] => true
      end && chain R r
  | [] => true
  end.

Definition no_space_pair (a b : char) : bool := negb (is_space a && is_space b).

Definition plain_space (c : char) : bool := negb (is_space c) || (c =? 32)%N.

(** The only whitespace is the space, and never two in a row. *)
Definition single_spaced (s : str) : bool :=
  forallb plain_space s && chain no_space_pair s.

(** After whitespace ([in_run]), [s] does not go on with whitespace. *)
Definition head_ok (in_run : bool) (s : str) : bool :=
  match s with
  | c :: _ => negb (in_run && is_space c)
  | [] => true
  end.

Definition no_space_punct (a b : char) : bool :=
  negb (is_space a && is_punct b).

Definition tidy (s : str) : bool := chain no_space_punct s.

Section Settled.
Variable T : Tables.

(** A string on which every step of the sanitizer before the length
    limit does nothing. *)
Definition settled (y : str) : Prop :=
  forallb (kept T) y = true /\ all_ascii y = true
  /\ single_spaced y = true /\ tidy y = true
  /\ strip_chars (lit " .") y = y.

End Settled.

(** *** Listing and translation *)

(** A failure of the listing that the loop answers with a retry: an
    exception of the library other than the two definitive ones. *)
Definition retryable (e : exn) : bool :=
  match e with
  | VideoUnavailable | TranscriptsDisabled | OtherException _ => false
  | _ => true
  end.

(** What the call that ends the loop leads to. *)
Definition settle (call : outcome exn TranscriptList)
  : outcome failure TranscriptList :=
  match call with
  | Returns transcripts => Returns transcripts
  | Raises VideoUnavailable => Raises (CliError VideoUnavailableError)
  | Raises TranscriptsDisabled => Raises (CliError CaptionsDisabledError)
  | Raises err =>
      if is_api_exception err then Raises (CliError (ListFailed err))
      else Raises (Uncaught err)
  end.

Definition settle_loop (call : outcome exn TranscriptList)
  : outcome failure (option TranscriptList) :=
  match settle call with
  | Returns t => Returns (Some t)
  | Raises e => Raises e
  end.

(** The warning and the sleep of the retries that follow the failed
    attempts [first], ..., [first + count - 1] (attempts are numbered
    from zero; the delay after attempt [i] is the smaller of 5 and
    1.5 times [i + 1]). *)
Fixpoint retry_log (api : Api) (video_id : str) (first count : nat)
  : list event :=
  match count with
  | O => []
  | S count' =>
      match api video_id first with
      | Raises err =>
          [WarnListRetry (Z.of_nat first + 1) err;
           Sleep (Qmin 5 ((3 # 2) * inject_Z (Z.of_nat first + 1)))]
      | Returns _ => []
      end ++ retry_log api video_id (S first) count'
  end.

(** The specification as it is worded: whatever makes a listing
    attempt fail, other than the two definitive conditions, the
    function sleeps and tries again. *)
Definition retries_any_other_failure : Prop :=
  forall (api : Api) (video_id : str) (e : exn),
    api video_id 0%nat = Raises e ->
    e <> VideoUnavailable -> e <> TranscriptsDisabled ->
    In (Sleep (retry_delay 0))
       (fst (list_transcripts api video_id default_retries)).

(** The exception that obtaining or fetching the translation of
    [chosen] into [target] ends with, if any. *)
Definition translation_error (chosen : track) (target : str) : option exn :=
  match translate chosen target with
  | Raises err => Some err
  | Returns translated_track =>
      match fetch translated_track with
      | Raises err => Some err
      | Returns _ => None
      end
  end.

Definition fallback_warning (target : str) (err : exn) : event :=
  match err with
  | NoTranscriptFound | NotTranslatable | TranslationLanguageNotAvailable =>
      WarnTranslationUnavailable target
  | _ => WarnTranslationFailed target err
  end.

(** The specification as it is worded: the fallback happens
    whatever the exception is. *)
Definition falls_back_on_any_failure : Prop :=
  forall (api : Api) (video_id : str) (prefer_generated : bool)
    (languages : list str) (target : str) (retries : Z)
    (events : list event) (transcripts : TranscriptList)
    (chosen_kind : caption_kind) (chosen : track) (base_entries : list raw_entry)
    (err : exn),
    list_transcripts api video_id retries = (events, Returns transcripts) ->
    choose (search_order prefer_generated transcripts) (preferences_of languages)
    = Some (chosen_kind, chosen) ->
    fetch chosen = Returns base_entries ->
    truthy (strip target) = true ->
    translation_error chosen (strip target) = Some err ->
    exists log selection,
      fetch_transcript api video_id prefer_generated languages (Some target)
        retries = (log, Returns selection)
      /\ kind selection <> translated
      /\ translated_to selection = None
      /\ entries selection = normalize_entries base_entries.

(** *** Rendering *)

(** No two blank lines in a row. *)
Fixpoint separated (lines : list str) : Prop :=
  match lines with
  | a :: (b :: _) as rest => (truthy a || truthy b = true) /\ separated rest
  | _ => True
  end.

Section Added.
Variable T : Tables.
Variable include_timestamps : bool.
Variable keep_tags : bool.

(** What one entry adds to the lines: nothing, a blank line, a line
    of text, or a blank line and a line of text. *)
Definition added (lines : list str) (entry : Entry) : list str :=
  let marker := is_marker (text entry) in
  let cleaned := clean_caption_text T (text entry) keep_tags in
  let blank := if ends_with_text lines then [[]] else [] in
  if negb keep_tags && marker then blank
  else if negb (truthy cleaned) then []
  else
    (if keep_tags && marker then blank else [])
    ++ [if include_timestamps
        then format_timestamp (start entry) ++ lit " - " ++ cleaned
        else cleaned].

End Added.

(** *** Language options *)

(** A language code as [expand_language_list] gives it: not empty,
    without whitespace around it, without a comma. *)
Definition clean_code (code : str) : bool :=
  truthy code && Str.eqb (strip code) code && negb (mem 44%N code).

Definition blank_or_comma (c : char) : bool := is_space c || (c =? 44)%N.

(** ASCII other than the square brackets. *)
Definition unbracketed (c : char) : bool :=
  is_ascii c && negb (mem c (lit "[]")).

(** *** Times *)

(** The whole seconds of a time, a negative time counting as zero. *)
Definition whole_seconds (seconds : Q) : Z :=
  if is_negative seconds then 0%Z else int_of seconds.

(** The delays of the sleeps of a log, in order. *)
Definition sleeps (log : list event) : list Q :=
  flat_map (fun e => match e with Sleep delay => [delay] | _ => [] end) log.

(** *** Lines of text *)

Section Shown.
Variable T : Tables.
Variable include_timestamps : bool.
Variable keep_tags : bool.

(** Whether an entry gives a line of text, and the line it gives. *)
Definition shown (entry : Entry) : bool :=
  negb (negb keep_tags && is_marker (text entry))
  && truthy (clean_caption_text T (text entry) keep_tags).

Definition line_of (entry : Entry) : str :=
  let cleaned := clean_caption_text T (text entry) keep_tags in
  if include_timestamps
  then format_timestamp (start entry) ++ lit " - " ++ cleaned
  else cleaned.

End Shown.

(** *** File names *)

(** The printable characters of ASCII. *)
Definition printable (c : char) : bool := (32 <=? c)%N && (c <? 127)%N.

(** The arguments name no output path. *)
Definition no_out (args : Cli.Namespace) : bool :=
  match Cli.out args with
  | Some given => negb (truthy given)
  | None => true
  end.

Definition extension (args : Cli.Namespace) : str :=
  if Cli.docx args then lit ".docx" else lit ".txt".

End Terms.

(** ** Example inputs *)

Module Examples.

Import Transcript.

(** Tables that answer as Unicode does on ASCII and leave everything
    else alone, with Unidecode not installed: enough to run the script
    on ASCII input, where no table is consulted. *)
Definition plain_tables : Tables := {|
  nfc_table := fun s => s;
  category_table := fun _ => Cn;
  lower_table := fun s => s;
  unidecode_table := None;
  unquote_table := fun s => s;
  netloc_accepted := fun _ => true
|}.

(** A service for examples: the listing is blocked twice, then
    returns an English manual track and English and German generated
    tracks, none of which can be translated. *)
Definition sample_track (code : string) : track :=
  Track (lit code)
        (Returns [DictEntry (Some (Some (lit "hello"))) (Some 0%Q) (Some 1%Q)])
        (fun _ => Raises NotTranslatable).

Definition sample_list : TranscriptList := {|
  manually_created := [(lit "en", sample_track "en")];
  generated_tracks := [(lit "en", sample_track "en"); (lit "de", sample_track "de")]
|}.

Definition sample_api : Api :=
  fun _ call =>
    match call with
    | O | S O => Raises (OtherApiException (lit "RequestBlocked"))
    | _ => Returns sample_list
    end.

(** A listing that fails with an exception from outside the library
    (a connection error of the HTTP client): the exception leaves the
    function at once, without a retry. *)
Definition unreachable_api : Api :=
  fun _ _ => Raises (OtherException (lit "ConnectionError")).

(** A track whose translation fails with an exception from outside
    the library. *)
Definition offline_track : track :=
  Track (lit "en")
        (Returns [DictEntry (Some (Some (lit "hello"))) (Some 0%Q) (Some 1%Q)])
        (fun _ => Raises (OtherException (lit "ConnectionError"))).

Definition offline_api : Api :=
  fun _ _ => Returns {| manually_created := [(lit "en", offline_track)];
                        generated_tracks := [] |}.

(** The transcript of the example in the specification. *)
Definition caption (s : string) : Entry :=
  {| text := Some (lit s); start := 0%Q; duration := 1%Q |}.

Definition selection_of (entries : list Entry) : TranscriptSelection :=
  {| kind := manual; source_kind := Some manual;
     language := lit "en"; translated_to := None; entries := entries |}.

Definition music_example : TranscriptSelection :=
  selection_of [caption "[Music]"; caption "hello"; caption "[Music]";
                caption "world"].

(** A transcript that ends with a stage direction: the document ends
    with the blank separator, the text file does not. *)
Definition trailing_cue : TranscriptSelection :=
  selection_of [caption "hello"; caption "[Music]"].

(** A title of 201 characters whose 200th is a full stop: truncation
    leaves the full stop at the end, where the next pass strips it. *)
Definition long_title : str := repeat 97%N 199 ++ lit ".b".

(** An excerpt of the tables for two characters of Latin-1, both in
    normal form C: U+00BF, the inverted question mark (category [Po]),
    which Unidecode writes as a question mark, and U+00E9, the letter
    e with acute (category [Ll]), which Unidecode writes as e. *)
Definition latin1_unidecode (s : str) : str :=
  flat_map (fun c => if (c <? 128)%N then [c]
                     else if (c =? 191)%N then lit "?"
                     else if (c =? 233)%N then lit "e"
                     else []) s.

Definition latin1_tables (unidecode_installed : bool) : Tables := {|
  nfc_table := fun s => s;
  category_table :=
    fun c => if (c =? 191)%N then Po else if (c =? 233)%N then Ll else Cn;
  lower_table := fun s => s;
  unidecode_table := if unidecode_installed then Some latin1_unidecode else None;
  unquote_table := fun s => s;
  netloc_accepted := fun _ => true
|}.

(** A Spanish title: an inverted question mark, Que, and a question
    mark. *)
Definition spanish_title : str := [191; 81; 117; 101; 63]%N.

(** A machine for examples, with paths as strings: yt-dlp is on the
    search path and prints a title and a second line, nothing exists
    on disk, and every directory and file can be created. *)
Definition sample_world : Cli.World str := {|
  Cli.which := fun _ => Some (lit "/usr/bin/yt-dlp");
  Cli.Path := fun s => s;
  Cli.joinpath := fun p name => p ++ lit "/" ++ name;
  Cli.suffix := fun _ => [];
  Cli.with_suffix := fun p extension => Some (p ++ extension);
  Cli.is_file := fun _ => false;
  Cli.executable := fun _ => false;
  Cli.path_exists := fun _ => false;
  Cli.is_dir := fun _ => false;
  Cli.sep := lit "/";
  Cli.mkdir := fun _ => true;
  Cli.run := fun _ _ =>
    Cli.Completed
      (lit "  Never Gonna Give You Up " ++ [10%N] ++ lit "second line");
  Cli.store := fun _ _ => true;
  Cli.api := sample_api
|}.

(** The arguments of a run with the default options, for an input
    and with or without the title lookup. *)
Definition sample_args (input : string) (skip_title : bool)
  : Cli.Namespace := {|
  Cli.url_or_id := lit input; Cli.docx := false; Cli.out := None;
  Cli.nostamp := false; Cli.gencaps := false;
  Cli.lang := lit "en,en-US,en-GB"; Cli.translate := None;
  Cli.keep_tags := false; Cli.no_yt_dlp := skip_title; Cli.verbose := false
|}.

End Examples.

(** * Properties *)

(** ** Facts about Python strings *)

Module StrFacts.

Lemma eqb_eq (a b : str) : Str.eqb a b = true <-> a = b.
Proof.
  unfold Str.eqb. destruct (list_eq_dec N.eq_dec a b); split; congruence.
Qed.

Lemma eqb_neq (a b : str) : Str.eqb a b = false <-> a <> b.
Proof.
  unfold Str.eqb. destruct (list_eq_dec N.eq_dec a b); split; congruence.
Qed.

Lemma truthy_false (s : str) : truthy s = false <-> s = [].
Proof. destruct s; simpl; split; congruence. Qed.

Lemma truthy_app_r (a b : str) : truthy b = true -> truthy (a ++ b) = true.
Proof. destruct a; simpl; auto. Qed.

Lemma lstrip_by_none (p : char -> bool) (s : str) :
  forallb (fun c => negb (p c)) s = true -> lstrip_by p s = s.
Proof.
  destruct s as [|c r]; simpl; auto.
  intros H. apply andb_true_iff in H as [H _].
  now destruct (p c).
Qed.

Lemma rstrip_by_last (p : char -> bool) (s : str) (c : char) :
  p c = false -> rstrip_by p (s ++ [c]) = s ++ [c].
Proof.
  intros H. unfold rstrip_by. rewrite rev_app_distr. simpl.
  rewrite H. simpl. now rewrite rev_involutive.
Qed.

(** A property of code points checked on every code point below a
    bound holds below that bound. *)
Lemma below_bound (P : char -> bool) (bound : nat) :
  forallb P (map N.of_nat (seq 0 bound)) = true ->
  forall c, (c < N.of_nat bound)%N -> P c = true.
Proof.
  intros H c Hc. rewrite forallb_forall in H. apply H.
  rewrite <- (N2Nat.id c). apply in_map, in_seq. lia.
Qed.

Lemma existsb_rev (p : char -> bool) (s : str) :
  existsb p (rev s) = existsb p s.
Proof.
  induction s as [|c r IH]; [reflexivity|].
  cbn [rev existsb]. rewrite existsb_app, IH. cbn [existsb].
  now rewrite orb_false_r, orb_comm.
Qed.

Lemma mem_rev (k : char) (s : str) : mem k (rev s) = mem k s.
Proof. apply existsb_rev. Qed.

Lemma forallb_rev (p : char -> bool) (s : str) :
  forallb p (rev s) = forallb p s.
Proof.
  induction s as [|c r IH]; [reflexivity|].
  cbn [rev forallb]. rewrite forallb_app, IH. cbn [forallb].
  now rewrite andb_true_r, andb_comm.
Qed.

Lemma strip_by_none (p : char -> bool) (s : str) :
  forallb (fun c => negb (p c)) s = true -> strip_by p s = s.
Proof.
  intros H. unfold strip_by, rstrip_by.
  rewrite (lstrip_by_none p s H).
  rewrite lstrip_by_none by now rewrite forallb_rev.
  apply rev_involutive.
Qed.

End StrFacts.

(** ** Timestamps *)

Module TimestampSpec.

Import Timestamp.

Lemma fmt_02d_two_digits (n : Z) :
  (0 <= n < 100)%Z -> fmt_02d n = two_digits n.
Proof.
  intros H.
  rewrite <- (Z2Nat.id n) by lia.
  assert (Hk : (Z.to_nat n < 100)%nat) by lia.
  remember (Z.to_nat n) as k eqn:E. clear E H n.
  do 100 (destruct k as [|k]; [vm_compute; reflexivity|]).
  lia.
Qed.

Lemma clamp_negative (seconds : Q) :
  (seconds < 0)%Q -> is_negative seconds = true.
Proof.
  unfold Qlt, is_negative. simpl. intros H. apply Z.ltb_lt. lia.
Qed.

(** C9.  [format_timestamp] prints minutes and seconds as two decimal
    digits each, and puts the hours (two digits or more) in front once
    they are not zero; 0 seconds gives 00:00, 65 seconds 01:05, 3661
    seconds 01:01:01, and every negative input gives 00:00. *)
Theorem format_timestamp_layout (seconds : Q) :
  let total := if is_negative seconds then 0%Z else int_of seconds in
  let hours := (total / 3600)%Z in
  let minutes := (total mod 3600 / 60)%Z in
  let secs := (total mod 3600 mod 60)%Z in
  format_timestamp seconds =
    (if (hours =? 0)%Z then [] else fmt_02d hours ++ lit ":")
    ++ two_digits minutes ++ lit ":" ++ two_digits secs
  /\ format_timestamp 0 = lit "00:00"
  /\ format_timestamp 65 = lit "01:05"
  /\ format_timestamp 3661 = lit "01:01:01"
  /\ ((seconds < 0)%Q -> format_timestamp seconds = lit "00:00").
Proof.
  intros total hours minutes secs.
  assert (Hm : (0 <= minutes < 100)%Z).
  { subst minutes.
    pose proof (Z.mod_pos_bound total 3600 ltac:(lia)) as Hr.
    split; [apply Z.div_pos; lia|].
    apply Z.lt_trans with 60%Z; [|lia].
    apply Z.div_lt_upper_bound; lia. }
  assert (Hs : (0 <= secs < 100)%Z).
  { subst secs. pose proof (Z.mod_pos_bound (total mod 3600) 60 ltac:(lia)). lia. }
  repeat split; try reflexivity.
  - unfold format_timestamp.
    replace (int_of (if is_negative seconds then 0%Q else seconds)) with total
      by (subst total; now destruct (is_negative seconds)).
    fold hours minutes secs.
    rewrite !fmt_02d_two_digits by assumption.
    destruct (hours =? 0)%Z; [reflexivity|].
    now rewrite <- app_assoc.
  - intros Hneg. unfold format_timestamp.
    now rewrite (clamp_negative Hneg).
Qed.

End TimestampSpec.

(** ** Video reference resolver *)

Module ResolverSpec.

Import Resolver StrFacts Terms Examples.

(** Replaces every ASCII literal of the goal by its code points. *)
Ltac eval_literals :=
  repeat match goal with
  | |- context [lit ?s] =>
      let v := eval vm_compute in (lit s) in change (lit s) with v
  end.

Lemma id_char_ascii (c : char) : is_id_char c = true -> (c < 128)%N.
Proof.
  unfold is_id_char. intros H.
  repeat (apply orb_true_iff in H as [H | H]);
    try (apply andb_true_iff in H as [_ H]; apply N.leb_le in H; lia);
    apply N.eqb_eq in H; lia.
Qed.

Lemma id_char_plain (c : char) : is_id_char c = true -> is_plain c = true.
Proof.
  intros H. generalize (id_char_ascii c H). revert H.
  change (is_id_char c = true -> (c < N.of_nat 128)%N -> is_plain c = true).
  intros H Hc.
  pose proof (below_bound (fun c => implb (is_id_char c) (is_plain c)) 128
                ltac:(vm_compute; reflexivity) Hc) as Himp.
  simpl in Himp. now rewrite H in Himp.
Qed.

Lemma id_chars_plain (s : str) :
  forallb is_id_char s = true -> forallb is_plain s = true.
Proof.
  rewrite !forallb_forall. intros H c Hc. now apply id_char_plain, H.
Qed.

Lemma plain_not_mem (k : char) (s : str) :
  is_plain k = false -> forallb is_plain s = true -> mem k s = false.
Proof.
  intros Hk. induction s as [|c r IH]; simpl; [reflexivity|].
  intros H. apply andb_true_iff in H as [Hc Hr].
  rewrite (IH Hr), orb_false_r.
  destruct (N.eqb_spec k c); [congruence | reflexivity].
Qed.

Lemma plain_forallb (p : char -> bool) (s : str) :
  (forall c, is_plain c = true -> p c = true) ->
  forallb is_plain s = true -> forallb p s = true.
Proof.
  intros Hp. rewrite !forallb_forall. intros H c Hc. now apply Hp, H.
Qed.

Lemma plain_not_space (c : char) : is_plain c = true -> is_space c = false.
Proof.
  unfold is_plain. intros H.
  repeat (apply andb_true_iff in H as [H ?]).
  now apply negb_true_iff.
Qed.

Lemma plain_neq (k c : char) :
  is_plain k = false -> is_plain c = true -> (c =? k)%N = false.
Proof.
  intros Hk Hc. destruct (N.eqb_spec c k); [congruence | reflexivity].
Qed.

(** *** Splitting text that lacks the separator *)

Lemma split1_absent (sep : char) (s : str) :
  mem sep s = false -> split1 sep s = (s, None).
Proof.
  induction s as [|c r IH]; simpl; [reflexivity|].
  intros H. apply orb_false_iff in H as [Hc Hr].
  rewrite N.eqb_sym, Hc, (IH Hr). reflexivity.
Qed.

Lemma split_on_absent (sep : char) (cur s : str) :
  mem sep s = false -> split_on sep cur s = [rev cur ++ s].
Proof.
  revert cur. induction s as [|c r IH]; simpl; intros cur H.
  - now rewrite app_nil_r.
  - apply orb_false_iff in H as [Hc Hr].
    rewrite N.eqb_sym, Hc, (IH _ Hr). simpl. now rewrite <- app_assoc.
Qed.

Lemma strip_plain (s : str) : forallb is_plain s = true -> strip s = s.
Proof.
  intros H. apply strip_by_none. revert H. apply plain_forallb.
  intros c Hc. now rewrite (plain_not_space c Hc).
Qed.

(** *** Text made of visible characters *)

Lemma plain_visible (s : str) :
  forallb is_plain s = true -> forallb is_visible s = true.
Proof.
  apply plain_forallb. intros c Hc. unfold is_visible.
  rewrite (plain_not_space c Hc). unfold is_plain in Hc.
  repeat (apply andb_true_iff in Hc as [Hc ?]). now rewrite Hc.
Qed.

Lemma visible_strip (s : str) : forallb is_visible s = true -> strip s = s.
Proof.
  intros H. apply strip_by_none. rewrite forallb_forall in *.
  intros c Hc. specialize (H c Hc). unfold is_visible in H.
  now apply andb_true_iff in H as [_ H].
Qed.

Lemma visible_remove_unsafe (s : str) :
  forallb is_visible s = true -> remove_unsafe s = s.
Proof.
  intros H. unfold remove_unsafe.
  assert (Hgt : forall c, In c s -> (32 < c)%N).
  { rewrite forallb_forall in H. intros c Hc. specialize (H c Hc).
    unfold is_visible in H. apply andb_true_iff in H as [H _].
    now apply N.ltb_lt. }
  rewrite lstrip_by_none.
  - apply forallb_filter_id, forallb_forall. intros c Hc.
    specialize (Hgt c Hc).
    destruct (N.eqb_spec c 9), (N.eqb_spec c 10), (N.eqb_spec c 13);
      try reflexivity; lia.
  - apply forallb_forall. intros c Hc. specialize (Hgt c Hc).
    apply negb_true_iff, N.leb_gt. exact Hgt.
Qed.

(** [forallb p (literal ++ s)] and [mem k (literal ++ s)] for a
    literal and plain text [s]. *)
Ltac literal_then_plain H :=
  first
    [ rewrite forallb_app; apply andb_true_iff; split;
      [ vm_compute; reflexivity | auto using plain_visible ]
    | unfold mem; rewrite existsb_app; apply orb_false_iff; split;
      [ vm_compute; reflexivity
      | apply plain_not_mem; [ vm_compute; reflexivity | exact H ] ] ].

(** *** The steps of [extract_video_id] *)

Section Steps.
Variable T : Tables.

Lemma extract_located (input : str) (parsed : ParseResult) (video_id : str) :
  truthy (strip input) = true ->
  fullmatch_video_id (strip input) = false ->
  urlparse T (normalize_url (strip input)) = Returns parsed ->
  locate_video_id T parsed = Some video_id ->
  fullmatch_video_id video_id = true ->
  extract_video_id T input = Returns (video_id, canonical_url video_id).
Proof.
  intros Ht Hid Hparse Hloc Hv. unfold extract_video_id.
  rewrite Ht, Hid, Hparse, Hloc, Hv. cbn [negb].
  assert (Hne : truthy video_id = true).
  { destruct video_id; [discriminate Hv | reflexivity]. }
  now rewrite Hne.
Qed.

Lemma extract_not_located (input : str) (parsed : ParseResult) :
  truthy (strip input) = true ->
  fullmatch_video_id (strip input) = false ->
  urlparse T (normalize_url (strip input)) = Returns parsed ->
  locate_video_id T parsed = None ->
  extract_video_id T input = Raises (CliError (NoVideoId input)).
Proof.
  intros Ht Hid Hparse Hloc. unfold extract_video_id.
  now rewrite Ht, Hid, Hparse, Hloc.
Qed.

Lemma locate_without_host (parsed : ParseResult) :
  netloc parsed = [] -> locate_video_id T parsed = None.
Proof. intros H. unfold locate_video_id. now rewrite H. Qed.

(** A URL that starts with a visible character other than a slash and
    holds no colon has neither scheme nor authority. *)
Lemma urlparse_bare (c : char) (r : str) :
  forallb is_visible (c :: r) = true ->
  (c =? 47)%N = false -> mem 58%N (c :: r) = false ->
  exists parsed, urlparse T (c :: r) = Returns parsed /\ netloc parsed = [].
Proof.
  intros Hvis Hslash Hcolon. unfold urlparse.
  rewrite (visible_remove_unsafe _ Hvis).
  unfold split_scheme. rewrite (split1_absent _ _ Hcolon).
  assert (Hn : split_netloc (c :: r) = ([], c :: r)).
  { unfold split_netloc. destruct r; [reflexivity|]. now rewrite Hslash. }
  rewrite Hn. cbn [netloc_ok mem existsb xorb orb all_ascii forallb negb].
  destruct (split1 35%N (c :: r)) as [url1 fragment0].
  destruct (split1 63%N url1) as [url2 query0].
  destruct (if existsb (Str.eqb []) uses_params then split_params url2 else (url2, []))
    as [url3 params0].
  eexists. split; reflexivity.
Qed.

Lemma break_at_app (stop : char -> bool) (s : str) :
  fst (break_at stop s) ++ snd (break_at stop s) = s.
Proof.
  induction s as [|c r IH]; [reflexivity|].
  cbn [break_at]. destruct (stop c); [reflexivity|].
  destruct (break_at stop r). cbn [fst snd app] in *. now rewrite IH.
Qed.

Lemma split_params_absent (s : str) :
  mem 59%N s = false -> split_params s = (s, []).
Proof.
  intros H. unfold split_params.
  pose proof (break_at_app (fun c => (c =? 47)%N) (rev s)) as E.
  destruct (break_at (fun c => (c =? 47)%N) (rev s)) as [last_rev before_rev].
  cbn [fst snd] in E.
  assert (Hlast : mem 59%N (rev last_rev) = false).
  { rewrite mem_rev. rewrite <- mem_rev, <- E in H. unfold mem in *.
    rewrite existsb_app in H. now apply orb_false_iff in H as [H _]. }
  now rewrite (split1_absent _ _ Hlast).
Qed.

(** *** The URL shapes *)

Lemma urlparse_short (video_id : str) :
  forallb is_plain video_id = true ->
  urlparse T (lit "https://youtu.be/" ++ video_id) =
  Returns {| scheme := lit "https"; netloc := lit "youtu.be";
             path := lit "/" ++ video_id;
             params := []; query := []; fragment := [] |}.
Proof.
  intros H. unfold urlparse.
  rewrite visible_remove_unsafe by literal_then_plain H.
  replace (split_scheme (lit "https://youtu.be/" ++ video_id))
    with (lit "https", lit "//youtu.be/" ++ video_id) by reflexivity.
  replace (split_netloc (lit "//youtu.be/" ++ video_id))
    with (lit "youtu.be", lit "/" ++ video_id) by reflexivity.
  replace (netloc_ok T (lit "youtu.be")) with true by reflexivity.
  cbn [negb].
  rewrite (split1_absent 35%N) by literal_then_plain H.
  rewrite (split1_absent 63%N) by literal_then_plain H.
  replace (existsb (Str.eqb (lit "https")) uses_params) with true by reflexivity.
  rewrite split_params_absent by literal_then_plain H.
  reflexivity.
Qed.

Lemma urlparse_watch (video_id : str) :
  forallb is_plain video_id = true ->
  urlparse T (lit "https://www.youtube.com/watch?v=" ++ video_id) =
  Returns {| scheme := lit "https"; netloc := lit "www.youtube.com";
             path := lit "/watch";
             params := []; query := lit "v=" ++ video_id; fragment := [] |}.
Proof.
  intros H. unfold urlparse.
  rewrite visible_remove_unsafe by literal_then_plain H.
  replace (split_scheme (lit "https://www.youtube.com/watch?v=" ++ video_id))
    with (lit "https", lit "//www.youtube.com/watch?v=" ++ video_id)
    by reflexivity.
  replace (split_netloc (lit "//www.youtube.com/watch?v=" ++ video_id))
    with (lit "www.youtube.com", lit "/watch?v=" ++ video_id) by reflexivity.
  replace (netloc_ok T (lit "www.youtube.com")) with true by reflexivity.
  cbn [negb].
  rewrite (split1_absent 35%N) by literal_then_plain H.
  replace (split1 63%N (lit "/watch?v=" ++ video_id))
    with (lit "/watch", Some (lit "v=" ++ video_id)) by reflexivity.
  reflexivity.
Qed.

Lemma segments_of_short_path (video_id : str) :
  forallb is_plain video_id = true -> truthy video_id = true ->
  filter truthy (split 47%N (lit "/" ++ video_id)) = [video_id].
Proof.
  intros H Hne. unfold split.
  replace (split_on 47%N [] (lit "/" ++ video_id))
    with ([] :: split_on 47%N [] video_id) by reflexivity.
  rewrite split_on_absent by (apply plain_not_mem; [reflexivity | exact H]).
  cbn [rev app filter truthy]. now rewrite Hne.
Qed.

Lemma query_of_watch (video_id : str) :
  forallb is_plain video_id = true -> truthy video_id = true ->
  first_value (lit "v") (parse_qsl T (lit "v=" ++ video_id)) = Some video_id.
Proof.
  intros H Hne. unfold parse_qsl, split.
  replace (truthy (lit "v=" ++ video_id)) with true by reflexivity.
  rewrite split_on_absent by literal_then_plain H.
  cbn [rev app flat_map]. rewrite app_nil_r. unfold parse_field.
  replace (split1 61%N (lit "v=" ++ video_id))
    with (lit "v", Some video_id) by reflexivity.
  rewrite Hne.
  assert (Hplus : map (fun c => if (c =? 43)%N then 32%N else c) video_id
                  = video_id).
  { rewrite <- (map_id video_id) at 2. apply map_ext_in. intros c Hc.
    rewrite forallb_forall in H.
    now rewrite (@plain_neq 43%N c eq_refl (H c Hc)). }
  rewrite Hplus. unfold unquote.
  rewrite (@plain_not_mem 37%N video_id eq_refl H).
  reflexivity.
Qed.

Lemma fullmatch_longer (prefix video_id : str) :
  fullmatch_video_id video_id = true -> truthy prefix = true ->
  fullmatch_video_id (prefix ++ video_id) = false.
Proof.
  unfold fullmatch_video_id. intros H Hp.
  apply andb_true_iff in H as [H _]. apply Nat.eqb_eq in H.
  apply andb_false_iff. left. apply Nat.eqb_neq.
  rewrite length_app, H. destruct prefix; [discriminate | simpl; lia].
Qed.

Lemma fullmatch_plain (video_id : str) :
  fullmatch_video_id video_id = true ->
  forallb is_plain video_id = true /\ truthy video_id = true.
Proof.
  unfold fullmatch_video_id. intros H.
  apply andb_true_iff in H as [Hlen Hchars]. split.
  - now apply id_chars_plain.
  - destruct video_id; [discriminate | reflexivity].
Qed.

(** An identifier on its own parses to a URL without host. *)
Lemma id_has_no_host (video_id : str) (parsed : ParseResult) :
  fullmatch_video_id video_id = true ->
  urlparse T (normalize_url video_id) = Returns parsed ->
  netloc parsed = [].
Proof.
  intros Hid Hparse. destruct (fullmatch_plain _ Hid) as [Hplain Hne].
  destruct video_id as [|c r]; [discriminate|].
  assert (Hc : is_plain c = true).
  { cbn [forallb] in Hplain. now apply andb_true_iff in Hplain as [Hc _]. }
  assert (Hnorm : normalize_url (c :: r) = c :: r).
  { unfold normalize_url.
    enough (E : startswith (lit "www.") (c :: r) = false) by now rewrite E.
    eval_literals.
    destruct r as [|c1 [|c2 [|c3 r]]]; cbn [startswith];
      rewrite ?andb_false_r; try reflexivity.
    unfold fullmatch_video_id in Hid. apply andb_true_iff in Hid as [_ Hid].
    cbn [forallb] in Hid.
    repeat (apply andb_true_iff in Hid as [? Hid]).
    destruct (N.eqb_spec 46 c3) as [<-|]; [discriminate|].
    now rewrite ?andb_false_r. }
  rewrite Hnorm in Hparse.
  destruct (@urlparse_bare c r) as [p [Hp Hnet]].
  - now apply plain_visible.
  - now apply (@plain_neq 47%N c).
  - now apply plain_not_mem.
  - congruence.
Qed.

Lemma no_host_no_short_link (parsed : ParseResult) :
  netloc parsed = [] ->
  endswith (lit "youtu.be") (lower T (netloc parsed)) = false.
Proof. now intros ->. Qed.

Lemma extract_scheme_less (prefix video_id : str) :
  fullmatch_video_id video_id = true ->
  truthy prefix = true ->
  forallb is_visible prefix = true ->
  mem 58%N prefix = false ->
  startswith (lit "/") prefix = false ->
  startswith (lit "www.") prefix = false ->
  (length (lit "www.") <=? length prefix)%nat = true ->
  extract_video_id T (prefix ++ video_id)
  = Raises (CliError (NoVideoId (prefix ++ video_id))).
Proof.
  intros Hid Hne Hvis Hcolon Hslash Hwww Hlen.
  destruct (fullmatch_plain _ Hid) as [Hplain _].
  assert (Hall : forallb is_visible (prefix ++ video_id) = true).
  { rewrite forallb_app, Hvis. now apply plain_visible. }
  assert (Hmem : mem 58%N (prefix ++ video_id) = false).
  { unfold mem in *. rewrite existsb_app, Hcolon.
    now apply plain_not_mem. }
  assert (Hnorm : normalize_url (prefix ++ video_id) = prefix ++ video_id).
  { unfold normalize_url.
    enough (E : startswith (lit "www.") (prefix ++ video_id) = false)
      by now rewrite E.
    revert Hwww Hlen. eval_literals.
    destruct prefix as [|a [|b [|c [|d prefix]]]]; try discriminate.
    intros Hwww _. exact Hwww. }
  destruct prefix as [|c prefix]; [discriminate|].
  assert (Hc : (c =? 47)%N = false).
  { revert Hslash. eval_literals. cbn [startswith].
    rewrite andb_true_r, N.eqb_sym. auto. }
  destruct (@urlparse_bare c (prefix ++ video_id) Hall Hc Hmem)
    as [parsed [Hparse Hnet]].
  apply extract_not_located with (parsed := parsed).
  - rewrite visible_strip by exact Hall. reflexivity.
  - rewrite visible_strip by exact Hall.
    now apply (@fullmatch_longer (c :: prefix)).
  - rewrite visible_strip by exact Hall. now rewrite Hnorm.
  - now apply locate_without_host.
Qed.

Lemma extract_url (prefix video_id : str) (parsed : ParseResult) :
  forallb is_visible prefix = true ->
  truthy prefix = true ->
  fullmatch_video_id video_id = true ->
  urlparse T (normalize_url (prefix ++ video_id)) = Returns parsed ->
  locate_video_id T parsed = Some video_id ->
  extract_video_id T (prefix ++ video_id)
  = Returns (video_id, canonical_url video_id).
Proof.
  intros Hvis Hne Hid Hparse Hloc.
  destruct (fullmatch_plain _ Hid) as [Hplain _].
  assert (Hstrip : strip (prefix ++ video_id) = prefix ++ video_id).
  { apply visible_strip. rewrite forallb_app, Hvis. now apply plain_visible. }
  apply extract_located with (parsed := parsed); rewrite ?Hstrip.
  - destruct prefix; [discriminate | reflexivity].
  - now apply fullmatch_longer.
  - exact Hparse.
  - exact Hloc.
  - exact Hid.
Qed.

End Steps.

(** C3.  For every valid identifier, the bare identifier, the watch
    URL and the short URL with their scheme, and the watch URL that
    starts with www. and lacks a scheme all resolve to the same
    reference; the scheme-less forms youtu.be/ID and
    youtube.com/watch?v=ID are not upgraded to https and are
    rejected. *)
Theorem reference_forms (T : Tables) (video_id : str) :
  fullmatch_video_id video_id = true ->
  let reference := Returns (video_id, canonical_url video_id) in
  let rejected input :=
    @Raises error (str * str) (CliError (NoVideoId input)) in
  extract_video_id T video_id = reference
  /\ extract_video_id T (lit "https://www.youtube.com/watch?v=" ++ video_id)
     = reference
  /\ extract_video_id T (lit "https://youtu.be/" ++ video_id) = reference
  /\ extract_video_id T (lit "www.youtube.com/watch?v=" ++ video_id)
     = reference
  /\ extract_video_id T (lit "youtu.be/" ++ video_id)
     = rejected (lit "youtu.be/" ++ video_id)
  /\ extract_video_id T (lit "youtube.com/watch?v=" ++ video_id)
     = rejected (lit "youtube.com/watch?v=" ++ video_id).
Proof.
  intros Hid reference rejected.
  destruct (fullmatch_plain _ Hid) as [Hplain Hne].
  assert (Hwatch : locate_video_id T
            {| scheme := lit "https"; netloc := lit "www.youtube.com";
               path := lit "/watch"; params := [];
               query := lit "v=" ++ video_id; fragment := [] |}
          = Some video_id).
  { unfold locate_video_id. cbn [netloc path query].
    rewrite query_of_watch by assumption. reflexivity. }
  repeat split.
  - unfold extract_video_id.
    rewrite (strip_plain _ Hplain), Hne, Hid. reflexivity.
  - eapply extract_url; [reflexivity | reflexivity | exact Hid | | exact Hwatch].
    now apply urlparse_watch.
  - eapply extract_url; [reflexivity | reflexivity | exact Hid | | ].
    + now apply urlparse_short.
    + unfold locate_video_id. cbn [netloc path].
      rewrite segments_of_short_path by assumption. reflexivity.
  - eapply extract_url; [reflexivity | reflexivity | exact Hid | | exact Hwatch].
    change (normalize_url (lit "www.youtube.com/watch?v=" ++ video_id))
      with (lit "https://www.youtube.com/watch?v=" ++ video_id).
    now apply urlparse_watch.
  - now apply extract_scheme_less.
  - now apply extract_scheme_less.
Qed.

Lemma reference_forms_witness :
  let video_id := lit "dQw4w9WgXcQ" in
  fullmatch_video_id video_id = true
  /\ extract_video_id plain_tables (lit "youtu.be/" ++ video_id)
  = Raises (CliError (NoVideoId (lit "youtu.be/" ++ video_id)))
  /\ extract_video_id plain_tables (lit "https://youtu.be/" ++ video_id)
     = Returns (video_id, canonical_url video_id).
Proof.
  pose proof (@reference_forms plain_tables (lit "dQw4w9WgXcQ") eq_refl) as H.
  cbv zeta in H. split; [reflexivity | split; apply H].
Defined.

(** C10.  Whenever the host of the parsed input ends with youtu.be,
    whatever precedes that suffix, the first non-empty path segment is
    returned as the identifier if it matches the identifier
    pattern. *)
Theorem suffix_host_is_short_link
  (T : Tables) (input : str) (parsed : ParseResult) (first : str)
  (rest : list str) :
  urlparse T (normalize_url (strip input)) = Returns parsed ->
  endswith (lit "youtu.be") (lower T (netloc parsed)) = true ->
  filter truthy (split 47%N (path parsed)) = first :: rest ->
  fullmatch_video_id first = true ->
  extract_video_id T input = Returns (first, canonical_url first).
Proof.
  intros Hparse Hhost Hsegments Hfirst.
  apply extract_located with (parsed := parsed); auto.
  - destruct (strip input) eqn:E; [|reflexivity].
    cbv in Hparse. injection Hparse as <-.
    discriminate Hhost.
  - destruct (fullmatch_video_id (strip input)) eqn:E; [|reflexivity].
    rewrite no_host_no_short_link in Hhost
      by (eapply id_has_no_host; eassumption).
    discriminate.
  - unfold locate_video_id. now rewrite Hhost, Hsegments.
Qed.

Lemma suffix_host_is_short_link_witness :
  extract_video_id plain_tables (lit "http://notyoutu.be/dQw4w9WgXcQ")
  = Returns (lit "dQw4w9WgXcQ", canonical_url (lit "dQw4w9WgXcQ")).
Proof.
  apply (@suffix_host_is_short_link plain_tables
           (lit "http://notyoutu.be/dQw4w9WgXcQ")
           {| scheme := lit "http"; netloc := lit "notyoutu.be";
              path := lit "/dQw4w9WgXcQ"; params := [];
              query := []; fragment := [] |}
           (lit "dQw4w9WgXcQ") []); reflexivity.
Defined.

End ResolverSpec.

(** ** Transcript resolver *)

Module TranscriptSpec.

Import Transcript StrFacts Terms Examples.

(** *** The library's finders *)

Lemma find_transcript_some (tracks : list (str * track)) (codes : list str)
  (t : track) :
  find_transcript tracks codes = Some t ->
  exists before code after,
    codes = before ++ code :: after
    /\ lookup code tracks = Some t
    /\ Forall (fun c => lookup c tracks = None) before.
Proof.
  induction codes as [|c rest IH]; cbn [find_transcript]; [discriminate|].
  destruct (lookup c tracks) as [t'|] eqn:E.
  - intros [= <-]. exists [], c, rest. repeat split; auto.
  - intros H. destruct (IH H) as (before & code & after & -> & Hl & Hb).
    exists (c :: before), code, after. repeat split; auto.
Qed.

Lemma find_transcript_none (tracks : list (str * track)) (codes : list str) :
  find_transcript tracks codes = None ->
  Forall (fun c => lookup c tracks = None) codes.
Proof.
  induction codes as [|c rest IH]; cbn [find_transcript]; [constructor|].
  destruct (lookup c tracks) eqn:E; [discriminate|].
  intros H. constructor; auto.
Qed.

(** The kind a chosen track is labelled with is never [translated]. *)
Lemma choose_kind (prefer_generated : bool) (transcripts : TranscriptList)
  (preferences : list str) (k : caption_kind) (t : track) :
  choose (search_order prefer_generated transcripts) preferences = Some (k, t) ->
  k <> translated.
Proof.
  unfold search_order.
  destruct prefer_generated; cbn [negb rev app choose];
    repeat match goal with
    | |- context [match ?f preferences with _ => _ end] =>
        destruct (f preferences)
    end; intros [= <- _] || discriminate; discriminate.
Qed.

(** C7.  Once the list of tracks is there, the generated tracks are
    searched before the manual ones when generated captions are
    preferred and after them otherwise; each search returns the track
    of the first preferred language that the category has; and when
    neither search finds a track the function fails with the
    no-captions error. *)
Theorem track_selection
  (api : Api) (video_id : str) (prefer_generated : bool)
  (languages : list str) (translate_to : option str) (retries : Z)
  (events : list event) (transcripts : TranscriptList) :
  list_transcripts api video_id retries = (events, Returns transcripts) ->
  let preferences := preferences_of languages in
  let found_generated := find_generated_transcript transcripts preferences in
  let found_manual := find_manually_created_transcript transcripts preferences in
  let chosen :=
    if prefer_generated then
      match found_generated, found_manual with
      | Some t, _ => Some (generated, t)
      | None, Some t => Some (manual, t)
      | None, None => None
      end
    else
      match found_manual, found_generated with
      | Some t, _ => Some (manual, t)
      | None, Some t => Some (generated, t)
      | None, None => None
      end in
  choose (search_order prefer_generated transcripts) preferences = chosen
  /\ fetch_transcript api video_id prefer_generated languages translate_to retries
     = match chosen with
       | None => (events, Raises (CliError NoCaptions))
       | Some (chosen_kind, track) =>
           let (more, result) := fetch_chosen translate_to chosen_kind track in
           (events ++ more, result)
       end
  /\ (forall tracks t,
        find_transcript tracks preferences = Some t ->
        exists before code after,
          preferences = before ++ code :: after
          /\ lookup code tracks = Some t
          /\ Forall (fun c => lookup c tracks = None) before)
  /\ (forall tracks,
        find_transcript tracks preferences = None ->
        Forall (fun c => lookup c tracks = None) preferences).
Proof.
  intros Hlist preferences found_generated found_manual chosen.
  assert (Hchoose :
    choose (search_order prefer_generated transcripts) preferences = chosen).
  { subst chosen found_generated found_manual. unfold search_order.
    destruct prefer_generated; cbn [negb rev app choose];
      destruct (find_generated_transcript transcripts preferences),
               (find_manually_created_transcript transcripts preferences);
      reflexivity. }
  split; [exact Hchoose|]. split.
  - unfold fetch_transcript. rewrite Hlist. fold preferences.
    rewrite Hchoose. destruct chosen as [[k t]|]; reflexivity.
  - split.
    + intros tracks t. apply find_transcript_some.
    + intros tracks. apply find_transcript_none.
Qed.

Lemma track_selection_witness :
  choose (search_order false sample_list) (preferences_of [lit "de"; lit "en"])
  = Some (manual, sample_track "en")
  /\ choose (search_order true sample_list) (preferences_of [lit "de"; lit "en"])
     = Some (generated, sample_track "de").
Proof.
  split.
  - exact (proj1 (@track_selection sample_api (lit "dQw4w9WgXcQ") false
                    [lit "de"; lit "en"] None default_retries _ sample_list
                    eq_refl)).
  - exact (proj1 (@track_selection sample_api (lit "dQw4w9WgXcQ") true
                    [lit "de"; lit "en"] None default_retries _ sample_list
                    eq_refl)).
Defined.

(** *** Listing with retries *)

Section Listing.
Variable api : Api.
Variable video_id : str.
Variable retries : Z.

Lemma list_loop_run (k : nat) :
  forall first remaining,
  (Z.of_nat (first + k) <= retries)%Z ->
  (k < remaining)%nat ->
  (forall i, (first <= i < first + k)%nat ->
     exists e, api video_id i = Raises e /\ retryable e = true) ->
  (Z.of_nat (first + k) = retries
   \/ forall e, api video_id (first + k) = Raises e -> retryable e = false) ->
  list_loop api video_id retries remaining first
  = (retry_log api video_id first k, settle_loop (api video_id (first + k))).
Proof.
  induction k as [|k IH]; intros first remaining Hle Hrem Hfail Hlast.
  - rewrite Nat.add_0_r in *. destruct remaining as [|remaining]; [lia|].
    cbn [list_loop retry_log]. unfold settle_loop, settle.
    destruct (api video_id first) as [t|e] eqn:E; [reflexivity|].
    destruct e; try reflexivity;
      (destruct Hlast as [Hlast | Hlast];
       [ apply Z.eqb_eq in Hlast; cbn [is_api_exception]; now rewrite Hlast
       | specialize (Hlast _ eq_refl); discriminate ]).
  - destruct remaining as [|remaining]; [lia|].
    destruct (Hfail first ltac:(lia)) as [e [E He]].
    cbn [list_loop retry_log]. rewrite E.
    assert (Hneq : (Z.of_nat first =? retries)%Z = false)
      by (apply Z.eqb_neq; lia).
    replace (first + S k)%nat with (S first + k)%nat in * by lia.
    specialize (IH (S first) remaining Hle ltac:(lia)).
    rewrite IH.
    + unfold retry_delay.
      destruct e; try discriminate He; cbn [is_api_exception];
        rewrite Hneq; reflexivity.
    + intros i Hi. apply Hfail. lia.
    + exact Hlast.
Qed.

End Listing.

(** C6 as amended.  Attempts are numbered from zero and [retries] is
    the number of extra attempts.  If the first [k] attempts fail with
    exceptions of the library other than video-unavailable and
    captions-disabled, and attempt [k] is the last one allowed or does
    not fail that way, then the listing has logged and slept once per
    failed attempt, for the smaller of 5 and 1.5 times the attempt
    number (counted from one), and ends as attempt [k] does: with the
    list, with the video-unavailable or captions-disabled error, with
    the list-failed error when attempt [k] was the last one and raised
    an exception of the library, or with the exception itself when it
    is not one of the library. *)
Theorem list_retry_policy
  (api : Api) (video_id : str) (retries : Z) (k : nat) :
  (Z.of_nat k <= retries)%Z ->
  (forall i, (i < k)%nat ->
     exists e, api video_id i = Raises e /\ retryable e = true) ->
  (Z.of_nat k = retries
   \/ forall e, api video_id k = Raises e -> retryable e = false) ->
  list_transcripts api video_id retries
  = (retry_log api video_id 0 k, settle (api video_id k)).
Proof.
  intros Hle Hfail Hlast. unfold list_transcripts.
  rewrite (@list_loop_run api video_id retries k 0 (Z.to_nat (retries + 1)));
    try assumption; try lia.
  - cbn [Nat.add]. unfold settle_loop.
    destruct (settle (api video_id k)); reflexivity.
  - intros i Hi. apply Hfail. lia.
Qed.

Lemma list_retry_policy_witness :
  list_transcripts sample_api (lit "dQw4w9WgXcQ") default_retries
  = ([WarnListRetry 1 (OtherApiException (lit "RequestBlocked"));
      Sleep (Qmin 5 ((3 # 2) * inject_Z 1));
      WarnListRetry 2 (OtherApiException (lit "RequestBlocked"));
      Sleep (Qmin 5 ((3 # 2) * inject_Z 2))],
     Returns sample_list).
Proof.
  apply (@list_retry_policy sample_api (lit "dQw4w9WgXcQ") default_retries 2).
  - unfold default_retries. lia.
  - intros i Hi. exists (OtherApiException (lit "RequestBlocked")).
    destruct i as [|[|i]]; [split; reflexivity | split; reflexivity | lia].
  - left. reflexivity.
Defined.

Lemma connection_error_is_not_retried :
  list_transcripts unreachable_api (lit "dQw4w9WgXcQ") default_retries
  = ([], Raises (Uncaught (OtherException (lit "ConnectionError")))).
Proof. reflexivity. Qed.

Lemma not_every_failure_is_retried : ~ retries_any_other_failure.
Proof.
  intros H.
  specialize (H unreachable_api (lit "dQw4w9WgXcQ")
                (OtherException (lit "ConnectionError")) eq_refl).
  rewrite connection_error_is_not_retried in H.
  apply H; discriminate.
Qed.

(** *** Translation *)

Lemma fetch_chosen_fallback
  (target : str) (chosen_kind : caption_kind) (chosen : track)
  (base_entries : list raw_entry) (err : exn) :
  fetch chosen = Returns base_entries ->
  truthy (strip target) = true ->
  translation_error chosen (strip target) = Some err ->
  fetch_chosen (Some target) chosen_kind chosen
  = if is_api_exception err
    then ([fallback_warning (strip target) err],
          Returns {| kind := chosen_kind;
                     source_kind := Some chosen_kind;
                     language := language_code chosen;
                     translated_to := None;
                     entries := normalize_entries base_entries |})
    else ([], Raises (Uncaught err)).
Proof.
  intros Hbase Htarget Herr. unfold fetch_chosen.
  assert (Ht : truthy target = true).
  { destruct target; [discriminate Htarget | reflexivity]. }
  rewrite Ht, Hbase, Htarget. unfold translation_error in Herr.
  destruct (translate chosen (strip target)) as [translated_track|e].
  - destruct (fetch translated_track) as [|e]; [discriminate|].
    injection Herr as ->. destruct err; reflexivity.
  - injection Herr as ->. destruct err; reflexivity.
Qed.

(** C1 as amended.  When a translation is requested and obtaining or
    fetching the translated track raises an exception of the captions
    library, the function logs a warning and returns the selection of
    the original track: its kind is that of the chosen track (never
    translated), no translation target is recorded, and the entries
    are the normalized entries already fetched from the chosen
    track. *)
Theorem translation_fallback
  (api : Api) (video_id : str) (prefer_generated : bool)
  (languages : list str) (target : str) (retries : Z)
  (events : list event) (transcripts : TranscriptList)
  (chosen_kind : caption_kind) (chosen : track) (base_entries : list raw_entry)
  (err : exn) :
  list_transcripts api video_id retries = (events, Returns transcripts) ->
  choose (search_order prefer_generated transcripts) (preferences_of languages)
  = Some (chosen_kind, chosen) ->
  fetch chosen = Returns base_entries ->
  truthy (strip target) = true ->
  translation_error chosen (strip target) = Some err ->
  is_api_exception err = true ->
  fetch_transcript api video_id prefer_generated languages (Some target) retries
  = (events ++ [fallback_warning (strip target) err],
     Returns {| kind := chosen_kind;
                source_kind := Some chosen_kind;
                language := language_code chosen;
                translated_to := None;
                entries := normalize_entries base_entries |})
  /\ chosen_kind <> translated.
Proof.
  intros Hlist Hchoose Hbase Htarget Herr Hapi. split.
  - unfold fetch_transcript. rewrite Hlist, Hchoose.
    rewrite (fetch_chosen_fallback _ _ _ Hbase Htarget Herr), Hapi.
    reflexivity.
  - exact (choose_kind _ _ _ Hchoose).
Qed.

Lemma translation_fallback_witness :
  fetch_transcript sample_api (lit "dQw4w9WgXcQ") false [lit "en"]
    (Some (lit " fr ")) default_retries
  = ([WarnListRetry 1 (OtherApiException (lit "RequestBlocked"));
      Sleep (Qmin 5 ((3 # 2) * inject_Z 1));
      WarnListRetry 2 (OtherApiException (lit "RequestBlocked"));
      Sleep (Qmin 5 ((3 # 2) * inject_Z 2));
      WarnTranslationUnavailable (lit "fr")],
     Returns {| kind := manual;
                source_kind := Some manual;
                language := lit "en";
                translated_to := None;
                entries := [ {| text := Some (lit "hello");
                                start := 0; duration := 1 |} ] |}).
Proof.
  exact (proj1 (@translation_fallback sample_api (lit "dQw4w9WgXcQ") false
                  [lit "en"] (lit " fr ") default_retries _ sample_list manual
                  (sample_track "en") _ NotTranslatable
                  eq_refl eq_refl eq_refl eq_refl eq_refl eq_refl)).
Defined.

Lemma connection_error_in_translation :
  fetch_transcript offline_api (lit "dQw4w9WgXcQ") false [lit "en"]
    (Some (lit "fr")) default_retries
  = ([], Raises (Uncaught (OtherException (lit "ConnectionError")))).
Proof. reflexivity. Qed.

Lemma not_every_translation_failure_falls_back : ~ falls_back_on_any_failure.
Proof.
  intros H.
  destruct (H offline_api (lit "dQw4w9WgXcQ") false [lit "en"] (lit "fr")
              default_retries
              [] _ manual offline_track _
              (OtherException (lit "ConnectionError"))
              eq_refl eq_refl eq_refl eq_refl eq_refl)
    as (log & selection & Hrun & _).
  rewrite connection_error_in_translation in Hrun. discriminate.
Qed.

End TranscriptSpec.

(** ** Renderer *)

Module RendererSpec.

Import Timestamp Normalizer Transcript Renderer StrFacts Terms Examples.

Lemma ends_with_text_snoc (lines : list str) (x : str) :
  ends_with_text (lines ++ [x]) = truthy x.
Proof. unfold ends_with_text. now rewrite rev_app_distr. Qed.

Lemma ends_with_text_cons (a : str) (lines : list str) :
  lines <> [] -> ends_with_text (a :: lines) = ends_with_text lines.
Proof.
  intros H. unfold ends_with_text. cbn [rev].
  destruct (rev lines) as [|l r] eqn:E; [|reflexivity].
  apply (f_equal (@rev _)) in E. rewrite rev_involutive in E. contradiction.
Qed.

Lemma separated_snoc (lines : list str) (x : str) :
  separated lines ->
  truthy x = true \/ ends_with_text lines = true \/ lines = [] ->
  separated (lines ++ [x]).
Proof.
  induction lines as [|a [|b rest] IH]; intros Hsep Hx.
  - exact I.
  - cbn. split; [|exact I].
    destruct Hx as [Hx | [Hx | Hx]]; try discriminate.
    + rewrite Hx. apply orb_true_r.
    + unfold ends_with_text in Hx. cbn in Hx. now rewrite Hx.
  - destruct Hsep as [Hab Hsep]. split; [exact Hab|].
    apply IH; [exact Hsep|].
    destruct Hx as [Hx | [Hx | Hx]]; [now left | right; left | discriminate].
    now rewrite ends_with_text_cons in Hx.
Qed.

Lemma separated_after_blank (h : list str) (x : str) (r : list str) :
  separated (h ++ [] :: x :: r) -> truthy x = true.
Proof.
  induction h as [|a [|b h] IH]; cbn [app separated].
  - now intros [H _].
  - intros [_ H]. now apply (IH H).
  - intros [_ H]. now apply IH.
Qed.

Section WithTables.
Variable T : Tables.
Variable include_timestamps : bool.
Variable keep_tags : bool.

Local Abbreviation added := (Terms.added T include_timestamps keep_tags).

Lemma txt_entry_added (lines : list str) (entry : Entry) :
  txt_entry T include_timestamps keep_tags lines entry
  = lines ++ added lines entry.
Proof.
  unfold txt_entry, added.
  destruct (negb keep_tags && is_marker (text entry)).
  - destruct (ends_with_text lines); now rewrite ?app_nil_r.
  - destruct (truthy (clean_caption_text T (text entry) keep_tags));
      cbn [negb]; [|now rewrite app_nil_r].
    destruct (keep_tags && is_marker (text entry)); cbn [andb];
      destruct (ends_with_text lines), include_timestamps;
      cbn [app]; rewrite <- ?app_assoc; reflexivity.
Qed.

Lemma added_line_truthy (entry : Entry) :
  truthy (clean_caption_text T (text entry) keep_tags) = true ->
  truthy (if include_timestamps
          then format_timestamp (start entry) ++ lit " - "
               ++ clean_caption_text T (text entry) keep_tags
          else clean_caption_text T (text entry) keep_tags) = true.
Proof.
  intros H. destruct include_timestamps; [|exact H].
  apply truthy_app_r. reflexivity.
Qed.

Lemma txt_entry_separated (lines : list str) (entry : Entry) :
  separated lines ->
  separated (txt_entry T include_timestamps keep_tags lines entry).
Proof.
  intros Hsep. rewrite txt_entry_added. unfold added.
  destruct (negb keep_tags && is_marker (text entry)).
  - destruct (ends_with_text lines) eqn:E; [|now rewrite app_nil_r].
    apply separated_snoc; auto.
  - destruct (truthy (clean_caption_text T (text entry) keep_tags)) eqn:Ht;
      cbn [negb]; [|now rewrite app_nil_r].
    pose proof (added_line_truthy entry Ht) as Hline.
    destruct (keep_tags && is_marker (text entry)).
    + destruct (ends_with_text lines) eqn:E; cbn [app].
      * change (lines ++ [] :: ?l) with (lines ++ [[]] ++ l).
        rewrite app_assoc. apply separated_snoc; auto.
        apply separated_snoc; auto.
      * apply separated_snoc; auto.
    + apply separated_snoc; auto.
Qed.

Lemma fold_txt_separated (entries : list Entry) (lines : list str) :
  separated lines ->
  separated (fold_left (txt_entry T include_timestamps keep_tags) entries lines).
Proof.
  revert lines. induction entries as [|e es IH]; intros lines H; [exact H|].
  cbn [fold_left]. apply IH. now apply txt_entry_separated.
Qed.

Lemma fold_txt_appends (entries : list Entry) (lines : list str) :
  exists body,
    fold_left (txt_entry T include_timestamps keep_tags) entries lines
    = lines ++ body.
Proof.
  revert lines. induction entries as [|e es IH]; intros lines.
  - exists []. now rewrite app_nil_r.
  - cbn [fold_left]. rewrite txt_entry_added.
    destruct (IH (lines ++ added lines e)) as [body Hbody].
    exists (added lines e ++ body). now rewrite Hbody, app_assoc.
Qed.

End WithTables.

Lemma header_separated (canonical_url title : str) :
  separated (txt_header canonical_url title).
Proof.
  unfold txt_header. destruct (truthy title) eqn:E; cbn; auto.
Qed.

Lemma header_ends_blank (canonical_url title : str) :
  exists h, txt_header canonical_url title = h ++ [[]].
Proof.
  unfold txt_header. destruct (truthy title).
  - now exists [lit "Title: " ++ title; lit "Source: " ++ canonical_url].
  - now exists [lit "Source: " ++ canonical_url].
Qed.

Lemma header_ends_without_text (canonical_url title : str) :
  ends_with_text (txt_header canonical_url title) = false.
Proof.
  destruct (header_ends_blank canonical_url title) as [h ->].
  apply ends_with_text_snoc.
Qed.

Lemma join_app (sep : str) (a b : list str) :
  a <> [] -> b <> [] ->
  join sep (a ++ b) = join sep a ++ sep ++ join sep b.
Proof.
  intros Ha Hb. induction a as [|x [|y a] IH]; [contradiction| |].
  - destruct b; [contradiction | reflexivity].
  - change (join sep ((x :: y :: a) ++ b))
      with (x ++ sep ++ join sep ((y :: a) ++ b)).
    rewrite IH by discriminate.
    change (join sep (x :: y :: a)) with (x ++ sep ++ join sep (y :: a)).
    now rewrite <- !app_assoc.
Qed.

Lemma marker_is_truthy (raw : str) :
  fullmatch_stage_direction (strip raw) = true ->
  is_marker (Some raw) = true.
Proof.
  intros H. unfold is_marker. rewrite H.
  destruct raw; [discriminate H | reflexivity].
Qed.

(** C8.  With tags not kept, an entry whose trimmed raw text is
    exactly one stage-direction marker adds no line of text and at
    most one blank line, and only after a line of text (in the text
    file and in the document alike); the lines never hold two blank
    lines in a row and the body never starts with one; and the four
    entries [Music], hello, [Music], world give the lines hello,
    blank, world after the header, written to the file without a
    blank line at the end, and the same three paragraphs in the
    document. *)
Theorem stage_direction_suppression (T : Tables) (include_timestamps : bool) :
  (forall lines document previous_blank entry raw,
      text entry = Some raw ->
      fullmatch_stage_direction (strip raw) = true ->
      txt_entry T include_timestamps false lines entry
      = (if ends_with_text lines then lines ++ [[]] else lines)
      /\ docx_entry T include_timestamps false (document, previous_blank) entry
         = if previous_blank then (document, true)
           else (document ++ [Paragraph []], true))
  /\ (forall transcript canonical_url title,
        separated
          (txt_lines T transcript canonical_url title include_timestamps false)
        /\ exists body,
             txt_lines T transcript canonical_url title include_timestamps false
             = txt_header canonical_url title ++ body
             /\ hd_error body <> Some [])
  /\ (forall canonical_url title,
        txt_lines T music_example canonical_url title false false
        = txt_header canonical_url title ++ [lit "hello"; []; lit "world"]
        /\ write_txt T music_example canonical_url title false false
           = join [10%N] (txt_header canonical_url title)
             ++ [10%N] ++ lit "hello" ++ [10%N; 10%N] ++ lit "world" ++ [10%N]
        /\ write_docx T music_example canonical_url title false false
           = docx_header canonical_url title
             ++ [Paragraph [Run (lit "hello") false]; Paragraph [];
                 Paragraph [Run (lit "world") false]]).
Proof.
  split; [|split].
  - intros lines document previous_blank entry raw Hraw Hmarker.
    unfold txt_entry, docx_entry.
    rewrite Hraw, (marker_is_truthy _ Hmarker). cbn [negb andb].
    split; [reflexivity|]. now destruct previous_blank.
  - intros transcript canonical_url title.
    assert (Hsep : separated
              (txt_lines T transcript canonical_url title include_timestamps false)).
    { apply fold_txt_separated, header_separated. }
    split; [exact Hsep|].
    unfold txt_lines in *.
    destruct (fold_txt_appends T include_timestamps false (entries transcript)
                (txt_header canonical_url title)) as [body Hbody].
    exists body. split; [exact Hbody|].
    rewrite Hbody in Hsep.
    destruct (header_ends_blank canonical_url title) as [h Hh].
    rewrite Hh, <- app_assoc in Hsep.
    destruct body as [|x r]; [discriminate|].
    apply separated_after_blank in Hsep.
    cbn [hd_error]. intros [= ->]. discriminate.
  - intros canonical_url title.
    assert (Hlines :
      txt_lines T music_example canonical_url title false false
      = txt_header canonical_url title ++ [lit "hello"; []; lit "world"]).
    { assert (Hmusic : forall lines,
                txt_entry T false false lines (caption "[Music]")
                = if ends_with_text lines then lines ++ [[]] else lines)
        by reflexivity.
      assert (Hhello : forall lines,
                txt_entry T false false lines (caption "hello")
                = lines ++ [lit "hello"]) by reflexivity.
      assert (Hworld : forall lines,
                txt_entry T false false lines (caption "world")
                = lines ++ [lit "world"]) by reflexivity.
      unfold txt_lines, music_example, selection_of. cbn [entries fold_left].
      rewrite (Hmusic (txt_header canonical_url title)).
      rewrite header_ends_without_text, Hhello, Hmusic, ends_with_text_snoc.
      change (truthy (lit "hello")) with true. cbv iota.
      rewrite Hworld. now rewrite <- !app_assoc. }
    split; [exact Hlines|]. split; [|reflexivity].
    unfold write_txt. rewrite Hlines.
    rewrite join_app; [| | discriminate].
    + change (join [10%N] [lit "hello"; []; lit "world"])
        with ((lit "hello" ++ [10%N; 10%N] ++ lit "worl") ++ [100%N]).
      rewrite !app_assoc. unfold rstrip.
      rewrite rstrip_by_last by reflexivity.
      rewrite <- !app_assoc. reflexivity.
    + destruct (header_ends_blank canonical_url title) as [h ->].
      now destruct h.
Qed.

(** *** The two writers *)

Section Parity.
Variable T : Tables.
Variable include_timestamps : bool.
Variable keep_tags : bool.

(** One entry adds to the document the paragraphs whose texts are the
    lines it adds to the text file, and [previous_blank] keeps saying
    that the last line is not text. *)
Lemma docx_entry_added (lines : list str) (document : list paragraph)
  (entry : Entry) :
  exists paragraphs,
    docx_entry T include_timestamps keep_tags
      (document, negb (ends_with_text lines)) entry
    = (document ++ paragraphs,
       negb (ends_with_text (lines ++ added T include_timestamps keep_tags
                                         lines entry)))
    /\ map paragraph_text paragraphs
       = added T include_timestamps keep_tags lines entry.
Proof.
  unfold docx_entry, added. rewrite negb_involutive.
  destruct (negb keep_tags && is_marker (text entry)).
  - destruct (ends_with_text lines) eqn:E; cbn [negb].
    + exists [Paragraph []]. now rewrite ends_with_text_snoc.
    + exists []. now rewrite !app_nil_r, E.
  - destruct (truthy (clean_caption_text T (text entry) keep_tags)) eqn:Ht;
      cbn [negb].
    2:{ exists []. now rewrite !app_nil_r. }
    pose proof (added_line_truthy T include_timestamps keep_tags entry Ht)
      as Hline.
    assert (Hruns :
      paragraph_text
        (Paragraph
           ((if include_timestamps
             then [Run (format_timestamp (start entry) ++ lit " - ") true]
             else [])
            ++ [Run (clean_caption_text T (text entry) keep_tags) false]))
      = if include_timestamps
        then format_timestamp (start entry) ++ lit " - "
             ++ clean_caption_text T (text entry) keep_tags
        else clean_caption_text T (text entry) keep_tags).
    { destruct include_timestamps; cbn; rewrite app_nil_r;
        [now rewrite <- app_assoc | reflexivity]. }
    destruct (keep_tags && is_marker (text entry));
      destruct (ends_with_text lines) eqn:E; cbn [andb negb app].
    + eexists [Paragraph []; _]. split.
      * rewrite <- app_assoc. cbn [app].
        change (lines ++ [] :: ?l) with (lines ++ [[]] ++ l).
        rewrite app_assoc, ends_with_text_snoc, Hline. reflexivity.
      * cbn [map]. now rewrite Hruns.
    + eexists [_]. split.
      * rewrite ends_with_text_snoc, Hline. reflexivity.
      * cbn [map]. now rewrite Hruns.
    + eexists [_]. split.
      * rewrite ends_with_text_snoc, Hline. reflexivity.
      * cbn [map]. now rewrite Hruns.
    + eexists [_]. split.
      * rewrite ends_with_text_snoc, Hline. reflexivity.
      * cbn [map]. now rewrite Hruns.
Qed.

Lemma fold_writers (entries : list Entry) :
  forall (lines : list str) (document : list paragraph),
  exists body,
    fold_left (txt_entry T include_timestamps keep_tags) entries lines
    = lines ++ body
    /\ map paragraph_text
         (fst (fold_left (docx_entry T include_timestamps keep_tags) entries
                 (document, negb (ends_with_text lines))))
       = map paragraph_text document ++ body.
Proof.
  induction entries as [|e es IH]; intros lines document.
  - exists []. now rewrite !app_nil_r.
  - cbn [fold_left]. rewrite txt_entry_added.
    destruct (docx_entry_added lines document e) as [paragraphs [Hd Hp]].
    rewrite Hd.
    destruct (IH (lines ++ added T include_timestamps keep_tags lines e)
                (document ++ paragraphs)) as [body [Hl Hb]].
    exists (added T include_timestamps keep_tags lines e ++ body). split.
    + now rewrite Hl, app_assoc.
    + now rewrite Hb, map_app, Hp, app_assoc.
Qed.

End Parity.

(** C2 as amended.  After their headers the two writers build the
    same sequence of lines: the texts of the document's paragraphs
    that follow its three header paragraphs are exactly the lines the
    text writer appends to its header, blank separators included.
    The headers differ when the title is empty (the document always
    has a heading, the text file a title line only for a non-empty
    title), and the text file is the lines joined by newlines with
    the trailing whitespace, blank lines included, stripped before the
    final newline, which the document is not. *)
Theorem writers_share_body
  (T : Tables) (transcript : TranscriptSelection) (canonical_url title : str)
  (include_timestamps keep_tags : bool) :
  exists body,
    txt_lines T transcript canonical_url title include_timestamps keep_tags
    = (if truthy title then [lit "Title: " ++ title] else [])
      ++ [lit "Source: " ++ canonical_url; []] ++ body
    /\ map paragraph_text
         (write_docx T transcript canonical_url title include_timestamps
            keep_tags)
       = [if truthy title then title else lit "YouTube Transcript";
          lit "Source: " ++ canonical_url; []] ++ body
    /\ write_txt T transcript canonical_url title include_timestamps keep_tags
       = rstrip
           (join [10%N]
              (txt_lines T transcript canonical_url title include_timestamps
                 keep_tags))
         ++ [10%N].
Proof.
  unfold txt_lines, write_docx.
  destruct (fold_writers T include_timestamps keep_tags (entries transcript)
              (txt_header canonical_url title)
              (docx_header canonical_url title)) as [body [Hl Hd]].
  rewrite header_ends_without_text in Hd. cbn [negb] in Hd.
  exists body. split; [|split].
  - rewrite Hl. unfold txt_header. now rewrite <- app_assoc.
  - rewrite Hd. unfold docx_header.
    destruct (truthy canonical_url); cbn; now rewrite !app_nil_r.
  - reflexivity.
Qed.

Lemma writers_differ_at_the_end :
  file_structure
    (write_txt plain_tables trailing_cue
       (lit "https://www.youtube.com/watch?v=dQw4w9WgXcQ") (lit "Demo")
       true false)
  <> document_structure
       (write_docx plain_tables trailing_cue
          (lit "https://www.youtube.com/watch?v=dQw4w9WgXcQ") (lit "Demo")
          true false).
Proof. vm_compute. discriminate. Qed.

(** With an empty title the text file has one header line, the
    document two header paragraphs. *)
Lemma writers_differ_without_title :
  file_structure
    (write_txt plain_tables (selection_of [caption "hello"])
       (lit "https://www.youtube.com/watch?v=dQw4w9WgXcQ") [] true false)
  = [true; false; true]
  /\ document_structure
       (write_docx plain_tables (selection_of [caption "hello"])
          (lit "https://www.youtube.com/watch?v=dQw4w9WgXcQ") [] true false)
     = [true; true; false; true].
Proof. split; vm_compute; reflexivity. Qed.

End RendererSpec.

(** ** Filename sanitizer *)

Module SanitizerSpec.

Import Sanitizer StrFacts Terms Examples.

(** *** Stripping *)

Lemma lstrip_by_suffix (q : char -> bool) (s : str) :
  exists a, s = a ++ lstrip_by q s.
Proof.
  induction s as [|c r [a IH]]; [now exists []|].
  cbn [lstrip_by]. destruct (q c).
  - exists (c :: a). cbn [app]. now rewrite <- IH.
  - now exists [].
Qed.

Lemma rstrip_by_prefix (q : char -> bool) (s : str) :
  exists b, s = rstrip_by q s ++ b.
Proof.
  unfold rstrip_by. destruct (lstrip_by_suffix q (rev s)) as [a Ha].
  exists (rev a). rewrite <- rev_app_distr, <- Ha. now rewrite rev_involutive.
Qed.

Lemma strip_by_infix (q : char -> bool) (s : str) :
  exists a b, s = a ++ strip_by q s ++ b.
Proof.
  unfold strip_by. destruct (lstrip_by_suffix q s) as [a Ha].
  destruct (rstrip_by_prefix q (lstrip_by q s)) as [b Hb].
  exists a, b. now rewrite <- Hb.
Qed.

Lemma lstrip_by_starts_clean (q : char -> bool) (s : str) :
  starts_clean q (lstrip_by q s) = true.
Proof.
  induction s as [|c r IH]; [reflexivity|].
  cbn [lstrip_by]. destruct (q c) eqn:E; [exact IH|].
  cbn. now rewrite E.
Qed.

Lemma lstrip_by_clean (q : char -> bool) (s : str) :
  starts_clean q s = true -> lstrip_by q s = s.
Proof.
  destruct s as [|c r]; [reflexivity|]. cbn.
  now destruct (q c).
Qed.

Lemma rstrip_by_idempotent (q : char -> bool) (s : str) :
  rstrip_by q (rstrip_by q s) = rstrip_by q s.
Proof.
  unfold rstrip_by. rewrite rev_involutive.
  now rewrite (lstrip_by_clean q _ (lstrip_by_starts_clean q (rev s))).
Qed.

Lemma rstrip_by_starts_clean (q : char -> bool) (s : str) :
  starts_clean q s = true -> starts_clean q (rstrip_by q s) = true.
Proof.
  intros H. destruct (rstrip_by_prefix q s) as [b Hb].
  destruct (rstrip_by q s) as [|c r]; [reflexivity|].
  rewrite Hb in H. exact H.
Qed.

Lemma strip_by_idempotent (q : char -> bool) (s : str) :
  strip_by q (strip_by q s) = strip_by q s.
Proof.
  unfold strip_by.
  rewrite (lstrip_by_clean q (rstrip_by q (lstrip_by q s))).
  - apply rstrip_by_idempotent.
  - apply rstrip_by_starts_clean, lstrip_by_starts_clean.
Qed.

Lemma forallb_strip_by (P q : char -> bool) (s : str) :
  forallb P s = true -> forallb P (strip_by q s) = true.
Proof.
  destruct (strip_by_infix q s) as (a & b & E). intros H.
  rewrite E, !forallb_app in H.
  apply andb_true_iff in H as [_ H]. now apply andb_true_iff in H as [H _].
Qed.

Lemma length_strip_by (q : char -> bool) (s : str) :
  (length (strip_by q s) <= length s)%nat.
Proof.
  destruct (strip_by_infix q s) as (a & b & E).
  rewrite E at 2. rewrite !length_app. lia.
Qed.

(** *** Neighbouring characters *)

Section Chains.
Variable R : char -> char -> bool.

Lemma chain_app_r (a b : str) :
  chain R (a ++ b) = true -> chain R b = true.
Proof.
  induction a as [|x a IH]; [auto|].
  cbn [app chain]. intros H. apply andb_true_iff in H as [_ H]. auto.
Qed.

Lemma chain_app_l (a b : str) :
  chain R (a ++ b) = true -> chain R a = true.
Proof.
  induction a as [|x a IH]; [auto|].
  cbn [app chain]. intros H. apply andb_true_iff in H as [Hx H].
  rewrite (IH H), andb_true_r.
  destruct a as [|y a]; [reflexivity | exact Hx].
Qed.

Lemma chain_middle (a : str) (c : char) (b : str) :
  chain R (a ++ c :: b) = chain R (a ++ [c]) && chain R (c :: b).
Proof.
  induction a as [|x a IH].
  - reflexivity.
  - cbn [app chain]. rewrite IH.
    destruct a as [|y a]; cbn [app]; now rewrite andb_assoc.
Qed.

Lemma chain_infix (a s b : str) :
  chain R (a ++ s ++ b) = true -> chain R s = true.
Proof. intros H. now apply chain_app_r, chain_app_l in H. Qed.

(** [R] holds of every pair whose first character is not a space. *)
Hypothesis left_inert : forall x y, is_space x = false -> R x y = true.

Lemma chain_after_text (c : char) (s : str) :
  is_space c = false -> chain R (c :: s) = chain R s.
Proof.
  intros H. cbn [chain]. destruct s; [reflexivity|].
  now rewrite left_inert.
Qed.

End Chains.

Lemma punct_not_space (c : char) : is_punct c = true -> is_space c = false.
Proof.
  unfold is_punct, mem. intros H. apply existsb_exists in H as [k [Hk E]].
  apply N.eqb_eq in E. subst k.
  repeat (destruct Hk as [<- | Hk]; [reflexivity|]). contradiction.
Qed.

(** *** Whitespace runs *)

Lemma no_space_pair_left (x y : char) :
  is_space x = false -> no_space_pair x y = true.
Proof. unfold no_space_pair. now intros ->. Qed.

Lemma sub_spaces_fixed (s : str) :
  forall in_run,
  single_spaced s = true -> head_ok in_run s = true ->
  sub_spaces in_run s = s.
Proof.
  induction s as [|c r IH]; intros in_run Hs Hh; [reflexivity|].
  unfold single_spaced in Hs. cbn [forallb chain] in Hs.
  apply andb_true_iff in Hs as [Hall Hchain].
  apply andb_true_iff in Hall as [Hc Hall].
  apply andb_true_iff in Hchain as [Hlink Hchain].
  assert (Hr : single_spaced r = true)
    by (unfold single_spaced; now rewrite Hall, Hchain).
  cbn [sub_spaces head_ok] in *. destruct (is_space c) eqn:E.
  - rewrite andb_true_r in Hh. apply negb_true_iff in Hh. subst in_run.
    unfold plain_space in Hc. rewrite E in Hc. cbn in Hc.
    apply N.eqb_eq in Hc. subst c. f_equal. apply IH; [exact Hr|].
    destruct r as [|d r]; [reflexivity|]. cbn [head_ok andb].
    unfold no_space_pair in Hlink. now rewrite E in Hlink.
  - f_equal. apply IH; [exact Hr|]. now destruct r.
Qed.

Lemma sub_spaces_single_spaced (s : str) :
  forall in_run,
  single_spaced (sub_spaces in_run s) = true
  /\ head_ok in_run (sub_spaces in_run s) = true.
Proof.
  induction s as [|c r IH]; intros in_run; [now destruct in_run|].
  cbn [sub_spaces]. destruct (is_space c) eqn:E.
  - destruct in_run; [apply IH|].
    destruct (IH true) as [Hs Hh]. split; [|reflexivity].
    unfold single_spaced in *. cbn [forallb chain].
    apply andb_true_iff in Hs as [Hall Hchain].
    rewrite Hall, Hchain, !andb_true_r.
    destruct (sub_spaces true r) as [|d t]; [reflexivity|].
    cbn [head_ok andb] in Hh. unfold no_space_pair.
    apply negb_true_iff in Hh. now rewrite Hh, andb_false_r.
  - destruct (IH false) as [Hs _]. split.
    + unfold single_spaced in *. cbn [forallb].
      apply andb_true_iff in Hs as [Hall Hchain].
      rewrite (chain_after_text _ no_space_pair_left _ _ E), Hall, Hchain.
      unfold plain_space. now rewrite E.
    + cbn [head_ok]. now rewrite E, andb_false_r.
Qed.

Lemma forallb_sub_spaces (P : char -> bool) (s : str) :
  P 32%N = true ->
  forall in_run, forallb P s = true -> forallb P (sub_spaces in_run s) = true.
Proof.
  intros H32. induction s as [|c r IH]; intros in_run H; [reflexivity|].
  cbn [forallb] in H. apply andb_true_iff in H as [Hc Hr].
  cbn [sub_spaces]. destruct (is_space c), in_run; cbn [forallb];
    rewrite ?Hc, ?H32; cbn [andb]; apply IH; exact Hr.
Qed.

Lemma length_sub_spaces (s : str) :
  forall in_run, (length (sub_spaces in_run s) <= length s)%nat.
Proof.
  induction s as [|c r IH]; intros in_run; [reflexivity|].
  cbn [sub_spaces]. destruct (is_space c), in_run; cbn [length];
    try apply le_n_S; try apply le_S; apply IH.
Qed.

(** *** Whitespace before punctuation *)

Lemma no_space_punct_left (x y : char) :
  is_space x = false -> no_space_punct x y = true.
Proof. unfold no_space_punct. now intros ->. Qed.

Lemma chain_without_punct (s : str) :
  forallb (fun c => negb (is_punct c)) s = true -> tidy s = true.
Proof.
  unfold tidy. induction s as [|a [|b r] IH]; [reflexivity | reflexivity |].
  intros H. cbn [forallb] in H.
  apply andb_true_iff in H as [_ H].
  change (chain no_space_punct (a :: b :: r))
    with (no_space_punct a b && chain no_space_punct (b :: r)).
  rewrite (IH H), andb_true_r. cbn [forallb] in H.
  apply andb_true_iff in H as [Hb _]. apply negb_true_iff in Hb.
  unfold no_space_punct. now rewrite Hb, andb_false_r.
Qed.

Lemma spaces_without_punct (p : str) :
  forallb is_space p = true ->
  forallb (fun c => negb (is_punct c)) p = true.
Proof.
  rewrite !forallb_forall. intros H c Hc. specialize (H c Hc).
  destruct (is_punct c) eqn:E; [|reflexivity].
  now rewrite (punct_not_space c E) in H.
Qed.

Section Punctuation.
Variable R : char -> char -> bool.
Hypothesis left_inert : forall x y, is_space x = false -> R x y = true.

Lemma sub_space_punct_chain (s : str) :
  forall pending,
  chain R (pending ++ s) = true ->
  chain R (sub_space_punct pending s) = true.
Proof.
  induction s as [|c r IH]; intros pending H.
  - now rewrite app_nil_r in H.
  - cbn [sub_space_punct]. destruct (is_space c) eqn:Es.
    + apply IH. now rewrite <- app_assoc.
    + assert (Hr : chain R r = true).
      { apply chain_app_r in H. now rewrite (chain_after_text _ left_inert _ _ Es) in H. }
      destruct (is_punct c).
      * rewrite (chain_after_text _ left_inert _ _ Es). now apply (IH []).
      * rewrite chain_middle in *. apply andb_true_iff in H as [H _].
        rewrite H, (chain_after_text _ left_inert _ _ Es). now apply (IH []).
Qed.

End Punctuation.

Lemma forallb_sub_space_punct (P : char -> bool) (s : str) :
  forall pending,
  forallb P pending = true -> forallb P s = true ->
  forallb P (sub_space_punct pending s) = true.
Proof.
  induction s as [|c r IH]; intros pending Hp H; [exact Hp|].
  cbn [forallb] in H. apply andb_true_iff in H as [Hc Hr].
  cbn [sub_space_punct]. destruct (is_space c).
  - apply IH; [|exact Hr]. rewrite forallb_app, Hp. cbn. now rewrite Hc.
  - destruct (is_punct c).
    + cbn [forallb]. rewrite Hc. now apply IH.
    + rewrite forallb_app, Hp. cbn [forallb]. rewrite Hc. now apply IH.
Qed.

Lemma length_sub_space_punct (s : str) :
  forall pending,
  (length (sub_space_punct pending s) <= length pending + length s)%nat.
Proof.
  induction s as [|c r IH]; intros pending; [cbn; lia|].
  cbn [sub_space_punct length]. destruct (is_space c).
  - specialize (IH (pending ++ [c])). rewrite length_app in IH. cbn in IH. lia.
  - destruct (is_punct c).
    + cbn [length]. specialize (IH []). cbn in IH. lia.
    + rewrite length_app. cbn [length]. specialize (IH []). cbn in IH. lia.
Qed.

Lemma sub_space_punct_tidy (s : str) :
  forall pending,
  forallb is_space pending = true ->
  tidy (sub_space_punct pending s) = true.
Proof.
  unfold tidy. induction s as [|c r IH]; intros pending Hp.
  - now apply chain_without_punct, spaces_without_punct.
  - cbn [sub_space_punct]. destruct (is_space c) eqn:Es.
    + apply IH. rewrite forallb_app, Hp. cbn. now rewrite Es.
    + destruct (is_punct c) eqn:Ep.
      * rewrite (chain_after_text _ no_space_punct_left _ _ Es). now apply IH.
      * rewrite chain_middle, (chain_after_text _ no_space_punct_left _ _ Es).
        rewrite (IH [] eq_refl), andb_true_r.
        apply chain_without_punct. rewrite forallb_app.
        rewrite (spaces_without_punct _ Hp). cbn [forallb andb].
        now rewrite Ep.
Qed.

Lemma space_then_punct (pending : str) (c : char) (r : str) :
  pending <> [] -> forallb is_space pending = true -> is_punct c = true ->
  tidy (pending ++ c :: r) = false.
Proof.
  intros Hne Hp Hc. unfold tidy. rewrite chain_middle.
  apply andb_false_iff. left.
  induction pending as [|a [|b p] IH]; [contradiction | |].
  - cbn. cbn in Hp. rewrite andb_true_r in Hp.
    unfold no_space_punct. now rewrite Hp, Hc.
  - change (chain no_space_punct ((a :: b :: p) ++ [c]))
      with (no_space_punct a b && chain no_space_punct ((b :: p) ++ [c])).
    rewrite IH; [apply andb_false_r | discriminate |].
    cbn [forallb] in Hp. now apply andb_true_iff in Hp as [_ Hp].
Qed.

Lemma sub_space_punct_fixed (s : str) :
  forall pending,
  forallb is_space pending = true ->
  tidy (pending ++ s) = true ->
  sub_space_punct pending s = pending ++ s.
Proof.
  induction s as [|c r IH]; intros pending Hp H.
  - now rewrite app_nil_r.
  - cbn [sub_space_punct]. destruct (is_space c) eqn:Es.
    + rewrite IH.
      * now rewrite <- app_assoc.
      * rewrite forallb_app, Hp. cbn. now rewrite Es.
      * now rewrite <- app_assoc.
    + assert (Hr : tidy r = true).
      { unfold tidy in *. apply chain_app_r in H.
        now rewrite (chain_after_text _ no_space_punct_left _ _ Es) in H. }
      destruct (is_punct c) eqn:Ep.
      * destruct pending as [|a p].
        -- cbn [app]. f_equal. now apply (IH []).
        -- rewrite space_then_punct in H; [discriminate | discriminate | exact Hp | exact Ep].
      * f_equal. f_equal. now apply (IH []).
Qed.

(** *** Text without whitespace *)

Lemma chain_without_space (R : char -> char -> bool) (s : str) :
  (forall x y, is_space x = false -> R x y = true) ->
  forallb (fun c => negb (is_space c)) s = true -> chain R s = true.
Proof.
  intros HR. induction s as [|c r IH]; [reflexivity|].
  intros H. cbn [forallb] in H. apply andb_true_iff in H as [Hc Hr].
  apply negb_true_iff in Hc.
  rewrite (chain_after_text _ HR _ _ Hc). now apply IH.
Qed.

Lemma single_spaced_without_space (s : str) :
  forallb (fun c => negb (is_space c)) s = true -> single_spaced s = true.
Proof.
  intros H. unfold single_spaced.
  rewrite (chain_without_space _ _ no_space_pair_left H), andb_true_r.
  rewrite forallb_forall in *. intros c Hc. unfold plain_space.
  now rewrite (H c Hc).
Qed.

(** *** Reserved device names *)

Lemma wordish_ascii (c : char) : wordish c = true -> (c < N.of_nat 128)%N.
Proof.
  unfold wordish, is_word. intros H.
  repeat (apply orb_true_iff in H as [H | H]);
    try (apply andb_true_iff in H as [_ H]; apply N.leb_le in H; lia);
    apply N.eqb_eq in H; lia.
Qed.

Lemma upper_word (c : char) : is_word (ascii_upper c) = true -> is_word c = true.
Proof.
  unfold ascii_upper. destruct ((97 <=? c) && (c <=? 122))%N eqn:E; [|auto].
  intros _. unfold is_word. now rewrite E, orb_true_r.
Qed.

Lemma reserved_words :
  forallb (fun w => forallb is_word w && (length w <=? 4)%nat
                    && negb (existsb (Str.eqb (w ++ lit "_")) windows_reserved))
    windows_reserved = true.
Proof. vm_compute. reflexivity. Qed.

Lemma upper_underscore (x : str) : upper (x ++ lit "_") = upper x ++ lit "_".
Proof. unfold upper. now rewrite map_app. Qed.

Lemma reserved_name (x : str) :
  is_reserved x = true ->
  forallb is_word x = true /\ (length x <= 4)%nat
  /\ is_reserved (x ++ lit "_") = false.
Proof.
  unfold is_reserved. intros H.
  apply existsb_exists in H as [w [Hw E]]. apply eqb_eq in E.
  pose proof reserved_words as Hall. rewrite forallb_forall in Hall.
  specialize (Hall w Hw).
  apply andb_true_iff in Hall as [Hall Hnot].
  apply andb_true_iff in Hall as [Hword Hlen].
  rewrite <- E in Hword, Hlen, Hnot. repeat split.
  - unfold upper in Hword. rewrite forallb_forall in *. intros c Hc.
    apply upper_word, Hword, in_map, Hc.
  - unfold upper in Hlen. rewrite length_map in Hlen. now apply Nat.leb_le.
  - rewrite upper_underscore. now apply negb_true_iff.
Qed.

Lemma suffix_not_reserved (x : str) :
  is_reserved (if is_reserved x then x ++ lit "_" else x) = false.
Proof.
  destruct (is_reserved x) eqn:E; [|exact E].
  now apply reserved_name.
Qed.

(** *** What every step keeps *)

Section WithTables.
Variable T : Tables.

Local Abbreviation settled := (Terms.settled T).

Lemma kept_ascii (c : char) :
  is_ascii c = true -> kept T c = kept plain_tables c.
Proof. intros H. unfold kept, category_of. now rewrite H. Qed.

Lemma cleaned_properties (base : str) :
  forallb (kept T) (cleaned T base) = true
  /\ single_spaced (cleaned T base) = true
  /\ tidy (cleaned T base) = true
  /\ strip_chars (lit " .") (cleaned T base) = cleaned T base.
Proof.
  unfold cleaned, strip_chars, unspace_punctuation, collapse_whitespace.
  set (filtered := filter (kept T) (nfc T base)).
  destruct (sub_spaces_single_spaced filtered false) as [Hss _].
  unfold single_spaced in Hss. apply andb_true_iff in Hss as [Hplain Hpair].
  set (q := fun c => mem c (lit " .")).
  destruct (strip_by_infix q (sub_space_punct [] (sub_spaces false filtered)))
    as (a & b & E).
  repeat split.
  - apply forallb_strip_by, forallb_sub_space_punct; [reflexivity|].
    apply forallb_sub_spaces; [reflexivity|]. apply forallb_filter.
  - unfold single_spaced. apply andb_true_iff. split.
    + apply forallb_strip_by, forallb_sub_space_punct; [reflexivity|exact Hplain].
    + apply (chain_infix no_space_pair a _ b). rewrite <- E.
      now apply (sub_space_punct_chain _ no_space_pair_left).
  - unfold tidy. apply (chain_infix no_space_punct a _ b). rewrite <- E.
    now apply sub_space_punct_tidy.
  - apply strip_by_idempotent.
Qed.

(** Transliteration and the ASCII filter on text that is ASCII. *)
Lemma transliterate_ascii (y : str) :
  all_ascii y = true ->
  ascii_ignore
    (match unidecode T with
     | None => ascii_ignore y
     | Some unidecode => unidecode y
     end) = y.
Proof.
  intros H. unfold unidecode.
  assert (Hy : ascii_ignore y = y) by now apply forallb_filter_id.
  destruct (unidecode_table T); rewrite ?H, !Hy; reflexivity.
Qed.

Lemma single_spaced_collapse (y : str) :
  single_spaced y = true -> collapse_whitespace y = y.
Proof.
  intros H. apply sub_spaces_fixed; [exact H|]. now destruct y.
Qed.

Lemma settled_cleaned (y : str) : settled y -> cleaned T y = y.
Proof.
  intros (Hkept & Hascii & Hss & Htidy & Hstrip). unfold cleaned, nfc.
  rewrite Hascii, (forallb_filter_id _ _ Hkept).
  rewrite (single_spaced_collapse _ Hss). unfold unspace_punctuation.
  now rewrite (sub_space_punct_fixed y [] eq_refl Htidy).
Qed.

Lemma untruncated_of_cleaned (base : str) :
  all_ascii (cleaned T base) = true ->
  untruncated T base = cleaned T base.
Proof.
  intros H. unfold untruncated. cbv zeta.
  rewrite (transliterate_ascii _ H).
  destruct (cleaned_properties base) as (_ & Hss & _ & Hstrip).
  now rewrite (single_spaced_collapse _ Hss).
Qed.

Lemma sanitize_settled (y : str) :
  settled y -> (length y <= 200)%nat -> is_reserved y = false ->
  sanitize_filename T y = y.
Proof.
  intros Hy Hlen Hres. unfold sanitize_filename.
  destruct y as [|c y]; [reflexivity|]. cbn [truthy negb].
  assert (Hu : untruncated T (c :: y) = c :: y).
  { rewrite untruncated_of_cleaned; rewrite (settled_cleaned Hy); auto.
    apply Hy. }
  rewrite Hu.
  replace (200 <? length (c :: y))%nat with false
    by (symmetry; apply Nat.ltb_ge; exact Hlen).
  now rewrite Hres.
Qed.

Lemma word_settled (y : str) : forallb wordish y = true -> settled y.
Proof.
  intros H.
  assert (Hall : forall c, In c y ->
            is_ascii c = true /\ kept T c = true /\ is_space c = false
            /\ trimmed c = false).
  { rewrite forallb_forall in H. intros c Hc. specialize (H c Hc).
    pose proof (below_bound
      (fun c => implb (wordish c)
                  (is_ascii c && kept plain_tables c
                   && negb (is_space c) && negb (trimmed c)))
      128 ltac:(vm_compute; reflexivity) (wordish_ascii c H)) as Hc'.
    cbv beta in Hc'. rewrite H in Hc'. cbn [implb] in Hc'.
    repeat (apply andb_true_iff in Hc' as [Hc' ?]).
    rewrite (kept_ascii _ Hc').
    repeat split; auto; now apply negb_true_iff. }
  assert (Hspace : forallb (fun c => negb (is_space c)) y = true).
  { apply forallb_forall. intros c Hc.
    destruct (Hall c Hc) as (_ & _ & Hs & _). now rewrite Hs. }
  repeat split.
  - apply forallb_forall. intros c Hc. apply (Hall c Hc).
  - apply forallb_forall. intros c Hc. apply (Hall c Hc).
  - now apply single_spaced_without_space.
  - now apply (chain_without_space _ _ no_space_punct_left).
  - apply strip_by_none, forallb_forall. intros c Hc.
    destruct (Hall c Hc) as (_ & _ & _ & Ht). unfold trimmed in Ht.
    now rewrite Ht.
Qed.

Lemma sanitize_of_cleaned (base : str) :
  truthy base = true ->
  all_ascii (cleaned T base) = true ->
  (length (untruncated T base) <= 200)%nat ->
  sanitize_filename T base
  = if is_reserved (cleaned T base)
    then cleaned T base ++ lit "_" else cleaned T base.
Proof.
  intros Hne Hascii Hlen. unfold sanitize_filename. rewrite Hne. cbn [negb].
  replace (200 <? length (untruncated T base))%nat with false
    by (symmetry; apply Nat.ltb_ge; exact Hlen).
  now rewrite (untruncated_of_cleaned _ Hascii).
Qed.

(** The cleaned text, with the suffix of a reserved name if it needs
    one, is returned as it is by a further pass. *)
Lemma resanitize_cleaned (base : str) :
  all_ascii (cleaned T base) = true ->
  (length (cleaned T base) <= 200)%nat ->
  let result := if is_reserved (cleaned T base)
                then cleaned T base ++ lit "_" else cleaned T base in
  sanitize_filename T result = result.
Proof.
  intros Hascii Hlen result.
  destruct (cleaned_properties base) as (Hkept & Hss & Htidy & Hstrip).
  pose proof (suffix_not_reserved (cleaned T base)) as Hnot.
  fold result in Hnot. subst result.
  destruct (is_reserved (cleaned T base)) eqn:Hres.
  - destruct (reserved_name _ Hres) as (Hword & Hlen4 & _).
    apply sanitize_settled; [| |exact Hnot].
    + apply word_settled. rewrite forallb_app. apply andb_true_iff. split.
      * rewrite forallb_forall in *. intros c Hc. unfold wordish.
        now rewrite (Hword c Hc).
      * reflexivity.
    + rewrite length_app. cbn. lia.
  - apply sanitize_settled; [|exact Hlen|exact Hnot].
    repeat split; assumption.
Qed.

End WithTables.

(** C4 as amended.  When what is left of the input after filtering and
    tidying is pure ASCII (so that transliteration and the removal of
    non-ASCII characters change nothing) and the text needs no
    truncation (it has at most 200 characters before the limit is
    applied), sanitizing the result again returns it unchanged. *)
Theorem sanitize_idempotent_untruncated (T : Tables) (base : str) :
  all_ascii (cleaned T base) = true ->
  (length (untruncated T base) <= 200)%nat ->
  sanitize_filename T (sanitize_filename T base) = sanitize_filename T base.
Proof.
  intros Hascii Hlen.
  destruct (truthy base) eqn:Hne.
  - rewrite (sanitize_of_cleaned _ _ Hne Hascii Hlen).
    apply resanitize_cleaned; [exact Hascii|].
    now rewrite <- (untruncated_of_cleaned _ _ Hascii).
  - apply truthy_false in Hne. subst base. reflexivity.
Qed.

Lemma sanitize_idempotent_untruncated_witness :
  let title := lit " Hello  ,  world: a/b? . " in
  sanitize_filename plain_tables title = lit "Hello, world ab"
  /\ sanitize_filename plain_tables
       (sanitize_filename plain_tables title)
     = sanitize_filename plain_tables title.
Proof.
  split; [vm_compute; reflexivity|].
  apply (@sanitize_idempotent_untruncated plain_tables
           (lit " Hello  ,  world: a/b? . ")).
  - vm_compute. reflexivity.
  - vm_compute. repeat constructor.
Defined.

Lemma truncation_leaves_a_full_stop :
  sanitize_filename plain_tables long_title
  = repeat 97%N 199 ++ lit "."
  /\ sanitize_filename plain_tables
       (sanitize_filename plain_tables long_title)
     = repeat 97%N 199.
Proof. split; vm_compute; reflexivity. Qed.

Lemma sanitize_not_idempotent :
  sanitize_filename plain_tables
    (sanitize_filename plain_tables long_title)
  <> sanitize_filename plain_tables long_title.
Proof.
  destruct truncation_leaves_a_full_stop as [-> ->].
  intros H. apply (f_equal (@length _)) in H.
  vm_compute in H. discriminate.
Qed.

(** *** ASCII input does not consult the tables *)

Lemma forallb_filter_sub (P q : char -> bool) (s : str) :
  forallb P s = true -> forallb P (filter q s) = true.
Proof.
  rewrite !forallb_forall. intros H c Hc. apply filter_In in Hc as [Hc _]. auto.
Qed.

Lemma cleaned_ascii_input (T : Tables) (base : str) :
  all_ascii base = true ->
  cleaned T base = cleaned plain_tables base
  /\ all_ascii (cleaned T base) = true.
Proof.
  intros H. unfold cleaned, nfc. rewrite H.
  assert (E : filter (kept T) base = filter (kept plain_tables) base).
  { apply filter_ext_in. intros c Hc. apply kept_ascii.
    unfold all_ascii in H. rewrite forallb_forall in H. now apply H. }
  rewrite E. split; [reflexivity|].
  unfold all_ascii, strip_chars, unspace_punctuation, collapse_whitespace.
  apply forallb_strip_by, forallb_sub_space_punct; [reflexivity|].
  apply forallb_sub_spaces; [reflexivity|]. now apply forallb_filter_sub.
Qed.

Lemma sanitize_ascii_input (T : Tables) (base : str) :
  all_ascii base = true ->
  sanitize_filename T base = sanitize_filename plain_tables base.
Proof.
  intros H. unfold sanitize_filename.
  destruct (cleaned_ascii_input T base H) as [E Hascii].
  destruct (cleaned_ascii_input plain_tables base H) as [_ Hascii'].
  rewrite (untruncated_of_cleaned _ _ Hascii).
  rewrite (untruncated_of_cleaned _ _ Hascii'). now rewrite E.
Qed.

(** ASCII titles of at most 200 characters are sanitized once and for
    all: no step lengthens ASCII text, so nothing is truncated. *)
Lemma cleaned_length (T : Tables) (base : str) :
  all_ascii base = true -> (length (cleaned T base) <= length base)%nat.
Proof.
  intros H. unfold cleaned, nfc. rewrite H.
  unfold strip_chars, unspace_punctuation, collapse_whitespace.
  pose proof (length_strip_by (fun c => mem c (lit " ."))
                (sub_space_punct [] (sub_spaces false (filter (kept T) base)))).
  pose proof (length_sub_space_punct
                (sub_spaces false (filter (kept T) base)) []).
  pose proof (length_sub_spaces (filter (kept T) base) false).
  pose proof (filter_length_le (kept T) base).
  cbn [length] in *. lia.
Qed.

Lemma sanitize_idempotent_ascii (T : Tables) (base : str) :
  all_ascii base = true -> (length base <= 200)%nat ->
  sanitize_filename T (sanitize_filename T base) = sanitize_filename T base.
Proof.
  intros Hascii Hlen.
  destruct (cleaned_ascii_input T base Hascii) as [_ Hclean].
  pose proof (cleaned_length T base Hascii) as Hshort.
  assert (Hfits : (length (untruncated T base) <= 200)%nat)
    by (rewrite (untruncated_of_cleaned _ _ Hclean); lia).
  destruct (truthy base) eqn:Hne.
  - rewrite (sanitize_of_cleaned _ _ Hne Hclean Hfits).
    apply resanitize_cleaned; [exact Hclean | lia].
  - apply truthy_false in Hne. subst base. reflexivity.
Qed.

(** The long title loses its full stop in the second pass whatever
    the tables are. *)
Lemma truncation_breaks_idempotence (T : Tables) :
  sanitize_filename T (sanitize_filename T long_title)
  <> sanitize_filename T long_title.
Proof.
  rewrite (sanitize_ascii_input T long_title) by (vm_compute; reflexivity).
  destruct truncation_leaves_a_full_stop as [E1 E2].
  rewrite E1. rewrite sanitize_ascii_input by (vm_compute; reflexivity).
  rewrite <- E1 at 1. rewrite E2.
  intros H. apply (f_equal (@length _)) in H.
  vm_compute in H. discriminate.
Qed.

(** *** Bounds on the result *)

Lemma kept_legal (T : Tables) (c : char) : kept T c = true -> legal c = true.
Proof. unfold kept, legal. destruct (category_of T c); auto; discriminate. Qed.

Lemma forallb_firstn (P : char -> bool) (n : nat) (s : str) :
  forallb P s = true -> forallb P (firstn n s) = true.
Proof.
  intros H. rewrite <- (firstn_skipn n s), forallb_app in H.
  now apply andb_true_iff in H as [H _].
Qed.

Lemma forallb_rstrip_by (P q : char -> bool) (s : str) :
  forallb P s = true -> forallb P (rstrip_by q s) = true.
Proof.
  destruct (rstrip_by_prefix q s) as [b E]. intros H.
  rewrite E, forallb_app in H. now apply andb_true_iff in H as [H _].
Qed.

Lemma length_rstrip_by (q : char -> bool) (s : str) :
  (length (rstrip_by q s) <= length s)%nat.
Proof.
  destruct (rstrip_by_prefix q s) as [b E]. rewrite E at 2.
  rewrite length_app. lia.
Qed.

(** Whatever the tables, the result has at most 200 characters and is
    not a reserved device name; and when Unidecode is not installed it
    holds none of the illegal characters. *)
Lemma sanitize_filename_bounds (T : Tables) (base : str) :
  (length (sanitize_filename T base) <= 200)%nat
  /\ is_reserved (sanitize_filename T base) = false
  /\ (unidecode_table T = None ->
      forallb legal (sanitize_filename T base) = true).
Proof.
  unfold sanitize_filename. destruct (truthy base); cbn [negb].
  2:{ repeat split; auto. cbn. lia. }
  set (text := untruncated T base).
  set (limited := if (200 <? length text)%nat
                  then rstrip (firstn 200 text) else text).
  assert (Hlen : (length limited <= 200)%nat).
  { subst limited. destruct (200 <? length text)%nat eqn:E.
    - unfold rstrip.
      pose proof (length_rstrip_by is_space (firstn 200 text)).
      pose proof (firstn_le_length 200 text).
      rewrite length_firstn in *. lia.
    - now apply Nat.ltb_ge. }
  split; [|split].
  - destruct (is_reserved limited) eqn:E; [|exact Hlen].
    destruct (reserved_name _ E) as (_ & H4 & _).
    rewrite length_app. cbn. lia.
  - apply suffix_not_reserved.
  - intros Hnone.
    assert (Htext : forallb legal text = true).
    { subst text. unfold untruncated, unidecode. rewrite Hnone.
      unfold strip_chars, collapse_whitespace, ascii_ignore.
      apply forallb_strip_by, forallb_sub_spaces; [reflexivity|].
      do 2 apply forallb_filter_sub.
      destruct (cleaned_properties T base) as (Hkept & _).
      rewrite forallb_forall in *. intros c Hc.
      apply (kept_legal T), Hkept, Hc. }
    assert (Hlim : forallb legal limited = true).
    { subst limited. destruct (200 <? length text)%nat; [|exact Htext].
      now apply forallb_rstrip_by, forallb_firstn. }
    destruct (is_reserved limited); [|exact Hlim].
    rewrite forallb_app, Hlim. reflexivity.
Qed.

(** *** Transliteration after filtering *)

(** C5, at the input where the code fails it.  With Unidecode
    installed, the question mark at the end of the title is dropped by
    the filter, but the inverted question mark passes the filter and
    is transliterated afterwards to a question mark, which stays in
    the result. *)
Theorem transliteration_restores_illegal
  (T : Tables) (unidecode : str -> str) :
  nfc_table T spanish_title = spanish_title ->
  category_table T 191%N = Po ->
  unidecode_table T = Some unidecode ->
  unidecode [191; 81; 117; 101]%N = lit "?Que" ->
  sanitize_filename T spanish_title = lit "?Que"
  /\ forallb legal (sanitize_filename T spanish_title) = false.
Proof.
  intros Hnfc Hcat Hinstalled Htable.
  assert (Hfilter : filter (kept T) spanish_title = [191; 81; 117; 101]%N).
  { unfold spanish_title. cbn [filter].
    assert (H191 : kept T 191%N = true).
    { unfold kept, category_of.
      change (is_ascii 191%N) with false. cbv iota. now rewrite Hcat. }
    rewrite H191, !(kept_ascii T) by reflexivity. reflexivity. }
  assert (Hclean : cleaned T spanish_title = [191; 81; 117; 101]%N).
  { unfold cleaned, nfc. change (all_ascii spanish_title) with false.
    cbv iota zeta. rewrite Hnfc, Hfilter. reflexivity. }
  assert (Hresult : sanitize_filename T spanish_title = lit "?Que").
  { unfold sanitize_filename, untruncated. cbv zeta.
    change (truthy spanish_title) with true. cbn [negb].
    rewrite Hclean. unfold Unicode.unidecode. rewrite Hinstalled.
    change (all_ascii [191; 81; 117; 101]%N) with false. cbv iota.
    rewrite Htable. reflexivity. }
  split; [exact Hresult|]. now rewrite Hresult.
Qed.

Lemma transliteration_restores_illegal_witness :
  sanitize_filename (latin1_tables true) spanish_title = lit "?Que"
  /\ forallb legal (sanitize_filename (latin1_tables true) spanish_title)
     = false.
Proof.
  apply (@transliteration_restores_illegal (latin1_tables true)
           latin1_unidecode);
    reflexivity.
Defined.

(** Without Unidecode a letter outside ASCII is dropped after the
    whitespace before punctuation has been removed, so the space that
    preceded it can end up before a comma, to be removed by the next
    pass: a, space, e with acute, comma, b. *)
Lemma dropped_letter_leaves_a_space :
  let title := [97; 32; 233; 44; 98]%N in
  sanitize_filename (latin1_tables false) title = lit "a ,b"
  /\ sanitize_filename (latin1_tables false)
       (sanitize_filename (latin1_tables false) title)
     = lit "a,b".
Proof. split; vm_compute; reflexivity. Qed.

End SanitizerSpec.

(** ** Stripping, once more *)

Module StripFacts.

Import StrFacts Terms.

Lemma strip_blank (s : str) : forallb is_space s = true -> strip s = [].
Proof.
  intros H. unfold strip, strip_by.
  assert (E : lstrip_by is_space s = []).
  { induction s as [|c r IH]; [reflexivity|].
    cbn [forallb] in H. apply andb_true_iff in H as [Hc Hr].
    cbn [lstrip_by]. rewrite Hc. now apply IH. }
  now rewrite E.
Qed.

Lemma lstrip_by_padding (p : char -> bool) (a s : str) :
  forallb p a = true -> lstrip_by p (a ++ s) = lstrip_by p s.
Proof.
  induction a as [|c r IH]; [reflexivity|].
  cbn [forallb app lstrip_by]. intros H.
  apply andb_true_iff in H as [Hc Hr]. rewrite Hc. now apply IH.
Qed.

Lemma rstrip_by_padding (p : char -> bool) (s b : str) :
  forallb p b = true -> rstrip_by p (s ++ b) = rstrip_by p s.
Proof.
  intros H. unfold rstrip_by. rewrite rev_app_distr.
  rewrite lstrip_by_padding by now rewrite forallb_rev. reflexivity.
Qed.

Lemma strip_by_padding (p : char -> bool) (a s b : str) :
  forallb p a = true -> forallb p b = true ->
  strip_by p (a ++ s ++ b) = strip_by p s.
Proof.
  intros Ha Hb. unfold strip_by. rewrite (lstrip_by_padding _ _ _ Ha).
  induction s as [|c r IH].
  - cbn [app]. rewrite <- (app_nil_r b) at 1.
    rewrite (lstrip_by_padding _ _ _ Hb). reflexivity.
  - cbn [app lstrip_by]. destruct (p c); [exact IH|].
    now rewrite app_comm_cons, rstrip_by_padding.
Qed.

Lemma lstrip_by_empty (q : char -> bool) (s : str) :
  lstrip_by q s = [] -> forallb q s = true.
Proof.
  induction s as [|c r IH]; [reflexivity|].
  cbn [lstrip_by forallb]. destruct (q c); [exact IH | discriminate].
Qed.

Lemma strip_by_empty (q : char -> bool) (s : str) :
  strip_by q s = [] -> forallb q s = true.
Proof.
  unfold strip_by, rstrip_by. intros H.
  apply (f_equal (@rev _)) in H. rewrite rev_involutive in H. cbn [rev] in H.
  apply lstrip_by_empty in H. rewrite forallb_rev in H.
  pose proof (SanitizerSpec.lstrip_by_starts_clean q s) as Hc.
  destruct (lstrip_by q s) as [|c r] eqn:E; [now apply lstrip_by_empty|].
  cbn [forallb starts_clean] in *. apply andb_true_iff in H as [H _].
  now rewrite H in Hc.
Qed.

Lemma rstrip_by_head (q : char -> bool) (c : char) (s : str) :
  q c = false -> rstrip_by q (c :: s) = c :: rstrip_by q s.
Proof.
  intros H. unfold rstrip_by. cbn [rev].
  assert (E : forall x, lstrip_by q (x ++ [c]) = lstrip_by q x ++ [c]).
  { induction x as [|d x IH]; cbn [app lstrip_by].
    - now rewrite H.
    - now destruct (q d). }
  rewrite E, rev_app_distr. reflexivity.
Qed.

Lemma rstrip_by_after_text (q : char -> bool) (a : str) (c : char) (s : str) :
  q c = false -> rstrip_by q (a ++ c :: s) = a ++ c :: rstrip_by q s.
Proof.
  intros H. unfold rstrip_by. rewrite rev_app_distr. cbn [rev].
  rewrite <- app_assoc. cbn [app].
  assert (E : forall x y, lstrip_by q (x ++ c :: y) = lstrip_by q x ++ c :: y).
  { induction x as [|d x IH]; intros y; cbn [app lstrip_by].
    - now rewrite H.
    - now destruct (q d). }
  rewrite E, rev_app_distr. cbn [rev]. rewrite rev_involutive.
  now rewrite <- app_assoc.
Qed.

End StripFacts.

(** ** Language preferences *)

Module LanguageSpec.

Import Transcript StrFacts Terms StripFacts.

(** *** The codes of an option *)

Lemma mem_app (k : char) (a b : str) : mem k (a ++ b) = mem k a || mem k b.
Proof. apply existsb_app. Qed.

Lemma split_on_pieces (sep : char) (s : str) :
  forall cur, mem sep cur = false ->
  Forall (fun piece => mem sep piece = false) (split_on sep cur s).
Proof.
  induction s as [|c r IH]; intros cur Hcur; cbn [split_on].
  - constructor; [now rewrite mem_rev | constructor].
  - destruct (N.eqb_spec c sep) as [->|Hne].
    + constructor; [now rewrite mem_rev | now apply IH].
    + apply IH. cbn [mem existsb]. fold (mem sep cur). rewrite Hcur, orb_false_r.
      apply N.eqb_neq. congruence.
Qed.

Lemma mem_strip_by (k : char) (q : char -> bool) (s : str) :
  mem k s = false -> mem k (strip_by q s) = false.
Proof.
  intros H. destruct (SanitizerSpec.strip_by_infix q s) as (a & b & E).
  rewrite E, !mem_app in H.
  apply orb_false_iff in H as [_ H]. now apply orb_false_iff in H as [H _].
Qed.

Lemma eqb_refl (a : str) : Str.eqb a a = true.
Proof. now apply eqb_eq. Qed.

(** Every code of the expanded option is a clean one: not empty,
    without whitespace around it, and without a comma. *)
Theorem expand_language_list_codes (lang_option : str) :
  forallb clean_code (expand_language_list lang_option) = true.
Proof.
  unfold expand_language_list.
  destruct (truthy lang_option); cbn [negb]; [|reflexivity].
  pose proof (@split_on_pieces 44%N lang_option [] eq_refl) as Hpieces.
  fold (split 44%N lang_option) in Hpieces.
  induction Hpieces as [|piece pieces Hpiece _ IH]; [reflexivity|].
  cbn [map filter]. destruct (truthy (strip piece)) eqn:Ht; [|exact IH].
  cbn [forallb]. rewrite IH, andb_true_r. unfold clean_code.
  rewrite Ht. unfold strip.
  rewrite SanitizerSpec.strip_by_idempotent, eqb_refl.
  now rewrite (mem_strip_by _ _ _ Hpiece).
Qed.

(** *** Joining and splitting *)

Lemma split_on_app (sep : char) (piece rest : str) :
  forall cur, mem sep piece = false ->
  split_on sep cur (piece ++ sep :: rest)
  = (rev cur ++ piece) :: split_on sep [] rest.
Proof.
  induction piece as [|c r IH]; intros cur H; cbn [app split_on].
  - now rewrite N.eqb_refl, app_nil_r.
  - cbn [mem existsb] in H. apply orb_false_iff in H as [Hc Hr].
    rewrite N.eqb_sym, Hc, (IH _ Hr). cbn [rev]. now rewrite <- app_assoc.
Qed.

Lemma split_join (sep : char) (parts : list str) :
  parts <> [] ->
  Forall (fun piece => mem sep piece = false) parts ->
  split sep (join [sep] parts) = parts.
Proof.
  intros Hne H. unfold split.
  induction H as [|p rest Hp Hrest IH]; [contradiction|].
  destruct rest as [|q rest].
  - cbn [join]. now rewrite ResolverSpec.split_on_absent.
  - change (join [sep] (p :: q :: rest)) with (p ++ sep :: join [sep] (q :: rest)).
    rewrite split_on_app by exact Hp. cbn [rev app]. f_equal.
    apply IH. discriminate.
Qed.

Lemma clean_code_facts (code : str) :
  clean_code code = true ->
  truthy code = true /\ strip code = code /\ mem 44%N code = false.
Proof.
  unfold clean_code. intros H.
  apply andb_true_iff in H as [H Hcomma].
  apply andb_true_iff in H as [Ht Hs].
  repeat split; [exact Ht | now apply eqb_eq | now apply negb_true_iff].
Qed.

Lemma truthy_join (sep : str) (parts : list str) :
  parts <> [] -> Forall (fun p => truthy p = true) parts ->
  truthy (join sep parts) = true.
Proof.
  intros Hne H. destruct H as [|p rest Hp _]; [contradiction|].
  destruct p; [discriminate|]. now destruct rest.
Qed.

(** Writing clean codes with commas between them and expanding the
    result gives the codes back. *)
Theorem expand_language_list_join (codes : list str) :
  forallb clean_code codes = true ->
  expand_language_list (join [44%N] codes) = codes.
Proof.
  intros H. rewrite forallb_forall in H.
  destruct codes as [|c codes]; [reflexivity|].
  assert (Hall : Forall (fun p => truthy p = true /\ strip p = p
                                  /\ mem 44%N p = false) (c :: codes)).
  { apply Forall_forall. intros p Hp. now apply clean_code_facts, H. }
  unfold expand_language_list.
  rewrite truthy_join; [| discriminate | ].
  2:{ eapply Forall_impl; [|exact Hall]. now intros p (Hp & _). }
  cbn [negb]. rewrite split_join; [| discriminate | ].
  2:{ eapply Forall_impl; [|exact Hall]. now intros p (_ & _ & Hp). }
  clear H. induction Hall as [|p rest (Ht & Hs & _) _ IH]; [reflexivity|].
  cbn [map filter]. now rewrite Hs, Ht, IH.
Qed.

Lemma expand_language_list_join_witness :
  expand_language_list (lit "en,en-US,en-GB")
  = [lit "en"; lit "en-US"; lit "en-GB"].
Proof.
  exact (@expand_language_list_join [lit "en"; lit "en-US"; lit "en-GB"] eq_refl).
Defined.

(** *** Blank options *)

Lemma split_on_blank (s : str) :
  forall cur, forallb is_space cur = true ->
  forallb blank_or_comma s = true ->
  filter truthy (map strip (split_on 44%N cur s)) = [].
Proof.
  induction s as [|c r IH]; intros cur Hcur H; cbn [split_on].
  - cbn [map filter]. rewrite strip_blank by now rewrite forallb_rev.
    reflexivity.
  - cbn [forallb] in H. apply andb_true_iff in H as [Hc Hr].
    destruct (N.eqb_spec c 44) as [->|Hne].
    + cbn [map filter]. rewrite strip_blank by now rewrite forallb_rev.
      cbn [truthy]. now apply IH.
    + apply IH; [|exact Hr]. cbn [forallb]. rewrite Hcur, andb_true_r.
      unfold blank_or_comma in Hc. apply orb_true_iff in Hc as [Hc|Hc]; [exact Hc|].
      apply N.eqb_eq in Hc. contradiction.
Qed.

(** An option that holds only commas and whitespace, the empty one
    included, names no language, and the preferences are the default
    ones. *)
Theorem blank_option_means_default (lang_option : str) :
  forallb blank_or_comma lang_option = true ->
  expand_language_list lang_option = []
  /\ preferences_of (expand_language_list lang_option)
     = [lit "en"; lit "en-US"; lit "en-GB"].
Proof.
  intros H.
  assert (E : expand_language_list lang_option = []).
  { unfold expand_language_list. destruct (truthy lang_option); [|reflexivity].
    cbn [negb]. now apply split_on_blank. }
  now rewrite E.
Qed.

Lemma blank_option_means_default_witness :
  preferences_of (expand_language_list (lit " , ,, "))
  = [lit "en"; lit "en-US"; lit "en-GB"].
Proof.
  exact (proj2 (@blank_option_means_default (lit " , ,, ") eq_refl)).
Defined.

(** *** Preferences *)

Lemma existsb_eqb_In (x : str) (l : list str) :
  existsb (Str.eqb x) l = true <-> In x l.
Proof.
  rewrite existsb_exists. split.
  - intros [y [Hy E]]. apply eqb_eq in E. now subst.
  - intros H. exists x. split; [exact H | apply eqb_refl].
Qed.

Lemma dedupe_In (languages : list str) :
  forall seen x,
  In x (dedupe seen languages) <-> In x languages /\ ~ In x seen.
Proof.
  induction languages as [|l rest IH]; intros seen x; cbn [dedupe].
  - cbn. tauto.
  - destruct (existsb (Str.eqb l) seen) eqn:E.
    + apply existsb_eqb_In in E. rewrite IH. cbn [In]. split.
      * intros [H Hn]. tauto.
      * intros [[<- | H] Hn]; [contradiction | tauto].
    + assert (Hl : ~ In l seen).
      { intros Hin. apply existsb_eqb_In in Hin. congruence. }
      cbn [In]. rewrite IH. cbn [In]. split.
      * intros [<- | [H Hn]]; [tauto|]. tauto.
      * intros [[<- | H] Hn]; [tauto|].
        destruct (list_eq_dec N.eq_dec l x) as [->|Hne]; [tauto|]. tauto.
Qed.

Lemma dedupe_NoDup (languages : list str) :
  forall seen, NoDup (dedupe seen languages).
Proof.
  induction languages as [|l rest IH]; intros seen; cbn [dedupe].
  - constructor.
  - destruct (existsb (Str.eqb l) seen); [apply IH|].
    constructor; [|apply IH].
    rewrite dedupe_In. cbn [In]. tauto.
Qed.

(** The language preferences hold no code twice; they are the codes
    given, or the three default codes when none is given. *)
Theorem preferences_without_repeats (languages : list str) :
  NoDup (preferences_of languages)
  /\ (languages <> [] ->
      forall code, In code (preferences_of languages) <-> In code languages)
  /\ (languages = [] ->
      preferences_of languages = [lit "en"; lit "en-US"; lit "en-GB"]).
Proof.
  split; [|split].
  - destruct languages as [|l rest].
    + cbn [preferences_of].
      change (expand_language_list DEFAULT_LANG_PREF)
        with [lit "en"; lit "en-US"; lit "en-GB"].
      repeat constructor; cbn [In]; intros H;
        repeat (destruct H as [H|H]; [discriminate H|]); exact H.
    + apply dedupe_NoDup.
  - intros Hne code. destruct languages as [|l rest]; [contradiction|].
    unfold preferences_of. rewrite dedupe_In. cbn [In]. tauto.
  - now intros ->.
Qed.

End LanguageSpec.

(** ** Video references, further *)

Module ReferenceSpec.

Import Resolver StrFacts Terms Examples StripFacts.

Lemma extract_returns_valid (T : Tables) (input video_id url : str) :
  extract_video_id T input = Returns (video_id, url) ->
  fullmatch_video_id video_id = true /\ url = canonical_url video_id.
Proof.
  unfold extract_video_id.
  destruct (truthy (strip input)); cbn [negb]; [|discriminate].
  destruct (fullmatch_video_id (strip input)) eqn:Hid.
  - intros [= <- <-]. now split.
  - destruct (urlparse T (normalize_url (strip input))) as [parsed|];
      [|discriminate].
    destruct (locate_video_id T parsed) as [v|]; [|discriminate].
    destruct (truthy v); cbn [negb]; [|discriminate].
    destruct (fullmatch_video_id v) eqn:Hv; cbn [negb]; [|discriminate].
    intros [= <- <-]. now split.
Qed.

(** Whatever [extract_video_id] returns is an identifier of eleven
    characters of the identifier alphabet with its watch URL, and
    that URL resolves to the same pair again. *)
Theorem canonical_url_resolves (T : Tables) (input video_id url : str) :
  extract_video_id T input = Returns (video_id, url) ->
  length video_id = 11%nat
  /\ forallb is_id_char video_id = true
  /\ url = lit "https://www.youtube.com/watch?v=" ++ video_id
  /\ extract_video_id T url = Returns (video_id, url).
Proof.
  intros H. destruct (@extract_returns_valid T _ _ _ H) as [Hid ->].
  destruct (ResolverSpec.fullmatch_plain _ Hid) as [Hplain Hne].
  pose proof Hid as Hshape. unfold fullmatch_video_id in Hshape.
  apply andb_true_iff in Hshape as [Hlen Hchars].
  apply Nat.eqb_eq in Hlen.
  repeat split; auto.
  unfold canonical_url.
  eapply ResolverSpec.extract_url;
    [reflexivity | reflexivity | exact Hid | now apply ResolverSpec.urlparse_watch |].
  unfold locate_video_id. cbn [netloc path query].
  rewrite ResolverSpec.query_of_watch by assumption. reflexivity.
Qed.

Lemma canonical_url_resolves_witness :
  let url := lit "https://www.youtube.com/watch?v=dQw4w9WgXcQ" in
  extract_video_id plain_tables (lit " https://youtu.be/dQw4w9WgXcQ?t=42 ")
  = Returns (lit "dQw4w9WgXcQ", url)
  /\ extract_video_id plain_tables url = Returns (lit "dQw4w9WgXcQ", url).
Proof.
  split; [reflexivity|].
  exact (proj2 (proj2 (proj2
           (@canonical_url_resolves plain_tables
              (lit " https://youtu.be/dQw4w9WgXcQ?t=42 ")
              (lit "dQw4w9WgXcQ")
              (lit "https://www.youtube.com/watch?v=dQw4w9WgXcQ") eq_refl)))).
Defined.

(** Input that is empty or holds whitespace only is refused as
    missing. *)
Theorem blank_input_is_missing (T : Tables) (input : str) :
  forallb is_space input = true ->
  extract_video_id T input = Raises (CliError MissingInput).
Proof.
  intros H. unfold extract_video_id. now rewrite (strip_blank _ H).
Qed.

Lemma blank_input_is_missing_witness :
  extract_video_id plain_tables [32; 9; 10]%N = Raises (CliError MissingInput).
Proof. apply blank_input_is_missing. reflexivity. Defined.

(** Whitespace before and after the input does not change the
    reference that is found. *)
Theorem surrounding_whitespace_ignored
  (T : Tables) (before input after : str) (reference : str * str) :
  forallb is_space before = true -> forallb is_space after = true ->
  extract_video_id T (before ++ input ++ after) = Returns reference
  <-> extract_video_id T input = Returns reference.
Proof.
  intros Hb Ha. unfold extract_video_id, strip.
  rewrite (@strip_by_padding _ _ input _ Hb Ha).
  destruct (truthy (strip_by is_space input)); cbn [negb]; [|tauto].
  destruct (fullmatch_video_id (strip_by is_space input)); [tauto|].
  destruct (urlparse T (normalize_url (strip_by is_space input))) as [parsed|];
    [|tauto].
  destruct (locate_video_id T parsed) as [v|]; [|split; discriminate].
  destruct (truthy v); cbn [negb]; [|split; discriminate].
  destruct (fullmatch_video_id v); cbn [negb]; tauto.
Qed.

Lemma surrounding_whitespace_ignored_witness :
  extract_video_id plain_tables
    ([9; 32]%N ++ lit "https://youtu.be/dQw4w9WgXcQ" ++ [32; 10]%N)
  = Returns (lit "dQw4w9WgXcQ",
             lit "https://www.youtube.com/watch?v=dQw4w9WgXcQ").
Proof.
  apply (@surrounding_whitespace_ignored plain_tables [9; 32]%N
           (lit "https://youtu.be/dQw4w9WgXcQ") [32; 10]%N);
    reflexivity.
Defined.

(** A reference is found only in a bare identifier or in a URL whose
    host ends with youtu.be or contains youtube.com: a URL of another
    host never yields one. *)
Theorem references_come_from_the_site
  (T : Tables) (input video_id url : str) :
  extract_video_id T input = Returns (video_id, url) ->
  strip input = video_id
  \/ exists parsed,
       urlparse T (normalize_url (strip input)) = Returns parsed
       /\ (endswith (lit "youtu.be") (lower T (netloc parsed)) = true
           \/ contains (lit "youtube.com") (lower T (netloc parsed)) = true).
Proof.
  unfold extract_video_id.
  destruct (truthy (strip input)); cbn [negb]; [|discriminate].
  destruct (fullmatch_video_id (strip input)); [intros [= <- _]; now left|].
  destruct (urlparse T (normalize_url (strip input))) as [parsed|];
    [|discriminate].
  destruct (locate_video_id T parsed) as [v|] eqn:Hloc; [|discriminate].
  intros _. right. exists parsed. split; [reflexivity|].
  unfold locate_video_id in Hloc.
  destruct (endswith (lit "youtu.be") (lower T (netloc parsed)));
    [now left|].
  destruct (contains (lit "youtube.com") (lower T (netloc parsed)));
    [now right | discriminate].
Qed.

Lemma references_come_from_the_site_witness :
  exists parsed,
    urlparse plain_tables (lit "https://music.youtube.com/watch?v=dQw4w9WgXcQ")
    = Returns parsed
    /\ (endswith (lit "youtu.be") (lower plain_tables (netloc parsed)) = true
        \/ contains (lit "youtube.com") (lower plain_tables (netloc parsed))
           = true).
Proof.
  destruct (@references_come_from_the_site plain_tables
              (lit "https://music.youtube.com/watch?v=dQw4w9WgXcQ")
              (lit "dQw4w9WgXcQ")
              (lit "https://www.youtube.com/watch?v=dQw4w9WgXcQ") eq_refl)
    as [H|H]; [discriminate H | exact H].
Defined.

(** *** Input that URL splitting accepts *)

Lemma forallb_lstrip_by (P q : char -> bool) (s : str) :
  forallb P s = true -> forallb P (lstrip_by q s) = true.
Proof.
  destruct (SanitizerSpec.lstrip_by_suffix q s) as [a E]. intros H.
  rewrite E, forallb_app in H. now apply andb_true_iff in H as [_ H].
Qed.

Lemma forallb_split1 (P : char -> bool) (sep : char) (s : str) :
  forallb P s = true ->
  forallb P (fst (split1 sep s)) = true
  /\ forall rest, snd (split1 sep s) = Some rest -> forallb P rest = true.
Proof.
  induction s as [|c r IH]; intros H; [split; [reflexivity | discriminate]|].
  cbn [forallb] in H. apply andb_true_iff in H as [Hc Hr].
  cbn [split1]. destruct (c =? sep)%N.
  - split; [reflexivity|]. now intros rest [= <-].
  - destruct (IH Hr) as [Ha Hb]. destruct (split1 sep r) as [a b].
    cbn [fst snd forallb] in *. now rewrite Hc, Ha.
Qed.

Lemma forallb_break_at (P stop : char -> bool) (s : str) :
  forallb P s = true -> forallb P (fst (break_at stop s)) = true.
Proof.
  intros H. rewrite <- (ResolverSpec.break_at_app stop s), forallb_app in H.
  now apply andb_true_iff in H as [H _].
Qed.

Section WithTables.
Variable T : Tables.

Lemma urlparse_unbracketed (url : str) :
  forallb unbracketed url = true -> exists parsed, urlparse T url = Returns parsed.
Proof.
  intros H. unfold urlparse.
  assert (H1 : forallb unbracketed (remove_unsafe url) = true).
  { unfold remove_unsafe. apply SanitizerSpec.forallb_filter_sub.
    now apply forallb_lstrip_by. }
  assert (H2 : forallb unbracketed (snd (split_scheme (remove_unsafe url))) = true).
  { unfold split_scheme.
    destruct (forallb_split1 unbracketed 58%N _ H1) as [_ Hrest].
    destruct (split1 58%N (remove_unsafe url)) as [before [rest|]];
      [|exact H1].
    destruct before as [|c before]; [exact H1|].
    destruct (is_ascii_alpha c && forallb is_scheme_char (c :: before));
      [|exact H1].
    now apply Hrest. }
  destruct (split_scheme (remove_unsafe url)) as [scheme rest].
  cbn [snd] in H2.
  assert (H3 : forallb unbracketed (fst (split_netloc rest)) = true).
  { unfold split_netloc. destruct rest as [|a [|b after]]; try reflexivity.
    destruct ((a =? 47)%N && (b =? 47)%N); [|reflexivity].
    apply forallb_break_at. cbn [forallb] in H2.
    apply andb_true_iff in H2 as [_ H2]. now apply andb_true_iff in H2 as [_ H2]. }
  destruct (split_netloc rest) as [netloc after]. cbn [fst] in H3.
  assert (Hok : netloc_ok T netloc = true).
  { unfold netloc_ok.
    assert (Hno : forall k, mem k (lit "[]") = true -> mem k netloc = false).
    { intros k Hk. unfold mem at 1. destruct (existsb (N.eqb k) netloc) eqn:E;
        [|reflexivity].
      apply existsb_exists in E as [c [Hc Ec]]. apply N.eqb_eq in Ec. subst c.
      rewrite forallb_forall in H3. specialize (H3 k Hc).
      unfold unbracketed in H3. rewrite Hk, andb_false_r in H3. discriminate. }
    rewrite (Hno 91%N eq_refl), (Hno 93%N eq_refl). cbn [xorb orb].
    assert (Ha : all_ascii netloc = true).
    { unfold all_ascii. rewrite forallb_forall in *. intros c Hc.
      specialize (H3 c Hc). unfold unbracketed in H3.
      now apply andb_true_iff in H3 as [H3 _]. }
    now rewrite Ha. }
  rewrite Hok. cbn [negb].
  destruct (split1 35%N after) as [u1 fragment0].
  destruct (split1 63%N u1) as [u2 query0].
  destruct (if existsb (Str.eqb scheme) uses_params then split_params u2
            else (u2, [])) as [u3 params0].
  now eexists.
Qed.

End WithTables.

(** For ASCII input without square brackets URL splitting never
    fails: [extract_video_id] returns a reference or raises a
    [CliError], never the [ValueError] of the URL library. *)
Theorem plain_input_fails_cleanly (T : Tables) (input : str) :
  forallb unbracketed input = true ->
  (exists reference, extract_video_id T input = Returns reference)
  \/ (exists e, extract_video_id T input = Raises (CliError e)).
Proof.
  intros H. unfold extract_video_id.
  destruct (truthy (strip input)); cbn [negb]; [|right; now eexists].
  destruct (fullmatch_video_id (strip input)); [left; now eexists|].
  assert (Hnorm : forallb unbracketed (normalize_url (strip input)) = true).
  { unfold normalize_url.
    assert (Hs : forallb unbracketed (strip input) = true)
      by now apply SanitizerSpec.forallb_strip_by.
    destruct (startswith (lit "www.") (strip input)); [|exact Hs].
    now rewrite forallb_app, Hs. }
  destruct (urlparse_unbracketed T _ Hnorm) as [parsed ->].
  destruct (locate_video_id T parsed) as [v|]; [|right; now eexists].
  destruct (truthy v); cbn [negb]; [|right; now eexists].
  destruct (fullmatch_video_id v); cbn [negb];
    [left | right]; now eexists.
Qed.

Lemma plain_input_fails_cleanly_witness :
  exists e,
    extract_video_id plain_tables (lit "http://example.com:80x/a?b#c")
    = Raises (CliError e).
Proof.
  destruct (@plain_input_fails_cleanly plain_tables
              (lit "http://example.com:80x/a?b#c") eq_refl) as [[r H]|H];
    [discriminate H | exact H].
Defined.

End ReferenceSpec.

(** ** Timestamps as an encoding *)

Module ClockSpec.

Import Timestamp StrFacts Terms.

(** *** Decimal numerals *)

Lemma lit_injective (a b : string) : lit a = lit b -> a = b.
Proof.
  unfold lit. intros H.
  rewrite <- (string_of_list_ascii_of_string a), <- (string_of_list_ascii_of_string b).
  f_equal. revert H.
  generalize (list_ascii_of_string a) (list_ascii_of_string b).
  induction l as [|x l IH]; intros [|y l']; cbn [map]; try discriminate; auto.
  intros [= Hxy Hl]. f_equal; [|now apply IH].
  rewrite <- (ascii_N_embedding x), <- (ascii_N_embedding y). now rewrite Hxy.
Qed.

Lemma to_uint_nonnil (n : N) : N.to_uint n <> Decimal.Nil.
Proof.
  destruct n as [|p]; [discriminate|].
  apply DecimalPos.Unsigned.to_uint_nonnil.
Qed.

Lemma decimal_injective (a b : N) : decimal a = decimal b -> a = b.
Proof.
  unfold decimal. intros H. apply lit_injective in H.
  apply (f_equal NilZero.uint_of_string) in H.
  rewrite !NilZero.usu in H by apply to_uint_nonnil. injection H as H.
  now apply DecimalN.Unsigned.to_uint_inj.
Qed.

(** A numeral that [N.to_uint] produces has no leading zero. *)
Lemma to_uint_leading_zero (n : N) (u : Decimal.uint) :
  N.to_uint n = Decimal.D0 u -> u = Decimal.Nil.
Proof.
  intros H.
  pose proof (DecimalN.Unsigned.to_of (N.to_uint n)) as E.
  rewrite DecimalN.Unsigned.of_to, H, DecimalFacts.unorm_D0 in E.
  destruct u as [| | | | | | | | | |]; try reflexivity;
    (exfalso;
     match type of E with
     | Decimal.D0 ?v = _ =>
         pose proof (@DecimalFacts.nb_digits_unorm v ltac:(discriminate)) as Hn
     end;
     rewrite <- E in Hn; cbn [Decimal.nb_digits] in Hn; lia).
Qed.

Lemma decimal_leading_zero (n : N) (r : str) :
  decimal n = 48%N :: r -> r = [].
Proof.
  unfold decimal. intros H.
  destruct (N.to_uint n) as [|u|u|u|u|u|u|u|u|u|u] eqn:E;
    try (cbv in H; discriminate H).
  - cbv in H. now injection H.
  - apply to_uint_leading_zero in E. subst u. cbv in H. now injection H.
Qed.

Lemma fmt_02d_injective (a b : Z) :
  (0 <= a)%Z -> (0 <= b)%Z -> fmt_02d a = fmt_02d b -> a = b.
Proof.
  intros Ha Hb. unfold fmt_02d.
  replace (a <? 0)%Z with false by (symmetry; apply Z.ltb_ge; exact Ha).
  replace (b <? 0)%Z with false by (symmetry; apply Z.ltb_ge; exact Hb).
  assert (Hinj : decimal (Z.to_N a) = decimal (Z.to_N b) -> a = b).
  { intros H. apply decimal_injective in H. lia. }
  destruct (length (decimal (Z.to_N a)) <? 2)%nat eqn:La,
           (length (decimal (Z.to_N b)) <? 2)%nat eqn:Lb.
  - intros H. apply Hinj. now injection H.
  - intros H. symmetry in H. change (lit "0" ++ ?d) with (48%N :: d) in H.
    pose proof (decimal_leading_zero _ H) as E.
    rewrite H in Lb. apply Nat.ltb_ge in Lb. rewrite E in La.
    apply Nat.ltb_lt in La. cbn [length] in *. rewrite E in Lb. cbn in Lb. lia.
  - intros H. change (lit "0" ++ ?d) with (48%N :: d) in H.
    pose proof (decimal_leading_zero _ H) as E.
    rewrite H in La. apply Nat.ltb_ge in La. rewrite E in La. cbn in La. lia.
  - exact Hinj.
Qed.

(** *** The fields of a timestamp *)

Lemma whole_seconds_nonneg (seconds : Q) : (0 <= whole_seconds seconds)%Z.
Proof.
  unfold whole_seconds, is_negative, int_of.
  destruct (Z.ltb_spec (Qnum seconds) 0); [lia|].
  apply Z.quot_pos; lia.
Qed.

Lemma format_timestamp_fields (seconds : Q) :
  let total := whole_seconds seconds in
  format_timestamp seconds
  = (if (total / 3600 =? 0)%Z then [] else fmt_02d (total / 3600) ++ lit ":")
    ++ two_digits (total mod 3600 / 60) ++ lit ":"
    ++ two_digits (total mod 3600 mod 60).
Proof.
  intros total.
  assert (Hm : (0 <= total mod 3600 / 60 < 100)%Z).
  { pose proof (Z.mod_pos_bound total 3600 ltac:(lia)) as Hr.
    split; [apply Z.div_pos; lia|].
    apply Z.lt_trans with 60%Z; [|lia].
    apply Z.div_lt_upper_bound; lia. }
  assert (Hs : (0 <= total mod 3600 mod 60 < 100)%Z).
  { pose proof (Z.mod_pos_bound (total mod 3600) 60 ltac:(lia)). lia. }
  unfold format_timestamp.
  replace (int_of (if is_negative seconds then 0%Q else seconds)) with total
    by (subst total; unfold whole_seconds; now destruct (is_negative seconds)).
  rewrite !TimestampSpec.fmt_02d_two_digits by assumption.
  destruct (total / 3600 =? 0)%Z; [reflexivity|].
  now rewrite <- app_assoc.
Qed.

Lemma app_same_length_tail (A : Type) (a b x y : list A) :
  length x = length y -> a ++ x = b ++ y -> a = b /\ x = y.
Proof.
  intros Hlen H.
  assert (Hab : length a = length b).
  { apply (f_equal (@length A)) in H. rewrite !length_app in H. lia. }
  clear Hlen. revert b H Hab.
  induction a as [|c a IH]; intros [|d b] H Hab; try discriminate.
  - now split.
  - cbn [app] in H. injection H as -> H. cbn [length] in Hab.
    destruct (IH b H ltac:(lia)) as [-> ->]. now split.
Qed.

Lemma two_digits_injective (m n : Z) :
  (0 <= m < 100)%Z -> (0 <= n < 100)%Z -> two_digits m = two_digits n -> m = n.
Proof.
  intros Hm Hn. unfold two_digits. intros H.
  assert (Hd : (48 + Z.to_N (m / 10) = 48 + Z.to_N (n / 10))%N)
    by exact (f_equal (fun l => nth 0 l 0%N) H).
  assert (Hu : (48 + Z.to_N (m mod 10) = 48 + Z.to_N (n mod 10))%N)
    by exact (f_equal (fun l => nth 1 l 0%N) H).
  clear H.
  pose proof (Z.div_pos m 10 ltac:(lia) ltac:(lia)).
  pose proof (Z.div_pos n 10 ltac:(lia) ltac:(lia)).
  pose proof (Z.mod_pos_bound m 10 ltac:(lia)).
  pose proof (Z.mod_pos_bound n 10 ltac:(lia)).
  rewrite (Z.div_mod m 10), (Z.div_mod n 10) by lia.
  assert (m / 10 = n / 10)%Z by lia.
  assert (m mod 10 = n mod 10)%Z by lia.
  congruence.
Qed.

(** Two times are printed alike exactly when they have the same
    number of whole seconds, negative times counting as zero: the
    timestamp determines the second it stands for. *)
Theorem format_timestamp_injective (a b : Q) :
  format_timestamp a = format_timestamp b
  <-> whole_seconds a = whole_seconds b.
Proof.
  rewrite !format_timestamp_fields. cbv zeta.
  pose proof (whole_seconds_nonneg a) as Ha.
  pose proof (whole_seconds_nonneg b) as Hb.
  set (s := whole_seconds a) in *. set (t := whole_seconds b) in *.
  split; [|now intros ->].
  intros H. apply app_same_length_tail in H as [Hhours Hrest]; [|reflexivity].
  change (two_digits ?m ++ lit ":" ++ ?r) with (two_digits m ++ [58%N] ++ r)
    in Hrest.
  apply (@app_same_length_tail _ _ _ ([58%N] ++ _) ([58%N] ++ _)) in Hrest
    as [Hmin Hsec]; [|reflexivity].
  apply (f_equal (@tl _)) in Hsec. cbn [app tl] in Hsec.
  pose proof (Z.mod_pos_bound s 3600 ltac:(lia)).
  pose proof (Z.mod_pos_bound t 3600 ltac:(lia)).
  pose proof (Z.mod_pos_bound (s mod 3600) 60 ltac:(lia)).
  pose proof (Z.mod_pos_bound (t mod 3600) 60 ltac:(lia)).
  assert (Hdiv : forall r, (0 <= r < 3600)%Z -> (0 <= r / 60 < 100)%Z).
  { intros r Hr. split; [apply Z.div_pos; lia|].
    apply Z.div_lt_upper_bound; lia. }
  apply two_digits_injective in Hmin; [|apply Hdiv; lia|apply Hdiv; lia].
  assert (Hsec' : (s mod 3600 mod 60 = t mod 3600 mod 60)%Z).
  { apply two_digits_injective; [lia | lia | exact Hsec]. }
  assert (Hh : (s / 3600 = t / 3600)%Z).
  { pose proof (Z.div_pos s 3600 ltac:(lia) ltac:(lia)).
    pose proof (Z.div_pos t 3600 ltac:(lia) ltac:(lia)).
    destruct (Z.eqb_spec (s / 3600) 0) as [Es|Es],
             (Z.eqb_spec (t / 3600) 0) as [Et|Et].
    - congruence.
    - destruct (fmt_02d (t / 3600)); discriminate Hhours.
    - destruct (fmt_02d (s / 3600)); discriminate Hhours.
    - apply app_inj_tail in Hhours as [Hhours _].
      now apply fmt_02d_injective. }
  rewrite (Z.div_mod s 3600), (Z.div_mod t 3600) by lia.
  rewrite (Z.div_mod (s mod 3600) 60), (Z.div_mod (t mod 3600) 60) by lia.
  congruence.
Qed.

End ClockSpec.

(** ** Caption normalizer *)

Module CaptionSpec.

Import Normalizer StrFacts Terms Examples.

(** *** What the steps keep *)

Lemma forallb_sub_markers (P : char -> bool) (s : str) :
  forall skip, forallb P s = true -> forallb P (sub_markers skip s) = true.
Proof.
  induction s as [|c r IH]; intros skip H; [reflexivity|].
  cbn [forallb] in H. apply andb_true_iff in H as [Hc Hr].
  cbn [sub_markers]. destruct skip as [|k]; [|now apply IH].
  destruct (match_stage_direction (c :: r)); [now apply IH|].
  cbn [forallb]. rewrite Hc. now apply IH.
Qed.

Lemma forallb_newlines (P : char -> bool) (s : str) :
  P 32%N = true -> forallb P s = true ->
  forallb P (newlines_to_spaces s) = true.
Proof.
  intros H32 H. unfold newlines_to_spaces. rewrite forallb_forall in *.
  intros c Hc. apply in_map_iff in Hc as [d [<- Hd]].
  destruct (d =? 10)%N; auto.
Qed.

Lemma single_spaced_no_newline (s : str) :
  single_spaced s = true -> newlines_to_spaces s = s.
Proof.
  unfold single_spaced. intros H. apply andb_true_iff in H as [H _].
  unfold newlines_to_spaces. rewrite <- (map_id s) at 2.
  apply map_ext_in. intros c Hc. rewrite forallb_forall in H.
  specialize (H c Hc). destruct (N.eqb_spec c 10) as [->|]; [|reflexivity].
  discriminate H.
Qed.

Section WithTables.
Variable T : Tables.

Lemma clean_caption_text_properties (text : option str) (keep_tags : bool) :
  let cleaned := clean_caption_text T text keep_tags in
  single_spaced cleaned = true /\ tidy cleaned = true /\ strip cleaned = cleaned.
Proof.
  destruct text as [text|]; [|now repeat split].
  cbn [clean_caption_text]. cbv zeta.
  set (raw := newlines_to_spaces
                (if negb keep_tags then remove_stage_directions (nfc T text)
                 else nfc T text)).
  unfold strip, unspace_punctuation, collapse_whitespace.
  destruct (SanitizerSpec.sub_spaces_single_spaced raw false) as [Hss _].
  unfold single_spaced in Hss. apply andb_true_iff in Hss as [Hplain Hpair].
  destruct (SanitizerSpec.strip_by_infix is_space
              (sub_space_punct [] (sub_spaces false raw))) as (a & b & E).
  repeat split.
  - unfold single_spaced. apply andb_true_iff. split.
    + apply SanitizerSpec.forallb_strip_by,
        SanitizerSpec.forallb_sub_space_punct; [reflexivity | exact Hplain].
    + apply (@SanitizerSpec.chain_infix no_space_pair a _ b). rewrite <- E.
      now apply (SanitizerSpec.sub_space_punct_chain _
                   SanitizerSpec.no_space_pair_left).
  - unfold tidy. apply (@SanitizerSpec.chain_infix no_space_punct a _ b).
    rewrite <- E. now apply SanitizerSpec.sub_space_punct_tidy.
  - apply SanitizerSpec.strip_by_idempotent.
Qed.

Lemma clean_caption_text_ascii (text : str) (keep_tags : bool) :
  all_ascii text = true ->
  all_ascii (clean_caption_text T (Some text) keep_tags) = true.
Proof.
  intros H. cbn [clean_caption_text]. cbv zeta. unfold nfc. rewrite H.
  unfold all_ascii, strip, unspace_punctuation, collapse_whitespace.
  apply SanitizerSpec.forallb_strip_by,
    SanitizerSpec.forallb_sub_space_punct; [reflexivity|].
  apply SanitizerSpec.forallb_sub_spaces; [reflexivity|].
  apply forallb_newlines; [reflexivity|].
  destruct keep_tags; cbn [negb]; [exact H|].
  now apply forallb_sub_markers.
Qed.

Lemma clean_fixed (text : str) :
  nfc T text = text -> single_spaced text = true -> tidy text = true ->
  strip text = text ->
  clean_caption_text T (Some text) true = text.
Proof.
  intros Hnfc Hss Htidy Hstrip. cbn [clean_caption_text negb]. cbv zeta.
  rewrite Hnfc, (single_spaced_no_newline _ Hss).
  rewrite (SanitizerSpec.single_spaced_collapse _ Hss).
  unfold unspace_punctuation.
  now rewrite (@SanitizerSpec.sub_space_punct_fixed text [] eq_refl Htidy).
Qed.

End WithTables.

(** Cleaned caption text never starts or ends with whitespace, holds
    no whitespace but single spaces (so no line break), and no space
    before a punctuation mark. *)
Theorem clean_caption_text_shape
  (T : Tables) (text : option str) (keep_tags : bool) :
  let cleaned := clean_caption_text T text keep_tags in
  strip cleaned = cleaned
  /\ forallb plain_space cleaned = true
  /\ chain no_space_pair cleaned = true
  /\ chain no_space_punct cleaned = true
  /\ mem 10%N cleaned = false
  /\ clean_caption_text T None keep_tags = [].
Proof.
  intros cleaned.
  destruct (clean_caption_text_properties T text keep_tags)
    as (Hss & Htidy & Hstrip).
  fold cleaned in Hss, Htidy, Hstrip.
  unfold single_spaced in Hss. apply andb_true_iff in Hss as [Hplain Hpair].
  repeat split; auto.
  destruct (mem 10%N cleaned) eqn:E; [|reflexivity].
  unfold mem in E. apply existsb_exists in E as [c [Hc Ec]].
  apply N.eqb_eq in Ec. subst c.
  rewrite forallb_forall in Hplain. now specialize (Hplain _ Hc).
Qed.

(** Cleaning is settled after one pass: ASCII text that has been
    cleaned, with or without its tags, is returned as it is when it
    is cleaned again with the tags kept. *)
Theorem clean_caption_text_idempotent
  (T : Tables) (text : str) (keep_tags : bool) :
  all_ascii text = true ->
  clean_caption_text T (Some (clean_caption_text T (Some text) keep_tags)) true
  = clean_caption_text T (Some text) keep_tags.
Proof.
  intros H.
  destruct (clean_caption_text_properties T (Some text) keep_tags)
    as (Hss & Htidy & Hstrip).
  apply clean_fixed; auto.
  unfold nfc. now rewrite (clean_caption_text_ascii T _ keep_tags H).
Qed.

Lemma clean_caption_text_idempotent_witness :
  let text := lit "  Hello   [Music] ,  world !" ++ [10%N] ++ lit "bye " in
  clean_caption_text plain_tables (Some text) false = lit "Hello, world! bye"
  /\ clean_caption_text plain_tables
       (Some (clean_caption_text plain_tables (Some text) false)) true
     = clean_caption_text plain_tables (Some text) false.
Proof.
  split; [vm_compute; reflexivity|].
  apply (@clean_caption_text_idempotent plain_tables
           (lit "  Hello   [Music] ,  world !" ++ [10%N] ++ lit "bye ") false).
  reflexivity.
Defined.

(** *** Text without brackets *)

Lemma no_match_without_bracket (words : list str) (c : char) (r : str) :
  (c =? 91)%N = false -> first_match words (c :: r) = None.
Proof.
  intros H. induction words as [|w ws IH]; [reflexivity|].
  cbn [first_match].
  change (lit "[" ++ w ++ lit "]") with (91%N :: w ++ lit "]").
  cbn [ci_prefix].
  assert (E : ci_match 91%N c = false).
  { unfold ci_match. cbn [N.eqb Pos.eqb andb orb]. rewrite !orb_false_r.
    unfold ascii_lower.
    destruct ((65 <=? c) && (c <=? 90))%N eqn:Eu; [|exact H].
    apply andb_true_iff in Eu as [E1 E2].
    apply N.leb_le in E1, E2. apply N.eqb_neq. lia. }
  now rewrite E.
Qed.

Lemma sub_markers_without_bracket (s : str) :
  mem 91%N s = false -> sub_markers 0 s = s.
Proof.
  induction s as [|c r IH]; [reflexivity|].
  cbn [mem existsb]. intros H. apply orb_false_iff in H as [Hc Hr].
  cbn [sub_markers]. unfold match_stage_direction.
  rewrite no_match_without_bracket by now rewrite N.eqb_sym.
  now rewrite (IH Hr).
Qed.

(** Removing the tags leaves text without an opening bracket as it
    is: such a caption is cleaned the same way with and without
    [keep_tags]. *)
Theorem captions_without_brackets
  (T : Tables) (text : str) (keep_tags : bool) :
  mem 91%N (nfc T text) = false ->
  clean_caption_text T (Some text) keep_tags
  = clean_caption_text T (Some text) true.
Proof.
  intros H. cbn [clean_caption_text]. cbv zeta.
  destruct keep_tags; cbn [negb]; [reflexivity|].
  unfold remove_stage_directions. now rewrite (sub_markers_without_bracket _ H).
Qed.

Lemma captions_without_brackets_witness :
  clean_caption_text plain_tables (Some (lit "(music)  playing")) false
  = lit "(music) playing".
Proof.
  rewrite (@captions_without_brackets plain_tables
             (lit "(music)  playing") false eq_refl).
  reflexivity.
Defined.

End CaptionSpec.

(** ** Transcript resolver, further *)

Module FetchSpec.

Import Transcript StrFacts Terms Examples StripFacts.

(** *** The listing loop *)

Section Listing.
Variable api : Api.
Variable video_id : str.
Variable retries : Z.

Lemma retry_delay_bounds (attempt : nat) :
  (3 # 2 <= retry_delay (Z.of_nat attempt))%Q
  /\ (retry_delay (Z.of_nat attempt) <= 5)%Q.
Proof.
  unfold retry_delay. split.
  - apply Q.min_glb; [discriminate|].
    unfold Qle, Qmult, inject_Z. cbn [Qnum Qden]. lia.
  - apply Q.le_min_l.
Qed.

Lemma list_loop_sleeps (remaining : nat) :
  forall attempt,
  (Z.of_nat attempt + Z.of_nat remaining = retries + 1)%Z ->
  let log := fst (list_loop api video_id retries remaining attempt) in
  (length (sleeps log) <= Nat.pred remaining)%nat
  /\ Forall (fun delay => (3 # 2 <= delay)%Q /\ (delay <= 5)%Q) (sleeps log).
Proof.
  induction remaining as [|remaining IH]; intros attempt Hsum;
    [split; [reflexivity | constructor]|].
  cbn [list_loop].
  destruct (api video_id attempt) as [transcripts|err];
    [split; [cbn; lia | constructor]|].
  assert (Hretry :
    let log :=
      fst (if is_api_exception err
           then if (Z.of_nat attempt =? retries)%Z
                then ([], Raises (CliError (ListFailed err)))
                else
                  let (events, result) :=
                    list_loop api video_id retries remaining (S attempt) in
                  (WarnListRetry (Z.of_nat attempt + 1) err
                   :: Sleep (retry_delay (Z.of_nat attempt)) :: events, result)
           else ([], @Raises failure (option TranscriptList) (Uncaught err))) in
    (length (sleeps log) <= remaining)%nat
    /\ Forall (fun delay => (3 # 2 <= delay)%Q /\ (delay <= 5)%Q) (sleeps log)).
  { destruct (is_api_exception err); [|split; [cbn; lia | constructor]].
    destruct (Z.eqb_spec (Z.of_nat attempt) retries) as [E|E];
      [split; [cbn; lia | constructor]|].
    destruct (IH (S attempt) ltac:(lia)) as [Hlen Hall].
    destruct (list_loop api video_id retries remaining (S attempt))
      as [events result].
    cbn [fst] in *.
    change (sleeps (?w :: Sleep ?d :: events)) with (d :: sleeps events).
    split.
    - cbn [length]. destruct remaining; [lia|]. cbn [Nat.pred] in Hlen. lia.
    - constructor; [apply retry_delay_bounds | exact Hall]. }
  cbn [Nat.pred].
  destruct err; try exact Hretry; split; try (cbn; lia); constructor.
Qed.

Lemma list_loop_uncaught (remaining : nat) :
  forall attempt e,
  snd (list_loop api video_id retries remaining attempt) = Raises (Uncaught e) ->
  is_api_exception e = false.
Proof.
  induction remaining as [|remaining IH]; intros attempt e; [discriminate|].
  cbn [list_loop].
  destruct (api video_id attempt) as [transcripts|err]; [discriminate|].
  assert (Hretry :
    snd (if is_api_exception err
         then if (Z.of_nat attempt =? retries)%Z
              then ([], Raises (CliError (ListFailed err)))
              else
                let (events, result) :=
                  list_loop api video_id retries remaining (S attempt) in
                (WarnListRetry (Z.of_nat attempt + 1) err
                 :: Sleep (retry_delay (Z.of_nat attempt)) :: events, result)
         else ([], @Raises failure (option TranscriptList) (Uncaught err)))
    = Raises (Uncaught e) -> is_api_exception e = false).
  { destruct (is_api_exception err) eqn:Hapi; [|now intros [= <-]].
    destruct (Z.of_nat attempt =? retries)%Z; [discriminate|].
    specialize (IH (S attempt) e).
    destruct (list_loop api video_id retries remaining (S attempt)).
    exact IH. }
  destruct err; try exact Hretry; discriminate.
Qed.

End Listing.

(** The loop asks the service for at most [retries + 1] listings: what
    later calls would do is never looked at. *)
Lemma list_loop_calls (api api' : Api) (video_id : str) (retries : Z)
  (remaining : nat) :
  forall attempt,
  (forall i, (attempt <= i < attempt + remaining)%nat ->
     api video_id i = api' video_id i) ->
  list_loop api video_id retries remaining attempt
  = list_loop api' video_id retries remaining attempt.
Proof.
  induction remaining as [|remaining IH]; intros attempt H; [reflexivity|].
  cbn [list_loop]. rewrite <- (H attempt) by lia.
  rewrite (IH (S attempt)) by (intros i Hi; apply H; lia).
  reflexivity.
Qed.

(** *** From the chosen track on *)

Lemma fetch_chosen_log (translate_to : option str) (k : caption_kind)
  (chosen : track) :
  sleeps (fst (fetch_chosen translate_to k chosen)) = [].
Proof.
  unfold fetch_chosen.
  destruct (fetch chosen); [|reflexivity].
  destruct translate_to as [t|]; [|reflexivity].
  destruct (truthy t); [|reflexivity].
  destruct (truthy (strip t)); [|reflexivity].
  destruct (translate chosen (strip t)) as [tr|err].
  - destruct (fetch tr) as [|err]; [reflexivity|].
    destruct err; reflexivity.
  - destruct err; reflexivity.
Qed.

Lemma fetch_chosen_uncaught (translate_to : option str) (k : caption_kind)
  (chosen : track) (e : exn) :
  snd (fetch_chosen translate_to k chosen) = Raises (Uncaught e) ->
  is_api_exception e = false.
Proof.
  unfold fetch_chosen.
  destruct (fetch chosen); [|discriminate].
  destruct translate_to as [t|]; [|discriminate].
  destruct (truthy t); [|discriminate].
  destruct (truthy (strip t)); [|discriminate].
  destruct (translate chosen (strip t)) as [tr|err].
  - destruct (fetch tr) as [|err]; [discriminate|].
    destruct err; try discriminate. now intros [= <-].
  - destruct err; try discriminate. now intros [= <-].
Qed.

Lemma sleeps_app (a b : list event) : sleeps (a ++ b) = sleeps a ++ sleeps b.
Proof. apply flat_map_app. Qed.

Section Fetch.
Variable api : Api.
Variable video_id : str.
Variable prefer_generated : bool.
Variable languages : list str.
Variable translate_to : option str.
Variable retries : Z.

Local Abbreviation run :=
  (fetch_transcript api video_id prefer_generated languages translate_to retries).

Lemma fetch_transcript_sleeps :
  sleeps (fst run) = sleeps (fst (list_transcripts api video_id retries)).
Proof.
  unfold fetch_transcript.
  destruct (list_transcripts api video_id retries) as [events [transcripts|e]];
    [|reflexivity].
  destruct (choose (search_order prefer_generated transcripts)
              (preferences_of languages)) as [[k chosen]|]; [|reflexivity].
  pose proof (fetch_chosen_log translate_to k chosen) as Hlog.
  destruct (fetch_chosen translate_to k chosen) as [more result].
  cbn [fst] in *. now rewrite sleeps_app, Hlog, app_nil_r.
Qed.

End Fetch.

(** Between two attempts the function sleeps at least a second and a
    half and at most five seconds, and it sleeps at most [retries]
    times, whatever the service does. *)
Theorem sleep_budget
  (api : Api) (video_id : str) (prefer_generated : bool)
  (languages : list str) (translate_to : option str) (retries : Z) :
  let log := fst (fetch_transcript api video_id prefer_generated languages
                    translate_to retries) in
  (length (sleeps log) <= Z.to_nat retries)%nat
  /\ Forall (fun delay => (3 # 2 <= delay)%Q /\ (delay <= 5)%Q) (sleeps log).
Proof.
  cbv zeta. rewrite fetch_transcript_sleeps. unfold list_transcripts.
  destruct (Z.ltb_spec retries 0) as [Hneg|Hpos].
  - replace (Z.to_nat (retries + 1)) with 0%nat by lia.
    cbn. split; [lia | constructor].
  - pose proof (@list_loop_sleeps api video_id retries
                  (Z.to_nat (retries + 1)) 0%nat ltac:(lia)) as H.
    cbv zeta in H.
    destruct (list_loop api video_id retries (Z.to_nat (retries + 1)) 0)
      as [events result].
    cbn [fst] in *. destruct H as [Hlen Hall]. split; [lia | exact Hall].
Qed.

(** An exception of the captions library never leaves the function:
    what is raised is a [CliError], or an exception from outside the
    library. *)
Theorem library_exceptions_do_not_escape
  (api : Api) (video_id : str) (prefer_generated : bool)
  (languages : list str) (translate_to : option str) (retries : Z) (e : exn) :
  snd (fetch_transcript api video_id prefer_generated languages translate_to
         retries) = Raises (Uncaught e) ->
  is_api_exception e = false.
Proof.
  unfold fetch_transcript, list_transcripts.
  pose proof (@list_loop_uncaught api video_id retries
                (Z.to_nat (retries + 1)) 0%nat e) as Hloop.
  destruct (list_loop api video_id retries (Z.to_nat (retries + 1)) 0)
    as [events [[transcripts|]|err]]; cbn [snd] in *;
    [|discriminate|intros [= ->]; now apply Hloop].
  destruct (choose (search_order prefer_generated transcripts)
              (preferences_of languages)) as [[k chosen]|]; [|discriminate].
  pose proof (@fetch_chosen_uncaught translate_to k chosen e) as Hchosen.
  destruct (fetch_chosen translate_to k chosen) as [more result].
  exact Hchosen.
Qed.

Lemma library_exceptions_do_not_escape_witness :
  snd (fetch_transcript unreachable_api (lit "dQw4w9WgXcQ") false [] None
         default_retries)
  = Raises (Uncaught (OtherException (lit "ConnectionError")))
  /\ is_api_exception (OtherException (lit "ConnectionError")) = false.
Proof.
  split; [reflexivity|].
  exact (@library_exceptions_do_not_escape unreachable_api (lit "dQw4w9WgXcQ")
           false [] None default_retries _ eq_refl).
Defined.

(** With a negative number of retries the service is not asked at
    all and the function fails for want of metadata. *)
Theorem negative_retries
  (api : Api) (video_id : str) (prefer_generated : bool)
  (languages : list str) (translate_to : option str) (retries : Z) :
  (retries < 0)%Z ->
  fetch_transcript api video_id prefer_generated languages translate_to retries
  = ([], Raises (CliError NoMetadata)).
Proof.
  intros H. unfold fetch_transcript, list_transcripts.
  replace (Z.to_nat (retries + 1)) with 0%nat by lia. reflexivity.
Qed.

Lemma negative_retries_witness :
  fetch_transcript sample_api (lit "dQw4w9WgXcQ") false [] None (-1)
  = ([], Raises (CliError NoMetadata)).
Proof. apply negative_retries. reflexivity. Defined.

(** The function asks for the list of tracks at most [retries + 1]
    times: two services that agree on these calls give the same
    result. *)
Theorem listing_attempts_are_bounded
  (api api' : Api) (video_id : str) (prefer_generated : bool)
  (languages : list str) (translate_to : option str) (retries : Z) :
  (forall i, (Z.of_nat i <= retries)%Z -> api video_id i = api' video_id i) ->
  fetch_transcript api video_id prefer_generated languages translate_to retries
  = fetch_transcript api' video_id prefer_generated languages translate_to
      retries.
Proof.
  intros H. unfold fetch_transcript, list_transcripts.
  rewrite (@list_loop_calls api api' video_id retries
             (Z.to_nat (retries + 1)) 0%nat); [reflexivity|].
  intros i Hi. apply H. lia.
Qed.

Lemma listing_attempts_are_bounded_witness :
  fetch_transcript sample_api (lit "dQw4w9WgXcQ") false [] None default_retries
  = fetch_transcript
      (fun video_id call =>
         match call with
         | 3%nat => Raises VideoUnavailable
         | _ => sample_api video_id call
         end)
      (lit "dQw4w9WgXcQ") false [] None default_retries.
Proof.
  apply listing_attempts_are_bounded. unfold default_retries.
  intros i Hi. destruct i as [|[|[|i]]]; try reflexivity. lia.
Defined.

(** A translation target that is empty or blank asks for no
    translation. *)
Theorem blank_translation_target
  (api : Api) (video_id : str) (prefer_generated : bool)
  (languages : list str) (target : str) (retries : Z) :
  forallb is_space target = true ->
  fetch_transcript api video_id prefer_generated languages (Some target) retries
  = fetch_transcript api video_id prefer_generated languages None retries.
Proof.
  intros H. unfold fetch_transcript.
  destruct (list_transcripts api video_id retries) as [events [transcripts|e]];
    [|reflexivity].
  destruct (choose (search_order prefer_generated transcripts)
              (preferences_of languages)) as [[k chosen]|]; [|reflexivity].
  assert (E : fetch_chosen (Some target) k chosen = fetch_chosen None k chosen).
  { unfold fetch_chosen. rewrite (strip_blank _ H).
    destruct (fetch chosen); [|reflexivity].
    now destruct (truthy target). }
  now rewrite E.
Qed.

Lemma blank_translation_target_witness :
  fetch_transcript sample_api (lit "dQw4w9WgXcQ") false [] (Some (lit "  "))
    default_retries
  = fetch_transcript sample_api (lit "dQw4w9WgXcQ") false [] None
      default_retries.
Proof. apply blank_translation_target. reflexivity. Defined.

Lemma fetch_chosen_consistent (translate_to : option str) (k : caption_kind)
  (chosen : track) (selection : TranscriptSelection) :
  k <> translated ->
  snd (fetch_chosen translate_to k chosen) = Returns selection ->
  (source_kind selection = Some manual \/ source_kind selection = Some generated)
  /\ (kind selection = translated \/ Some (kind selection) = source_kind selection)
  /\ (kind selection = translated <-> translated_to selection <> None)
  /\ (forall target, translated_to selection = Some target ->
        truthy target = true
        /\ exists requested,
             translate_to = Some requested /\ target = strip requested).
Proof.
  intros Hk.
  assert (Hsource : Some k = Some manual \/ Some k = Some generated)
    by (destruct k; auto; contradiction).
  assert (Horiginal : forall (log : list event) base,
    snd (log, @Returns failure _
                {| kind := k; source_kind := Some k;
                   language := language_code chosen; translated_to := None;
                   entries := normalize_entries base |})
    = Returns selection ->
    (source_kind selection = Some manual \/ source_kind selection = Some generated)
    /\ (kind selection = translated \/ Some (kind selection) = source_kind selection)
    /\ (kind selection = translated <-> translated_to selection <> None)
    /\ (forall target, translated_to selection = Some target ->
          truthy target = true
          /\ exists requested,
               translate_to = Some requested /\ target = strip requested)).
  { intros log base [= <-]. cbn [source_kind kind translated_to].
    split; [exact Hsource|]. split; [now right|]. split.
    - split; [contradiction | intros H; now contradiction H].
    - discriminate. }
  unfold fetch_chosen.
  destruct (fetch chosen) as [base|err]; [|discriminate].
  destruct translate_to as [t|]; [|apply Horiginal].
  destruct (truthy t); [|apply Horiginal].
  destruct (truthy (strip t)) eqn:Ht; [|apply Horiginal].
  destruct (translate chosen (strip t)) as [tr|err].
  - destruct (fetch tr) as [tentries|err].
    + intros [= <-]. cbn [source_kind kind translated_to].
      split; [exact Hsource|]. split; [now left|]. split.
      * split; [discriminate | reflexivity].
      * intros target [= <-]. split; [exact Ht|]. now exists t.
    + destruct err; try apply Horiginal; discriminate.
  - destruct err; try apply Horiginal; discriminate.
Qed.

(** What is returned is consistent: the source kind is manual or
    generated; the kind is translated exactly when a translation
    target is recorded, and is the source kind otherwise; and a
    recorded target is the requested one, trimmed and not empty. *)
Theorem selection_is_consistent
  (api : Api) (video_id : str) (prefer_generated : bool)
  (languages : list str) (translate_to : option str) (retries : Z)
  (selection : TranscriptSelection) :
  snd (fetch_transcript api video_id prefer_generated languages translate_to
         retries) = Returns selection ->
  (source_kind selection = Some manual \/ source_kind selection = Some generated)
  /\ (kind selection = translated \/ Some (kind selection) = source_kind selection)
  /\ (kind selection = translated <-> translated_to selection <> None)
  /\ (forall target, translated_to selection = Some target ->
        truthy target = true
        /\ exists requested,
             translate_to = Some requested /\ target = strip requested).
Proof.
  unfold fetch_transcript.
  destruct (list_transcripts api video_id retries) as [events [transcripts|e]];
    [|discriminate].
  destruct (choose (search_order prefer_generated transcripts)
              (preferences_of languages)) as [[k chosen]|] eqn:Hchoose;
    [|discriminate].
  pose proof (TranscriptSpec.choose_kind _ _ _ Hchoose) as Hk.
  pose proof (@fetch_chosen_consistent translate_to k chosen selection Hk) as H.
  destruct (fetch_chosen translate_to k chosen) as [more result].
  exact H.
Qed.

Lemma selection_is_consistent_witness :
  let selection :=
    {| kind := manual; source_kind := Some manual; language := lit "en";
       translated_to := None;
       entries := [ {| text := Some (lit "hello"); start := 0; duration := 1 |} ] |} in
  kind selection = translated <-> translated_to selection <> None.
Proof.
  exact (proj1 (proj2 (proj2
    (@selection_is_consistent sample_api (lit "dQw4w9WgXcQ") false [lit "en"]
       (Some (lit "fr")) default_retries _ eq_refl)))).
Defined.

End FetchSpec.

(** ** The layout of the outputs *)

Module LayoutSpec.

Import Timestamp Normalizer Transcript Renderer StrFacts Terms Examples StripFacts.

(** *** Blank lines *)

Lemma separated_suffix (a b : list str) : separated (a ++ b) -> separated b.
Proof.
  induction a as [|x a IH]; [auto|].
  cbn [app]. intros H. apply IH.
  destruct (a ++ b); [exact I | apply H].
Qed.

(** Neither output holds two blank lines in a row, whatever the
    options are. *)
Theorem no_blank_runs
  (T : Tables) (transcript : TranscriptSelection) (canonical_url title : str)
  (include_timestamps keep_tags : bool) :
  separated
    (txt_lines T transcript canonical_url title include_timestamps keep_tags)
  /\ separated
       (map paragraph_text
          (write_docx T transcript canonical_url title include_timestamps
             keep_tags)).
Proof.
  assert (Htxt : separated
            (txt_lines T transcript canonical_url title include_timestamps
               keep_tags))
    by apply RendererSpec.fold_txt_separated, RendererSpec.header_separated.
  split; [exact Htxt|].
  unfold txt_lines, write_docx in *.
  destruct (RendererSpec.fold_writers T include_timestamps keep_tags
              (entries transcript) (txt_header canonical_url title)
              (docx_header canonical_url title)) as [body [Hl Hd]].
  rewrite RendererSpec.header_ends_without_text in Hd. cbn [negb] in Hd.
  rewrite Hd. rewrite Hl in Htxt. unfold txt_header in Htxt.
  rewrite <- app_assoc in Htxt. apply separated_suffix in Htxt.
  unfold docx_header. cbn [map app]. split; [|exact Htxt].
  apply orb_true_iff. right.
  destruct (truthy canonical_url); reflexivity.
Qed.

(** *** The lines of text *)

Section Lines.
Variable T : Tables.
Variable include_timestamps : bool.
Variable keep_tags : bool.

Local Abbreviation added := (Terms.added T include_timestamps keep_tags).
Local Abbreviation visible := (shown T keep_tags).
Local Abbreviation line := (line_of T include_timestamps keep_tags).

Lemma added_text (lines : list str) (entry : Entry) :
  filter truthy (added lines entry)
  = if visible entry then [line entry] else [].
Proof.
  unfold Terms.added, shown, line_of.
  destruct (negb keep_tags && is_marker (text entry)); cbn [negb andb].
  - now destruct (ends_with_text lines).
  - destruct (truthy (clean_caption_text T (text entry) keep_tags)) eqn:Ht;
      cbn [negb]; [|reflexivity].
    pose proof (RendererSpec.added_line_truthy T include_timestamps keep_tags
                  entry Ht) as Hline.
    rewrite filter_app. cbn [filter]. rewrite Hline.
    destruct (keep_tags && is_marker (text entry)); [|reflexivity].
    now destruct (ends_with_text lines).
Qed.

Lemma fold_txt_text (entries : list Entry) :
  forall lines body,
  fold_left (txt_entry T include_timestamps keep_tags) entries lines
  = lines ++ body ->
  filter truthy body = map line (filter visible entries).
Proof.
  induction entries as [|e es IH]; intros lines body H.
  - cbn [fold_left] in H. rewrite <- (app_nil_r lines) in H at 1.
    apply app_inv_head in H. now subst body.
  - cbn [fold_left] in H. rewrite RendererSpec.txt_entry_added in H.
    destruct (RendererSpec.fold_txt_appends T include_timestamps keep_tags es
                (lines ++ added lines e)) as [rest Hrest].
    rewrite Hrest, <- app_assoc in H. apply app_inv_head in H. subst body.
    rewrite filter_app, added_text, (IH _ _ Hrest). cbn [filter].
    now destruct (visible e).
Qed.

End Lines.

(** After the header, the lines of text of both outputs are the
    cleaned captions that have text, each once and in the order of
    the transcript, with the timestamp in front when timestamps are
    included; entries that are nothing but a tag are among them only
    when tags are kept.  All other lines are blank. *)
Theorem captions_in_order
  (T : Tables) (transcript : TranscriptSelection) (canonical_url title : str)
  (include_timestamps keep_tags : bool) :
  exists body,
    txt_lines T transcript canonical_url title include_timestamps keep_tags
    = txt_header canonical_url title ++ body
    /\ map paragraph_text
         (write_docx T transcript canonical_url title include_timestamps
            keep_tags)
       = map paragraph_text (docx_header canonical_url title) ++ body
    /\ filter truthy body
       = map (line_of T include_timestamps keep_tags)
           (filter (shown T keep_tags) (entries transcript)).
Proof.
  unfold txt_lines, write_docx.
  destruct (RendererSpec.fold_writers T include_timestamps keep_tags
              (entries transcript) (txt_header canonical_url title)
              (docx_header canonical_url title)) as [body [Hl Hd]].
  rewrite RendererSpec.header_ends_without_text in Hd. cbn [negb] in Hd.
  exists body. split; [exact Hl|]. split; [exact Hd|].
  exact (@fold_txt_text T include_timestamps keep_tags _ _ _ Hl).
Qed.

(** *** The text file *)

(** The file starts with the title line, when there is a title, and
    the source line, and it ends with exactly one newline that no
    whitespace precedes. *)
Theorem text_file_shape
  (T : Tables) (transcript : TranscriptSelection) (canonical_url title : str)
  (include_timestamps keep_tags : bool) :
  exists rest,
    write_txt T transcript canonical_url title include_timestamps keep_tags
    = (if truthy title then lit "Title: " ++ title ++ [10%N] else [])
      ++ lit "Source:" ++ rest ++ [10%N]
    /\ rstrip rest = rest.
Proof.
  unfold write_txt, txt_lines.
  destruct (RendererSpec.fold_txt_appends T include_timestamps keep_tags
              (entries transcript) (txt_header canonical_url title))
    as [body ->].
  unfold txt_header. rewrite <- app_assoc.
  set (tail := join [10%N] (([32%N] ++ canonical_url) :: [] :: body)).
  assert (E : join [10%N]
                ((if truthy title then [lit "Title: " ++ title] else [])
                 ++ [lit "Source: " ++ canonical_url; []] ++ body)
              = ((if truthy title then lit "Title: " ++ title ++ [10%N] else [])
                 ++ lit "Source") ++ 58%N :: tail).
  { subst tail. destruct (truthy title).
    - cbn [app]. change (join [10%N] (?x :: ?y :: ?l))
        with (x ++ [10%N] ++ join [10%N] (y :: l)) at 1.
      change (join [10%N] ((lit "Source: " ++ canonical_url) :: [] :: body))
        with (lit "Source" ++ 58%N
                :: join [10%N] (([32%N] ++ canonical_url) :: [] :: body)).
      now rewrite <- !app_assoc.
    - reflexivity. }
  rewrite E. unfold rstrip.
  rewrite rstrip_by_after_text by reflexivity.
  exists (rstrip_by is_space tail). split.
  - rewrite <- !app_assoc. reflexivity.
  - apply SanitizerSpec.rstrip_by_idempotent.
Qed.

End LayoutSpec.

(** ** Sanitized names *)

Module FilenameSpec.

Import Sanitizer StrFacts Terms Examples.

(** *** Prefixes and suffixes *)

Lemma starts_clean_prefix (q : char -> bool) (a b : str) :
  a <> [] -> starts_clean q (a ++ b) = starts_clean q a.
Proof. destruct a; [contradiction | reflexivity]. Qed.

Lemma chain_snoc (R : char -> char -> bool) (s : str) (c : char) :
  (forall x, R x c = true) -> chain R s = true -> chain R (s ++ [c]) = true.
Proof.
  intros Hc. induction s as [|a [|b r] IH]; intros H.
  - reflexivity.
  - cbn. now rewrite Hc.
  - change (chain R ((a :: b :: r) ++ [c]))
      with (R a b && chain R ((b :: r) ++ [c])).
    change (chain R (a :: b :: r)) with (R a b && chain R (b :: r)) in H.
    apply andb_true_iff in H as [Hab H]. now rewrite Hab, IH.
Qed.

Lemma strip_by_ends_clean (q : char -> bool) (s : str) :
  starts_clean q (rev (strip_by q s)) = true.
Proof.
  unfold strip_by, rstrip_by. rewrite rev_involutive.
  apply SanitizerSpec.lstrip_by_starts_clean.
Qed.

Lemma rstrip_settled (s : str) :
  forallb plain_space s = true ->
  starts_clean trimmed (rev s) = true ->
  rstrip s = s.
Proof.
  intros Hplain Hend. unfold rstrip, rstrip_by.
  rewrite SanitizerSpec.lstrip_by_clean; [apply rev_involutive|].
  rewrite <- forallb_rev in Hplain.
  destruct (rev s) as [|c r]; [reflexivity|].
  cbn [starts_clean forallb] in *.
  apply andb_true_iff in Hplain as [Hc _].
  unfold plain_space in Hc. unfold trimmed in Hend.
  destruct (is_space c); [|reflexivity].
  cbn [negb orb] in Hc. apply N.eqb_eq in Hc. now subst c.
Qed.

Lemma reserved_not_empty (s : str) : is_reserved s = true -> s <> [].
Proof. intros H ->. discriminate H. Qed.

(** *** The text before the length limit *)

Section WithTables.
Variable T : Tables.

Lemma untruncated_properties (base : str) :
  let text := untruncated T base in
  all_ascii text = true /\ single_spaced text = true
  /\ starts_clean trimmed text = true
  /\ starts_clean trimmed (rev text) = true.
Proof.
  unfold untruncated. cbv zeta.
  set (raw := ascii_ignore
                match unidecode T with
                | Some unidecode => unidecode (cleaned T base)
                | None => ascii_ignore (cleaned T base)
                end).
  unfold strip_chars, collapse_whitespace.
  fold trimmed.
  change (fun c => mem c (lit " .")) with trimmed.
  destruct (SanitizerSpec.sub_spaces_single_spaced raw false) as [Hss _].
  destruct (SanitizerSpec.strip_by_infix trimmed (sub_spaces false raw))
    as (a & b & E).
  repeat split.
  - apply SanitizerSpec.forallb_strip_by,
      SanitizerSpec.forallb_sub_spaces; [reflexivity|].
    subst raw. unfold ascii_ignore. apply forallb_filter.
  - unfold single_spaced in *. apply andb_true_iff in Hss as [Hplain Hpair].
    apply andb_true_iff. split.
    + now apply SanitizerSpec.forallb_strip_by.
    + apply (@SanitizerSpec.chain_infix no_space_pair a _ b). now rewrite <- E.
  - unfold strip_by.
    apply SanitizerSpec.rstrip_by_starts_clean,
      SanitizerSpec.lstrip_by_starts_clean.
  - apply strip_by_ends_clean.
Qed.

Lemma untruncated_printable (base : str) :
  unidecode_table T = None ->
  forallb printable (untruncated T base) = true.
Proof.
  intros Hnone. unfold untruncated, unidecode. rewrite Hnone.
  unfold strip_chars, collapse_whitespace, ascii_ignore.
  apply SanitizerSpec.forallb_strip_by,
    SanitizerSpec.forallb_sub_spaces; [reflexivity|].
  destruct (SanitizerSpec.cleaned_properties T base) as (Hkept & _).
  rewrite forallb_forall in *. intros c Hc.
  apply filter_In in Hc as [Hc _]. apply filter_In in Hc as [Hc Hascii].
  specialize (Hkept c Hc). rewrite (SanitizerSpec.kept_ascii T _ Hascii) in Hkept.
  pose proof (@below_bound
    (fun c => implb (kept plain_tables c) (printable c))
    128 ltac:(vm_compute; reflexivity) c) as Himp.
  cbv beta in Himp. rewrite Hkept in Himp. apply Himp.
  unfold is_ascii in Hascii. apply N.ltb_lt in Hascii. exact Hascii.
Qed.

(** What the length limit and the suffix keep. *)
Lemma limited_properties (text : str) :
  let limited := if (200 <? length text)%nat
                 then rstrip (firstn 200 text) else text in
  let result := if is_reserved limited then limited ++ lit "_" else limited in
  all_ascii text = true -> single_spaced text = true ->
  starts_clean trimmed text = true ->
  starts_clean trimmed (rev text) = true ->
  all_ascii result = true /\ single_spaced result = true
  /\ starts_clean trimmed result = true /\ rstrip result = result.
Proof.
  intros limited result Hascii Hss Hstart Hend.
  assert (Hlim : all_ascii limited = true /\ single_spaced limited = true
                 /\ starts_clean trimmed limited = true
                 /\ rstrip limited = limited).
  { subst limited. destruct (200 <? length text)%nat.
    - destruct (SanitizerSpec.rstrip_by_prefix is_space (firstn 200 text))
        as [b Eb].
      pose proof (firstn_skipn 200 text) as Et.
      unfold rstrip. set (short := rstrip_by is_space (firstn 200 text)) in *.
      assert (E : text = short ++ (b ++ skipn 200 text))
        by (rewrite app_assoc, <- Eb; now rewrite Et).
      unfold all_ascii, single_spaced in *.
      apply andb_true_iff in Hss as [Hplain Hpair].
      rewrite E in Hascii, Hplain, Hpair, Hstart.
      rewrite forallb_app in Hascii, Hplain.
      apply andb_true_iff in Hascii as [Hascii _].
      apply andb_true_iff in Hplain as [Hplain _].
      apply SanitizerSpec.chain_app_l in Hpair.
      repeat split; auto.
      + now rewrite Hplain, Hpair.
      + destruct short as [|c r]; [reflexivity | exact Hstart].
      + subst short. apply SanitizerSpec.rstrip_by_idempotent.
    - repeat split; auto. apply rstrip_settled; [|exact Hend].
      unfold single_spaced in Hss. now apply andb_true_iff in Hss as [Hss _]. }
  destruct Hlim as (Ha & Hs & Hc & Hr). subst result.
  destruct (is_reserved limited) eqn:Hres; [|repeat split; assumption].
  repeat split.
  - unfold all_ascii in *. now rewrite forallb_app, Ha.
  - unfold single_spaced in *. apply andb_true_iff in Hs as [Hplain Hpair].
    apply andb_true_iff. split.
    + now rewrite forallb_app, Hplain.
    + apply chain_snoc; [|exact Hpair]. intros x. unfold no_space_pair.
      change (is_space 95%N) with false. now rewrite andb_false_r.
  - rewrite starts_clean_prefix; [exact Hc | now apply reserved_not_empty].
  - unfold rstrip. now apply rstrip_by_last.
Qed.

End WithTables.

Lemma sanitize_filename_ascii (T : Tables) (base : str) :
  all_ascii (sanitize_filename T base) = true.
Proof.
  unfold sanitize_filename.
  destruct (truthy base); cbn [negb]; [|reflexivity].
  destruct (untruncated_properties T base) as (Ha & Hs & Hc & He).
  now destruct (limited_properties (untruncated T base) Ha Hs Hc He).
Qed.

(** A sanitized name is pure ASCII, whatever the title and the tables
    are; its only whitespace is single spaces; it does not start with
    a space or a full stop and does not end with whitespace. *)
Theorem sanitized_name_is_tidy (T : Tables) (base : str) :
  let name := sanitize_filename T base in
  all_ascii name = true
  /\ forallb plain_space name = true
  /\ chain no_space_pair name = true
  /\ starts_clean trimmed name = true
  /\ rstrip name = name.
Proof.
  cbv zeta. unfold sanitize_filename.
  destruct (truthy base); cbn [negb]; [|now repeat split].
  destruct (untruncated_properties T base) as (Ha & Hs & Hc & He).
  destruct (limited_properties (untruncated T base) Ha Hs Hc He)
    as (Ha' & Hs' & Hc' & Hr').
  unfold single_spaced in Hs'. apply andb_true_iff in Hs' as [Hplain Hpair].
  repeat split; assumption.
Qed.

(** A sanitized name has at most 200 characters and is never one of
    the reserved device names; when Unidecode is not installed it
    holds printable ASCII characters only, and none of the characters
    that are illegal in file names. *)
Theorem sanitized_name_is_safe (T : Tables) (base : str) :
  let name := sanitize_filename T base in
  (length name <= 200)%nat
  /\ is_reserved name = false
  /\ (unidecode_table T = None ->
      forallb printable name = true /\ forallb legal name = true).
Proof.
  cbv zeta.
  destruct (SanitizerSpec.sanitize_filename_bounds T base)
    as (Hlen & Hres & Hlegal).
  split; [exact Hlen|]. split; [exact Hres|].
  intros Hnone. split; [|now apply Hlegal].
  clear Hlen Hres Hlegal. unfold sanitize_filename.
  destruct (truthy base); cbn [negb]; [|reflexivity].
  pose proof (untruncated_printable T base Hnone) as Htext.
  set (text := untruncated T base) in *.
  set (limited := if (200 <? length text)%nat
                  then rstrip (firstn 200 text) else text).
  assert (Hlim : forallb printable limited = true).
  { subst limited. destruct (200 <? length text)%nat; [|exact Htext].
    now apply SanitizerSpec.forallb_rstrip_by, SanitizerSpec.forallb_firstn. }
  destruct (is_reserved limited); [|exact Hlim].
  now rewrite forallb_app, Hlim.
Qed.

End FilenameSpec.

(** ** Command line *)

Module CliSpec.

Import Transcript Renderer Sanitizer Cli StrFacts Terms Examples StripFacts.

(** *** Lines *)

Lemma linebreak_is_space (c : char) : is_linebreak c = true -> is_space c = true.
Proof.
  intros H.
  assert (Hc : (c < 8300)%N).
  { unfold is_linebreak in H.
    repeat (apply orb_true_iff in H as [H | H]);
      try (apply andb_true_iff in H as [_ H]; apply N.leb_le in H; lia);
      apply N.eqb_eq in H; lia. }
  change 8300%N with (N.of_nat (83 * 100)) in Hc.
  pose proof (@below_bound (fun c => implb (is_linebreak c) (is_space c))
                (83 * 100) ltac:(vm_compute; reflexivity) c Hc) as Himp.
  cbv beta in Himp. now rewrite H in Himp.
Qed.

Lemma splitlines_from_first (s : str) :
  forall cur, cur <> [] \/ s <> [] ->
  exists rest,
    splitlines_from cur s
    = (rev cur ++ fst (Resolver.break_at is_linebreak s)) :: rest.
Proof.
  induction s as [|c r IH]; intros cur H.
  - destruct H as [H|H]; [|contradiction].
    exists []. cbn. destruct cur; [contradiction|]. now rewrite app_nil_r.
  - cbn [splitlines_from Resolver.break_at].
    destruct (is_linebreak c).
    + eexists. cbn [fst]. rewrite app_nil_r. reflexivity.
    + destruct (IH (c :: cur) ltac:(left; discriminate)) as [rest Hrest].
      exists rest. rewrite Hrest. cbn [rev].
      destruct (Resolver.break_at is_linebreak r). cbn [fst].
      now rewrite <- app_assoc.
Qed.

Lemma break_at_stops (stop : char -> bool) (s : str) :
  forallb (fun c => negb (stop c)) (fst (Resolver.break_at stop s)) = true.
Proof.
  induction s as [|c r IH]; [reflexivity|].
  cbn [Resolver.break_at]. destruct (stop c) eqn:E; [reflexivity|].
  destruct (Resolver.break_at stop r). cbn [fst forallb] in *.
  now rewrite E, IH.
Qed.

(** The first line of stripped text that is not empty, stripped. *)
Lemma first_line_of_text (stdout : str) :
  truthy (strip stdout) = true ->
  exists line rest,
    splitlines (strip stdout) = line :: rest
    /\ truthy (strip line) = true
    /\ forallb (fun c => negb (is_linebreak c)) (strip line) = true.
Proof.
  intros Hne. unfold splitlines.
  pose proof (SanitizerSpec.rstrip_by_starts_clean is_space _
                (SanitizerSpec.lstrip_by_starts_clean is_space stdout)) as Hc.
  fold (strip_by is_space stdout) in Hc. fold (strip stdout) in Hc.
  destruct (strip stdout) as [|c r] eqn:E; [discriminate|].
  destruct (@splitlines_from_first (c :: r) [] ltac:(right; discriminate))
    as [rest Hrest].
  exists (fst (Resolver.break_at is_linebreak (c :: r))), rest.
  split; [exact Hrest|].
  pose proof (break_at_stops is_linebreak (c :: r)) as Hstops.
  split.
  - cbn [starts_clean] in Hc. apply negb_true_iff in Hc.
    cbn [Resolver.break_at] in *.
    destruct (is_linebreak c) eqn:El.
    + apply linebreak_is_space in El. congruence.
    + destruct (Resolver.break_at is_linebreak r) as [a b]. cbn [fst].
      unfold strip, strip_by. cbn [lstrip_by]. rewrite Hc.
      now rewrite (rstrip_by_head _ _ _ Hc).
  - unfold strip. now apply SanitizerSpec.forallb_strip_by.
Qed.

Section WithWorld.
Variable T : Tables.
Variable path : Type.
Variable W : World path.

(** A title that [get_video_title] returns is one line of text: it is
    not empty, it holds no line break, and it neither starts nor ends
    with whitespace. *)
Theorem title_is_one_line (yt_dlp_path : path) (canonical_url title : str) :
  get_video_title W yt_dlp_path canonical_url = Returns (Some title) ->
  truthy title = true
  /\ strip title = title
  /\ forallb (fun c => negb (is_linebreak c)) title = true.
Proof.
  unfold get_video_title.
  destruct (run W yt_dlp_path canonical_url) as [stdout| | | |what];
    try discriminate.
  destruct (truthy (strip stdout)) eqn:Hne; cbn [negb]; [|discriminate].
  destruct (first_line_of_text _ Hne) as (line & rest & -> & Ht & Hl).
  rewrite Ht. intros [= <-]. repeat split; auto.
  apply SanitizerSpec.strip_by_idempotent.
Qed.

(** The lookup gives a title exactly when the process ends well with
    output that is not blank; it gives nothing when the process fails
    in one of the three ways the function handles or prints nothing
    but whitespace; and the only exceptions that leave it are those
    of the process call that it does not handle. *)
Theorem title_lookup (yt_dlp_path : path) (canonical_url : str) :
  match run W yt_dlp_path canonical_url with
  | Completed stdout =>
      if forallb is_space stdout
      then get_video_title W yt_dlp_path canonical_url = Returns None
      else exists title,
             get_video_title W yt_dlp_path canonical_url = Returns (Some title)
  | OtherProcessError what =>
      get_video_title W yt_dlp_path canonical_url = Raises (Unhandled what)
  | _ => get_video_title W yt_dlp_path canonical_url = Returns None
  end.
Proof.
  unfold get_video_title.
  destruct (run W yt_dlp_path canonical_url) as [stdout| | | |what];
    try reflexivity.
  destruct (forallb is_space stdout) eqn:Hblank.
  - now rewrite (strip_blank _ Hblank).
  - assert (Hne : truthy (strip stdout) = true).
    { destruct (strip stdout) eqn:E; [|reflexivity].
      apply strip_by_empty in E. congruence. }
    rewrite Hne. cbn [negb].
    destruct (first_line_of_text _ Hne) as (line & rest & -> & Ht & _).
    rewrite Ht. now eexists.
Qed.

(** What the probe finds is what the search path gives, or else one
    of the two fallback locations, and then an executable file; with
    [skip_probe] it finds nothing. *)
Theorem probe_finds_a_binary (skip_probe : bool) :
  match probe_ytdlp W skip_probe with
  | Some found =>
      skip_probe = false
      /\ ((exists which_result,
             which W (lit "yt-dlp") = Some which_result
             /\ truthy which_result = true
             /\ found = Path W which_result)
          \/ ((found = Path W (lit "/opt/homebrew/bin/yt-dlp")
               \/ found = Path W (lit "/usr/local/bin/yt-dlp"))
              /\ is_file W found = true /\ executable W found = true))
  | None =>
      skip_probe = true
      \/ (forall which_result,
            which W (lit "yt-dlp") = Some which_result -> which_result = [])
  end.
Proof.
  unfold probe_ytdlp. destruct skip_probe; [now left|].
  set (candidates := [Path W (lit "/opt/homebrew/bin/yt-dlp");
                      Path W (lit "/usr/local/bin/yt-dlp")]).
  assert (Hfallback :
    match find (fun c => is_file W c && executable W c) candidates with
    | Some found =>
        (found = Path W (lit "/opt/homebrew/bin/yt-dlp")
         \/ found = Path W (lit "/usr/local/bin/yt-dlp"))
        /\ is_file W found = true /\ executable W found = true
    | None => True
    end).
  { destruct (find _ candidates) as [found|] eqn:E; [|exact I].
    apply find_some in E as [Hin Hok].
    apply andb_true_iff in Hok as [Hf Hx].
    split; [|now split].
    destruct Hin as [<-|[<-|[]]]; auto. }
  destruct (which W (lit "yt-dlp")) as [which_result|] eqn:Hw.
  - destruct (truthy which_result) eqn:Ht.
    + split; [reflexivity|]. left. now exists which_result.
    + destruct (find _ candidates) as [found|].
      * split; [reflexivity|]. now right.
      * right. intros w [= <-]. now destruct which_result.
  - destruct (find _ candidates) as [found|].
    + split; [reflexivity|]. now right.
    + right. discriminate.
Qed.

(** *** Running the script *)

Lemma id_settled (y : str) : forallb is_id_char y = true -> settled T y.
Proof.
  intros H.
  assert (Hall : forall c, In c y ->
            is_ascii c = true /\ kept T c = true /\ is_space c = false
            /\ trimmed c = false).
  { rewrite forallb_forall in H. intros c Hc. specialize (H c Hc).
    pose proof (ResolverSpec.id_char_ascii c H) as Hlt.
    change 128%N with (N.of_nat 128) in Hlt.
    pose proof (@below_bound
      (fun c => implb (is_id_char c)
                  (is_ascii c && kept plain_tables c
                   && negb (is_space c) && negb (trimmed c)))
      128 ltac:(vm_compute; reflexivity) c Hlt) as Hc'.
    cbv beta in Hc'. rewrite H in Hc'. cbn [implb] in Hc'.
    repeat (apply andb_true_iff in Hc' as [Hc' ?]).
    rewrite (SanitizerSpec.kept_ascii T _ Hc').
    repeat split; auto; now apply negb_true_iff. }
  assert (Hspace : forallb (fun c => negb (is_space c)) y = true).
  { apply forallb_forall. intros c Hc.
    destruct (Hall c Hc) as (_ & _ & Hs & _). now rewrite Hs. }
  repeat split.
  - apply forallb_forall. intros c Hc. apply (Hall c Hc).
  - apply forallb_forall. intros c Hc. apply (Hall c Hc).
  - now apply SanitizerSpec.single_spaced_without_space.
  - now apply (SanitizerSpec.chain_without_space _ _
                 SanitizerSpec.no_space_punct_left).
  - apply strip_by_none, forallb_forall. intros c Hc.
    destruct (Hall c Hc) as (_ & _ & _ & Ht). unfold trimmed in Ht.
    now rewrite Ht.
Qed.

Lemma id_not_reserved (video_id : str) :
  fullmatch_video_id video_id = true -> is_reserved video_id = false.
Proof.
  unfold fullmatch_video_id. intros H.
  apply andb_true_iff in H as [Hlen _]. apply Nat.eqb_eq in Hlen.
  destruct (is_reserved video_id) eqn:E; [|reflexivity].
  destruct (SanitizerSpec.reserved_name _ E) as (_ & H4 & _). lia.
Qed.

Lemma sanitize_video_id (video_id : str) :
  fullmatch_video_id video_id = true ->
  sanitize_filename T video_id = video_id.
Proof.
  intros H. pose proof H as Hshape. unfold fullmatch_video_id in Hshape.
  apply andb_true_iff in Hshape as [Hlen Hchars]. apply Nat.eqb_eq in Hlen.
  apply SanitizerSpec.sanitize_settled.
  - now apply id_settled.
  - lia.
  - now apply id_not_reserved.
Qed.

Lemma output_path_default (args : Namespace) (sanitized_base extension : str) :
  no_out args = true ->
  output_path T W args sanitized_base extension
  = Some (Path W (sanitized_base ++ extension)).
Proof.
  unfold no_out, output_path. destruct (out args) as [given|]; [|reflexivity].
  intros H. apply negb_true_iff in H. now rewrite H.
Qed.


(** Without [--out] the file is named after the sanitized title, or
    after the identifier when nothing is left of the title, with the
    extension of the format: the base of the name is never empty, is
    pure ASCII, has at most 200 characters and is not a reserved
    device name. *)
Theorem default_file_name (args : Namespace) (written_to : path) (written : file) :
  no_out args = true ->
  saved (main T W args) = Some (written_to, written) ->
  exists base,
    written_to = Path W (base ++ extension args)
    /\ truthy base = true
    /\ all_ascii base = true
    /\ (length base <= 200)%nat
    /\ is_reserved base = false.
Proof.
  intros Hout. unfold main.
  destruct (Resolver.extract_video_id T (url_or_id args))
    as [[video_id canonical_url]|e] eqn:Hid; [|discriminate].
  destruct (ReferenceSpec.extract_returns_valid T _ Hid) as [Hvalid _].
  destruct (match probe_ytdlp W (no_yt_dlp args) with
            | Some p =>
                match get_video_title W p canonical_url with
                | Returns (Some t) =>
                    Returns (if truthy t then t else video_id)
                | Returns None => Returns video_id
                | Raises e => Raises e
                end
            | None => Returns video_id
            end) as [title|e]; [|discriminate].
  destruct (fetch_transcript (api W) video_id (gencaps args)
              (expand_language_list (lang args)) (translate args)
              default_retries) as [events [transcript|e]]; [|discriminate].
  rewrite (output_path_default _ _ _ Hout).
  destruct (store W _ _); [|discriminate].
  cbn [saved]. intros [= <- _].
  eexists. split; [reflexivity|].
  destruct (truthy (sanitize_filename T title)) eqn:Hname.
  - destruct (SanitizerSpec.sanitize_filename_bounds T title)
      as (Hlen & Hres & _).
    repeat split; auto. apply FilenameSpec.sanitize_filename_ascii.
  - pose proof Hvalid as Hshape. unfold fullmatch_video_id in Hshape.
    apply andb_true_iff in Hshape as [Hlen Hchars]. apply Nat.eqb_eq in Hlen.
    repeat split.
    + destruct video_id; [discriminate Hlen | reflexivity].
    + unfold all_ascii. rewrite forallb_forall in *. intros c Hc.
      apply N.ltb_lt. now apply ResolverSpec.id_char_ascii, Hchars.
    + lia.
    + now apply id_not_reserved.
Qed.

(** When no yt-dlp is looked for or found, the identifier stands in
    for the title: without [--out] the transcript is saved as the
    identifier with the extension of the format, under the
    identifier as its title. *)
Theorem identifier_stands_in_for_title
  (args : Namespace) (video_id canonical_url : str) (events : list event)
  (transcript : TranscriptSelection) :
  probe_ytdlp W (no_yt_dlp args) = None ->
  no_out args = true ->
  Resolver.extract_video_id T (url_or_id args)
  = Returns (video_id, canonical_url) ->
  fetch_transcript (api W) video_id (gencaps args)
    (expand_language_list (lang args)) (translate args) default_retries
  = (events, Returns transcript) ->
  let written_to := Path W (video_id ++ extension args) in
  let written :=
    if docx args
    then Document (write_docx T transcript canonical_url video_id
                     (negb (nostamp args)) (keep_tags args))
    else TextFile (write_txt T transcript canonical_url video_id
                     (negb (nostamp args)) (keep_tags args)) in
  main T W args
  = if store W written_to written
    then {| exit_code := 0; log := events;
            saved := Some (written_to, written) |}
    else @failed path events.
Proof.
  intros Hprobe Hout Hid Hfetch. cbv zeta. unfold main.
  rewrite Hid, Hprobe, Hfetch.
  destruct (ReferenceSpec.extract_returns_valid T _ Hid) as [Hvalid _].
  rewrite (sanitize_video_id _ Hvalid).
  replace (truthy video_id) with true
    by (destruct video_id; [discriminate Hvalid | reflexivity]).
  rewrite (output_path_default _ _ _ Hout). reflexivity.
Qed.

End WithWorld.

Lemma title_is_one_line_witness :
  get_video_title sample_world (lit "/usr/bin/yt-dlp")
    (lit "https://www.youtube.com/watch?v=dQw4w9WgXcQ")
  = Returns (Some (lit "Never Gonna Give You Up"))
  /\ strip (lit "Never Gonna Give You Up") = lit "Never Gonna Give You Up".
Proof.
  split; [reflexivity|].
  exact (proj1 (proj2
    (@title_is_one_line str sample_world (lit "/usr/bin/yt-dlp")
       (lit "https://www.youtube.com/watch?v=dQw4w9WgXcQ") _ eq_refl))).
Defined.

Lemma default_file_name_witness :
  saved (main plain_tables sample_world (sample_args "dQw4w9WgXcQ" false))
  = Some (lit "Never Gonna Give You Up.txt",
          TextFile
            (write_txt plain_tables
               (selection_of [caption "hello"])
               (lit "https://www.youtube.com/watch?v=dQw4w9WgXcQ")
               (lit "Never Gonna Give You Up") true false))
  /\ exists base,
       lit "Never Gonna Give You Up.txt" = base ++ lit ".txt"
       /\ truthy base = true /\ all_ascii base = true
       /\ (length base <= 200)%nat /\ is_reserved base = false.
Proof.
  split; [vm_compute; reflexivity|].
  exact (@default_file_name plain_tables str sample_world
           (sample_args "dQw4w9WgXcQ" false) _ _ eq_refl
           ltac:(vm_compute; reflexivity)).
Defined.

Lemma identifier_stands_in_for_title_witness :
  saved (main plain_tables sample_world
           (sample_args "https://youtu.be/dQw4w9WgXcQ" true))
  = Some (lit "dQw4w9WgXcQ.txt",
          TextFile
            (write_txt plain_tables (selection_of [caption "hello"])
               (lit "https://www.youtube.com/watch?v=dQw4w9WgXcQ")
               (lit "dQw4w9WgXcQ") true false)).
Proof.
  rewrite (@identifier_stands_in_for_title plain_tables str sample_world
             (sample_args "https://youtu.be/dQw4w9WgXcQ" true)
             (lit "dQw4w9WgXcQ")
             (lit "https://www.youtube.com/watch?v=dQw4w9WgXcQ")
             _ (selection_of [caption "hello"])
             eq_refl eq_refl eq_refl eq_refl).
  reflexivity.
Defined.

End CliSpec.
